(** * Upload orchestration and scheduling engine of [main.py]

    A shallow embedding of the parts of the bot that carry invariants:
    the bulk schedule computation of [schedule_preset_cb], the
    [TaskTracker] registry, the upload semaphore and its reload, the
    schedule polling loop [schedule_bulk_upload_task], the upload pipeline
    [process_and_upload], the conversation handlers that drive the
    per-user state ([handle_text_input], [handle_media_upload],
    [timeout_task]), and the commands and buttons of the album and bulk
    flows ([handle_done_command], [handle_skip_command],
    [schedule_preset_cb] with [save_bulk_schedules], [cancel_upload_cb],
    [upload_now_cb]).

    Conventions.
    - A [datetime] is a number of microseconds on the wall clock (type [Z]);
      [timedelta] is a difference of such numbers.  The zone of
      [get_current_ist_time] is Asia/Kolkata, a fixed offset of +05:30, so
      converting to UTC subtracts a constant.
    - Python dictionaries used as maps are [gmap]s; dictionaries used as
      records with optional keys are records with [option] fields.
    - Calls into collaborators (Telegram, Instagram, ffmpeg, the disk) take
      their outcome from an explicit oracle argument, so that every fault
      pattern is an input of the model.
    - [await] points are places where an oracle may answer with a raised
      exception, including [CancelledError]. *)

From stdpp Require Import gmap strings list fin_maps sorting pretty.
From Stdlib Require Import ZArith Lia.
From Stdlib Require Ascii.

Open Scope Z_scope.

(** ** Part I.  The embedding *)

(** *** Wall-clock arithmetic ([datetime], [timedelta], pytz) *)

Module Clock.

Definition us_per_second : Z := 1000000.
Definition us_per_minute : Z := 60 * us_per_second.
Definition us_per_hour : Z := 60 * us_per_minute.
Definition us_per_day : Z := 24 * us_per_hour.

(** [timedelta(hours=h)], [timedelta(days=d)] with integer arguments. *)
Definition hours (h : Z) : Z := h * us_per_hour.
Definition days (d : Z) : Z := d * us_per_day.

(** The calendar day a wall-clock instant falls on. *)
Definition date_of (t : Z) : Z := t / us_per_day.

(** A wall-clock instant from its calendar day and time of day. *)
Definition at_time (day h m s us : Z) : Z :=
  day * us_per_day + h * us_per_hour + m * us_per_minute + s * us_per_second + us.

(** [t.replace(hour=h, minute=m, second=0, microsecond=0)]; the date is
    kept.  Python raises [ValueError] unless [0 <= h < 24] and
    [0 <= m < 60]; callers test [valid_hm] first. *)
Definition replace_hm (t h m : Z) : Z := at_time (date_of t) h m 0 0.

Definition valid_hm (h m : Z) : bool :=
  (0 <=? h) && (h <? 24) && (0 <=? m) && (m <? 60).

(** Offset of Asia/Kolkata from UTC, and
    [t.astimezone(pytz.utc).replace(tzinfo=None)]. *)
Definition ist_offset : Z := 5 * us_per_hour + 30 * us_per_minute.
Definition to_utc_naive (t_ist : Z) : Z := t_ist - ist_offset.
Definition to_ist (t_utc : Z) : Z := t_utc + ist_offset.

(** Rounding of a quotient to the nearest integer, ties to even: the
    rounding [timedelta] applies when it is built from a fractional
    number of minutes. *)
Definition round_half_even_div (a b : Z) : Z :=
  let q := a / b in
  let r := a mod b in
  if 2 * r <? b then q
  else if b <? 2 * r then q + 1
  else if Z.even q then q else q + 1.

End Clock.

(** *** Bulk schedule computation ([schedule_preset_cb], lines 2130-2214) *)

Module BulkSchedule.
Import Clock.

(** One entry of [global_settings['scheduling_windows']], after
    [map(int, window['start'].split(':'))]. *)
Record window := Window {
  start_hour : Z; start_minute : Z;
  end_hour : Z; end_minute : Z
}.

(** An element of [scheduled_posts]. *)
Record post := Post {
  run_at : Z;                  (* naive UTC *)
  caption : option string
}.

Inductive outcome :=
| Scheduled (posts : list post)   (* handed to [save_bulk_schedules] *)
| Answered (alert : string)       (* early [return await query.answer(...)] *)
| IndexError                      (* [bulk_captions[i]] out of range *)
| ValueError.                     (* [datetime.replace] on a bad hour or minute *)

(** [state_data.get('bulk_captions', [None])]. *)
Definition captions_of (bulk_captions : option (list (option string)))
  : list (option string) :=
  match bulk_captions with
  | Some l => l
  | None => [None]
  end.

(** The [for i in range(media_count)] loops of the fixed-step presets:
    [step] is the distance between consecutive posts, [i] the index of
    the next post and [n] the number of posts still to place. *)
Fixpoint fixed_step_loop (caps : list (option string)) (base step : Z)
    (i : nat) (n : nat) : option (list post) :=
  match n with
  | O => Some []
  | S n' =>
      match caps !! i with
      | None => None
      | Some c =>
          match fixed_step_loop caps base step (S i) n' with
          | None => None
          | Some rest => Some (Post (base + Z.of_nat i * step) c :: rest)
          end
      end
  end.

(** The loop of the window presets (lines 2198-2207).  [cur] is
    [current_schedule_time]; [end_today] is [end_of_today_window], which
    the loop never updates. *)
Fixpoint window_loop (caps : list (option string)) (w : window)
    (end_today interval : Z) (cur : Z) (i : nat) (n : nat)
    : option (list post) :=
  match n with
  | O => Some []
  | S n' =>
      let cur1 :=
        if end_today <? cur
        then replace_hm (cur + days 1) (start_hour w) (start_minute w)
        else cur in
      match caps !! i with
      | None => None
      | Some c =>
          match window_loop caps w end_today interval (cur1 + interval) (S i) n' with
          | None => None
          | Some rest => Some (Post (to_utc_naive cur1) c :: rest)
          end
      end
  end.

Definition of_loop (r : option (list post)) : outcome :=
  match r with
  | Some posts => Scheduled posts
  | None => IndexError
  end.

(** [timedelta(minutes=total_minutes / media_count)] where
    [total_minutes] is the window length.  The source divides binary
    floats; the model rounds the exact quotient to the microsecond. *)
Definition interval_of (total_us : Z) (media_count : nat) : Z :=
  round_half_even_div total_us (Z.of_nat media_count).

(** The window branch (lines 2176-2207) for an already parsed window. *)
Definition window_schedule (w : window) (now_ist : Z) (media_count : nat)
    (caps : list (option string)) : outcome :=
  if negb (valid_hm (start_hour w) (start_minute w)) then ValueError
  else if negb (valid_hm (end_hour w) (end_minute w)) then ValueError
  else
    let start_of_today_window := replace_hm now_ist (start_hour w) (start_minute w) in
    let end_of_today_window := replace_hm now_ist (end_hour w) (end_minute w) in
    let total_us := end_of_today_window - start_of_today_window in
    if total_us <=? 0
    then Answered "The selected time window is invalid or too short."
    else
      let interval := interval_of total_us media_count in
      let current_schedule_time :=
        if start_of_today_window <? now_ist then now_ist
        else start_of_today_window in
      of_loop (window_loop caps w end_of_today_window interval
                 current_schedule_time 0 media_count).

(** The body of [schedule_preset_cb] from the test on [media_count] to
    the list given to [save_bulk_schedules].  [now_utc] and [now_ist]
    are the two clock readings the handler takes. *)
Definition compute_schedule (windows : gmap string window)
    (preset_key : string) (now_utc now_ist : Z) (media_count : nat)
    (bulk_captions : option (list (option string))) : outcome :=
  let caps := captions_of bulk_captions in
  if decide (media_count = O) then Answered "No media files to schedule."
  else if decide (preset_key = "1_hour") then
    of_loop (fixed_step_loop caps now_utc (hours 1) 0 media_count)
  else if decide (preset_key = "3_hours") then
    of_loop (fixed_step_loop caps now_utc (hours 3) 0 media_count)
  else if decide (preset_key = "6_hours") then
    of_loop (fixed_step_loop caps now_utc (hours 6) 0 media_count)
  else if decide (preset_key = "12_hours") then
    of_loop (fixed_step_loop caps now_utc (hours 12) 0 media_count)
  else if decide (preset_key = "once_daily") then
    of_loop (fixed_step_loop caps (to_utc_naive (replace_hm now_ist 9 0))
               (days 1) 0 media_count)
  else if decide (preset_key = "morning" ∨ preset_key = "evening") then
    match windows !! preset_key with
    | None => Answered "Admin has not configured this window correctly."
    | Some w => window_schedule w now_ist media_count caps
    end
  else Scheduled [].

(** A window policy the handler accepts: both times of day are valid and
    the end lies after the start. *)
Definition valid_window (w : window) : Prop :=
  valid_hm (start_hour w) (start_minute w) = true ∧
  valid_hm (end_hour w) (end_minute w) = true ∧
  at_time 0 (start_hour w) (start_minute w) 0 0
    < at_time 0 (end_hour w) (end_minute w) 0 0.


End BulkSchedule.

(** *** Task registry ([TaskTracker], lines 169-231) *)

Module Tasks.

(** The coroutines the bot hands to [create_task]. *)
Inductive coroutine :=
| login_task (user_id : Z)
| search_location_task (user_id : Z)
| timeout_task (user_id message_id : Z)
| process_and_upload (user_id : Z) (is_scheduled : bool) (schedule_id : option Z)
| schedule_bulk_upload_task.

(** An [asyncio.Task] as the tracker observes it: [done] is
    [task.done()]; [cancelling] records that [task.cancel()] was called
    on it while it was not done.  A cancelled task keeps running until
    its next suspension point, so [cancelling] does not imply [done]. *)
Record task := Task {
  coro : coroutine;
  done : bool;
  cancelling : bool
}.

(** A [TaskTracker] together with the task objects created so far; a
    task is named by its position in [objects]. *)
Record tracker := Tracker {
  loop : bool;                                  (* [self.loop is not None] *)
  tasks : gset nat;                             (* [self._tasks] *)
  user_specific_tasks : gmap Z (gmap string nat);
  objects : list task
}.

(** [TaskTracker()]. *)
Definition init : tracker := Tracker false ∅ ∅ [].

(** [d[user_id][task_name]], when both keys are present. *)
Definition lookup2 (d : gmap Z (gmap string nat)) (user_id : Z)
    (task_name : string) : option nat :=
  inner ← d !! user_id; inner !! task_name.

Definition registered (st : tracker) (user_id : Z) (task_name : string)
  : option nat :=
  lookup2 (user_specific_tasks st) user_id task_name.

Definition is_done (st : tracker) (t : nat) : bool :=
  match objects st !! t with
  | Some o => done o
  | None => false
  end.

Definition is_cancelling (st : tracker) (t : nat) : bool :=
  match objects st !! t with
  | Some o => cancelling o
  | None => false
  end.

(** [task.cancel()]: a request; it does nothing on a finished task. *)
Definition cancel (objs : list task) (t : nat) : list task :=
  match objs !! t with
  | Some o => if done o then objs else <[t := Task (coro o) false true]> objs
  | None => objs
  end.

(** [cancel_user_task] (lines 203-210). *)
Definition cancel_user_task (st : tracker) (user_id : Z) (task_name : string)
  : tracker :=
  match user_specific_tasks st !! user_id with
  | None => st
  | Some inner =>
      match inner !! task_name with
      | None => st
      | Some task_to_cancel =>
          let inner' := delete task_name inner in
          let objs :=
            if is_done st task_to_cancel then objects st
            else cancel (objects st) task_to_cancel in
          let reg :=
            if decide (inner' = ∅) then delete user_id (user_specific_tasks st)
            else <[user_id := inner']> (user_specific_tasks st) in
          Tracker (loop st) (tasks st) reg objs
      end
  end.

(** Python truthiness of [user_id and task_name]: both given, the id
    non-zero and the name non-empty. *)
Definition keyed (user_id : option Z) (task_name : option string)
  : option (Z * string) :=
  match user_id, task_name with
  | Some u, Some n =>
      if decide (u ≠ 0 ∧ n ≠ EmptyString) then Some (u, n) else None
  | _, _ => None
  end.

(** [create_task] (lines 176-194).  [running_loop] tells whether
    [asyncio.get_running_loop()] succeeds; it is consulted only while
    [self.loop] is unset.  The result is the new tracker and the value
    returned: the new task, or [None] when no loop is available. *)
Definition create_task (st : tracker) (c : coroutine)
    (user_id : option Z) (task_name : option string) (running_loop : bool)
  : tracker * option nat :=
  if negb (loop st) && negb running_loop then (st, None)
  else
    let st1 :=
      match keyed user_id task_name with
      | Some (u, n) => cancel_user_task st u n
      | None => st
      end in
    let t := length (objects st1) in
    let objs := objects st1 ++ [Task c false false] in
    let reg :=
      match keyed user_id task_name with
      | Some (u, n) =>
          <[u := <[n := t]> (default ∅ (user_specific_tasks st1 !! u))]>
            (user_specific_tasks st1)
      | None => user_specific_tasks st1
      end in
    (Tracker true ({[t]} ∪ tasks st1) reg objs, Some t).

(** The synchronous part of [cancel_all_user_tasks] (lines 212-219): the
    user's entry is popped and every unfinished task in it is cancelled.
    The handler then awaits those tasks. *)
Definition cancel_all_user_tasks (st : tracker) (user_id : Z) : tracker :=
  match user_specific_tasks st !! user_id with
  | None => st
  | Some user_tasks =>
      Tracker (loop st) (tasks st) (delete user_id (user_specific_tasks st))
        (foldr (λ t objs, cancel objs t) (objects st)
               (snd <$> map_to_list user_tasks))
  end.

(** The synchronous part of [cancel_and_wait_all] (lines 221-230). *)
Definition cancel_and_wait_all (st : tracker) : tracker :=
  Tracker (loop st) (tasks st) (user_specific_tasks st)
    (foldr (λ t objs, cancel objs t) (objects st) (elements (tasks st))).

(** A task reaches its end: [task.done()] becomes true and the done
    callback [self._tasks.discard] runs.  The per-user registry is not
    touched. *)
Definition finish (st : tracker) (t : nat) : tracker :=
  match objects st !! t with
  | None => st
  | Some o =>
      Tracker (loop st) (tasks st ∖ {[t]}) (user_specific_tasks st)
        (<[t := Task (coro o) true (cancelling o)]> (objects st))
  end.

(** What can happen to a tracker. *)
Inductive event :=
| Spawn (c : coroutine) (user_id : option Z) (task_name : option string)
        (running_loop : bool)
| Cancel (user_id : Z) (task_name : string)
| CancelAll (user_id : Z)
| Drain
| Finish (t : nat)
| SetLoop.                  (* [task_tracker.loop = ...] in [start_bot] *)

Definition step (st : tracker) (e : event) : tracker :=
  match e with
  | SetLoop => Tracker true (tasks st) (user_specific_tasks st) (objects st)
  | Spawn c u n r => fst (create_task st c u n r)
  | Cancel u n => cancel_user_task st u n
  | CancelAll u => cancel_all_user_tasks st u
  | Drain => cancel_and_wait_all st
  | Finish t => finish st t
  end.

(** The trackers that arise from [TaskTracker()]. *)
Inductive reachable : tracker → Prop :=
| reachable_init : reachable init
| reachable_step st e : reachable st → reachable (step st e).

(** A task is settled once it is done or has been asked to stop. *)
Definition settled (st : tracker) (t : nat) : Prop :=
  is_done st t = true ∨ is_cancelling st t = true.

(** How the task objects of two trackers relate when the second arises
    from the first: no object disappears, [done] and [cancelling] only
    ever switch on. *)
Definition objects_grow (objs objs' : list task) : Prop :=
  ∀ t o, objs !! t = Some o →
    ∃ o', objs' !! t = Some o'
          ∧ (done o = true → done o' = true)
          ∧ (cancelling o = true → cancelling o' = true).

(** The registry of a tracker is well formed: registered tasks exist,
    no task is registered under two keys, keys are truthy, and a
    non-empty registry means the loop is known. *)
Record well_formed (st : tracker) : Prop := {
  wf_bound u n t : registered st u n = Some t → (t < length (objects st))%nat;
  wf_inj u n u' n' t :
    registered st u n = Some t → registered st u' n' = Some t → u = u' ∧ n = n';
  wf_key u n t : registered st u n = Some t → u ≠ 0 ∧ n ≠ EmptyString;
  wf_loop u n t : registered st u n = Some t → loop st = true
}.

End Tasks.

(** *** String operations of Python used by the handlers *)

Module Text.

(** A [str] is held as its UTF-8 bytes. *)
Definition bytes (l : list N) : string :=
  foldr (λ n s, String (Ascii.ascii_of_N n) s) EmptyString l.

(** The characters of [str.isspace]: U+0009 to U+000D, U+001C to U+0020,
    U+0085, U+00A0, U+1680, U+2000 to U+200A, U+2028, U+2029, U+202F,
    U+205F and U+3000. *)
Definition whitespace : list string :=
  ((bytes <$> [ [9]; [10]; [11]; [12]; [13]; [28]; [29]; [30]; [31]; [32];
                [194; 133]; [194; 160]; [225; 154; 128] ])
   ++ ((λ k, bytes [226; 128; 128 + N.of_nat k]) <$> seq 0 11)
   ++ (bytes <$> [ [226; 128; 168]; [226; 128; 169]; [226; 128; 175];
                   [226; 129; 159]; [227; 128; 128] ]))%N.

(** [s] without its prefix [p], when it starts with [p]. *)
Fixpoint drop_prefix (p s : string) : option string :=
  match p, s with
  | EmptyString, _ => Some s
  | String a p', String b s' => if Ascii.eqb a b then drop_prefix p' s' else None
  | String _ _, EmptyString => None
  end.

(** [s] without the one of [chars] it starts with, if any. *)
Definition drop_one (chars : list string) (s : string) : option string :=
  foldr (λ c r, match drop_prefix c s with Some s' => Some s' | None => r end)
    None chars.

(** Leading [chars] are dropped one at a time; [fuel] bounds their
    number. *)
Fixpoint lstrip_go (chars : list string) (fuel : nat) (s : string) : string :=
  match fuel with
  | O => s
  | S fuel' =>
      match drop_one chars s with
      | Some s' => lstrip_go chars fuel' s'
      | None => s
      end
  end.

(** [s.lstrip()], [s.rstrip()], [s.strip()]. *)
Definition lstrip (s : string) : string :=
  lstrip_go whitespace (String.length s) s.

Definition rstrip (s : string) : string :=
  String.rev (lstrip_go (String.rev <$> whitespace) (String.length s) (String.rev s)).

Definition strip (s : string) : string := rstrip (lstrip s).

(** [s.split(sep)] for a non-empty separator: [cur] is the piece being
    read, [skip] the number of separator characters still to drop. *)
Fixpoint split_go (sep : string) (skip : nat) (cur : string) (s : string)
  : list string :=
  match s with
  | EmptyString => [cur]
  | String a s' =>
      match skip with
      | S k => split_go sep k cur s'
      | O =>
          if String.prefix sep s
          then cur :: split_go sep (String.length sep - 1) EmptyString s'
          else split_go sep 0 (cur +:+ String a EmptyString) s'
      end
  end.

Definition split (sep s : string) : list string := split_go sep 0 EmptyString s.

(** [len(s)] of a [str] held as its UTF-8 bytes: the number of code
    points, which is the number of bytes that are not continuation bytes
    ([10xxxxxx]). *)
Definition is_continuation (a : Ascii.ascii) : bool :=
  let n := Ascii.nat_of_ascii a in (128 <=? n)%nat && (n <? 192)%nat.

Fixpoint len (s : string) : nat :=
  match s with
  | String a s' => if is_continuation a then len s' else S (len s')
  | EmptyString => O
  end.

(** [s.lower()] on ASCII letters. *)
Definition lower_char (a : Ascii.ascii) : Ascii.ascii :=
  let n := Ascii.nat_of_ascii a in
  if (65 <=? n)%nat && (n <=? 90)%nat then Ascii.ascii_of_nat (n + 32) else a.

Fixpoint lower (s : string) : string :=
  match s with
  | String a s' => String (lower_char a) (lower s')
  | EmptyString => EmptyString
  end.

(** [s.endswith(suffix)]. *)
Definition endswith (s suffix : string) : bool :=
  String.prefix (String.rev suffix) (String.rev s).

(** The text after the first [c], if [c] occurs. *)
Fixpoint after_first (c : Ascii.ascii) (s : string) : option string :=
  match s with
  | String a s' => if Ascii.eqb a c then Some s' else after_first c s'
  | EmptyString => None
  end.

(** The text before the first [c], or all of it. *)
Fixpoint before_first (c : Ascii.ascii) (s : string) : string :=
  match s with
  | String a s' => if Ascii.eqb a c then EmptyString else String a (before_first c s')
  | EmptyString => EmptyString
  end.

(** The characters [.] and [/]. *)
Definition dot : Ascii.ascii := Ascii.ascii_of_nat 46.
Definition slash : Ascii.ascii := Ascii.ascii_of_nat 47.

(** [path.rsplit(".", 1)[0]]. *)
Definition rsplit_dot_head (path : string) : string :=
  match after_first dot (String.rev path) with
  | Some rest => String.rev rest
  | None => path
  end.

(** [os.path.basename(path)]. *)
Definition basename (path : string) : string :=
  String.rev (before_first slash (String.rev path)).

(** [int(s)] for decimal text: surrounding white space and one sign are
    accepted, and so is one underscore between two digits.  [None]
    stands for [ValueError].  The digits are the ASCII ones: which other
    decimal digits [int] accepts depends on the character tables of the
    interpreter, and no text with such a digit is given a value here. *)
Fixpoint digits_value (acc : Z) (after_digit : bool) (s : string) : option Z :=
  match s with
  | EmptyString => if after_digit then Some acc else None
  | String a s' =>
      match Ascii.is_nat a with
      | Some n => digits_value (10 * acc + Z.of_nat n) true s'
      | None =>
          if Ascii.eqb a (Ascii.ascii_of_nat 95) && after_digit
          then digits_value acc false s'
          else None
      end
  end.

Definition parse_int (s : string) : option Z :=
  match strip s with
  | EmptyString => None
  | String a rest =>
      if Ascii.eqb a (Ascii.ascii_of_nat 45) then Z.opp <$> digits_value 0 false rest
      else if Ascii.eqb a (Ascii.ascii_of_nat 43) then digits_value 0 false rest
      else digits_value 0 false (String a rest)
  end.

(** [any(path.lower().endswith(ext) for ext in exts)]. *)
Definition has_extension (exts : list string) (path : string) : bool :=
  existsb (endswith (lower path)) exts.

End Text.

(** *** The bot's world: store, disk, globals, oracle *)

Module World.

(** The exception classes the handlers of [process_and_upload]
    distinguish, each constructor standing for the most specific class
    that matches.  [CancelledError] is not an [Exception]: an
    [except Exception] clause lets it through. *)
Inductive exn :=
| CancelledError
| LoginRequired
| MediaUploadError
| ClientError
| Exception.

#[global] Instance exn_eq_dec : EqDecision exn.
Proof. solve_decision. Defined.

Definition is_exception (e : exn) : bool :=
  match e with
  | CancelledError => false
  | _ => true
  end.

(** [premium.<platform>] of a [db.users] document. *)
Record premium_info := PremiumInfo {
  premium_type : option string;
  premium_until : option Z;
  premium_status : option string
}.

(** A [db.users] document. *)
Record user_doc := UserDoc {
  last_active : option Z;
  premium : gmap string premium_info
}.

(** [watermark_settings] of a [db.settings] document. *)
Record watermark_settings := WatermarkSettings {
  wm_enabled : bool;
  wm_type : string;
  wm_text : string;
  wm_image_id : option string
}.

(** A [db.settings] document of a user, as [get_user_settings] completes
    it with defaults.  [hashtags_in_first_comment] is [None] when the
    document does not set it, in which case the global setting counts. *)
Record user_settings := UserSettings {
  caption_instagram : string;
  hashtags_instagram : string;
  active_ig_username : option string;
  watermark : watermark_settings;
  hashtags_in_first_comment : option bool
}.

(** [file_info], the description of the upload being authored. *)
Record file_info := FileInfo {
  fi_platform : string;
  fi_upload_type : string;
  fi_custom_caption : option string;
  fi_file_id : option string;
  fi_media_file_ids : option (list string);
  fi_original_media_msg_id : option Z;
  fi_usertags : list string;
  fi_has_location : bool;
  fi_downloaded_path : option string
}.

(** The per-user conversation state ([db.user_states]), with the keys
    the modelled flows use; a key that is absent is [None]. *)
Record state_data := StateData {
  action : option string;
  sd_platform : option string;
  sd_upload_type : option string;
  sd_file_info : option file_info;
  media_file_ids : option (list string);
  media_msgs : option (list (Z * Z));
  media_count : option Z;
  media_limit : option Z;
  bulk_captions : option (list (option string))
}.

#[global] Instance file_info_eq_dec : EqDecision file_info.
Proof. solve_decision. Defined.

#[global] Instance state_data_eq_dec : EqDecision state_data.
Proof. solve_decision. Defined.

(** The empty dictionary [{}]. *)
Definition no_state : state_data :=
  StateData None None None None None None None None None.

(** The status of a [db.schedules] document. *)
Inductive status := pending | processing | completed | failed.

#[global] Instance status_eq_dec : EqDecision status.
Proof. solve_decision. Defined.

(** A [db.schedules] document. *)
Record schedule := Schedule {
  sch_user_id : Z;
  sch_platform : string;
  sch_upload_type : string;
  sch_file_id : option string;
  sch_media_msg_id : option Z;
  sch_caption : option string;
  sch_run_at : Z;
  sch_status : status
}.

(** A [db.uploads] document (the fields that identify the upload). *)
Record upload := Upload {
  up_user_id : Z;
  up_platform : string;
  up_upload_type : string
}.

(** The collections of the MongoDB database.  A stored conversation
    state stands for the encrypted blob it decrypts to. *)
Record database := Database {
  users : gmap Z user_doc;
  user_states : gmap Z state_data;
  settings : gmap Z user_settings;
  sessions : gset (Z * string * string);    (* user, platform, username *)
  schedules : gmap Z schedule;
  uploads : list upload
}.

(** The entries of [global_settings] the modelled code reads. *)
Record global_settings := GlobalSettings {
  max_concurrent_uploads : Z;
  max_file_size_mb : Z;
  schedules_paused : bool;
  force_disable_watermark : bool;
  global_hashtags_in_first_comment : bool;
  scheduling_windows : gmap string BulkSchedule.window
}.

(** What the bot sent over the transport. *)
Inductive sent :=
| Reply (to_message : Z) (text : string)
| Edit (message_id : Z) (text : string)
| Send (chat_id : Z) (text : string).

(** The answers of the collaborators.  [faults k] is the exception the
    [k]-th suspension point raises, if any; the other fields are the
    values the collaborators return. *)
Record oracle := Oracle {
  faults : nat → option exn;
  utcnow : Z;
  download_media : nat → option string;   (* path returned at that point *)
  needs_conversion : string → bool;       (* what ffprobe finds *)
  render_ok : string → bool;              (* the watermark renderer succeeds *)
  fetch_watermark_ok : bool               (* the watermark image downloads *)
}.

(** The locals of the running coroutine that its [except] and [finally]
    clauses read back. *)
Record frame := Frame {
  files_to_clean : list (option string);
  downloaded_path : option string
}.

(** Everything a handler can read or change. *)
Record world := Mk {
  env : oracle;
  ticks : nat;                            (* suspension points passed *)
  loop_time : Z;                          (* seconds slept through *)
  locals : frame;
  db : option database;                   (* [None]: degraded mode *)
  globals : global_settings;
  admin_id : Z;
  max_file_size_bytes : Z;
  semaphores : list Z;                    (* value of each [Semaphore] made *)
  upload_semaphore : nat;                 (* the one the global names *)
  user_upload_locks : gset Z;             (* users whose lock is held *)
  files : gset string;                    (* paths present on disk *)
  written : list string;                  (* every path written, latest first *)
  undeletable : gset string;              (* paths [os.remove] fails on *)
  task_tracker : Tasks.tracker;
  next_message_id : Z;
  outbox : list sent;                     (* latest first *)
  partial_outputs : gset string           (* paths a tool leaves behind when it
                                             fails or is no longer waited for *)
}.

(** **** Field updates *)

Definition set_env (o : oracle) (w : world) : world :=
  Mk o (ticks w) (loop_time w) (locals w) (db w) (globals w) (admin_id w)
     (max_file_size_bytes w) (semaphores w) (upload_semaphore w)
     (user_upload_locks w) (files w) (written w) (undeletable w)
     (task_tracker w) (next_message_id w) (outbox w) (partial_outputs w).

Definition set_ticks (n : nat) (w : world) : world :=
  Mk (env w) n (loop_time w) (locals w) (db w) (globals w) (admin_id w)
     (max_file_size_bytes w) (semaphores w) (upload_semaphore w)
     (user_upload_locks w) (files w) (written w) (undeletable w)
     (task_tracker w) (next_message_id w) (outbox w) (partial_outputs w).

Definition set_loop_time (t : Z) (w : world) : world :=
  Mk (env w) (ticks w) t (locals w) (db w) (globals w) (admin_id w)
     (max_file_size_bytes w) (semaphores w) (upload_semaphore w)
     (user_upload_locks w) (files w) (written w) (undeletable w)
     (task_tracker w) (next_message_id w) (outbox w) (partial_outputs w).

Definition set_locals (l : frame) (w : world) : world :=
  Mk (env w) (ticks w) (loop_time w) l (db w) (globals w) (admin_id w)
     (max_file_size_bytes w) (semaphores w) (upload_semaphore w)
     (user_upload_locks w) (files w) (written w) (undeletable w)
     (task_tracker w) (next_message_id w) (outbox w) (partial_outputs w).

Definition set_db (d : option database) (w : world) : world :=
  Mk (env w) (ticks w) (loop_time w) (locals w) d (globals w) (admin_id w)
     (max_file_size_bytes w) (semaphores w) (upload_semaphore w)
     (user_upload_locks w) (files w) (written w) (undeletable w)
     (task_tracker w) (next_message_id w) (outbox w) (partial_outputs w).

Definition set_globals (g : global_settings) (w : world) : world :=
  Mk (env w) (ticks w) (loop_time w) (locals w) (db w) g (admin_id w)
     (max_file_size_bytes w) (semaphores w) (upload_semaphore w)
     (user_upload_locks w) (files w) (written w) (undeletable w)
     (task_tracker w) (next_message_id w) (outbox w) (partial_outputs w).

Definition set_semaphores (l : list Z) (current : nat) (w : world) : world :=
  Mk (env w) (ticks w) (loop_time w) (locals w) (db w) (globals w)
     (admin_id w) (max_file_size_bytes w) l current (user_upload_locks w)
     (files w) (written w) (undeletable w) (task_tracker w)
     (next_message_id w) (outbox w) (partial_outputs w).

Definition set_user_upload_locks (l : gset Z) (w : world) : world :=
  Mk (env w) (ticks w) (loop_time w) (locals w) (db w) (globals w)
     (admin_id w) (max_file_size_bytes w) (semaphores w)
     (upload_semaphore w) l (files w) (written w) (undeletable w)
     (task_tracker w) (next_message_id w) (outbox w) (partial_outputs w).

Definition set_disk (f : gset string) (wr : list string) (w : world) : world :=
  Mk (env w) (ticks w) (loop_time w) (locals w) (db w) (globals w)
     (admin_id w) (max_file_size_bytes w) (semaphores w)
     (upload_semaphore w) (user_upload_locks w) f wr (undeletable w)
     (task_tracker w) (next_message_id w) (outbox w) (partial_outputs w).

Definition set_task_tracker (t : Tasks.tracker) (w : world) : world :=
  Mk (env w) (ticks w) (loop_time w) (locals w) (db w) (globals w)
     (admin_id w) (max_file_size_bytes w) (semaphores w)
     (upload_semaphore w) (user_upload_locks w) (files w) (written w)
     (undeletable w) t (next_message_id w) (outbox w) (partial_outputs w).

Definition set_transport (next : Z) (o : list sent) (w : world) : world :=
  Mk (env w) (ticks w) (loop_time w) (locals w) (db w) (globals w)
     (admin_id w) (max_file_size_bytes w) (semaphores w)
     (upload_semaphore w) (user_upload_locks w) (files w) (written w)
     (undeletable w) (task_tracker w) next o (partial_outputs w).

Definition set_partial_outputs (l : gset string) (w : world) : world :=
  Mk (env w) (ticks w) (loop_time w) (locals w) (db w) (globals w)
     (admin_id w) (max_file_size_bytes w) (semaphores w)
     (upload_semaphore w) (user_upload_locks w) (files w) (written w)
     (undeletable w) (task_tracker w) (next_message_id w) (outbox w) l.

Definition set_users (u : gmap Z user_doc) (d : database) : database :=
  Database u (user_states d) (settings d) (sessions d) (schedules d) (uploads d).

Definition set_user_states (u : gmap Z state_data) (d : database) : database :=
  Database (users d) u (settings d) (sessions d) (schedules d) (uploads d).

Definition set_schedules (sc : gmap Z schedule) (d : database) : database :=
  Database (users d) (user_states d) (settings d) (sessions d) sc (uploads d).

Definition set_uploads (up : list upload) (d : database) : database :=
  Database (users d) (user_states d) (settings d) (sessions d) (schedules d) up.

Definition set_status (st : status) (s : schedule) : schedule :=
  Schedule (sch_user_id s) (sch_platform s) (sch_upload_type s) (sch_file_id s)
    (sch_media_msg_id s) (sch_caption s) (sch_run_at s) st.

(** **** Coroutines as state-and-exception computations

    A coroutine body is a function from the world to an outcome and a new
    world.  [Blocked] is the outcome of a coroutine that waits for a
    semaphore permit that is not available: it does not go on, and no
    [except] or [finally] clause of it runs. *)

Inductive result (A : Type) :=
| Ok (a : A)
| Raise (e : exn)
| Blocked.
Arguments Ok {A} a.
Arguments Raise {A} e.
Arguments Blocked {A}.

Definition M (A : Type) : Type := world → result A * world.

Definition ret {A} (a : A) : M A := λ w, (Ok a, w).

Definition bind {A B} (m : M A) (f : A → M B) : M B := λ w,
  match m w with
  | (Ok a, w') => f a w'
  | (Raise e, w') => (Raise e, w')
  | (Blocked, w') => (Blocked, w')
  end.

Notation "'let*' x ':=' m 'in' k" := (bind m (λ x, k))
  (at level 10, x binder, m at level 100, k at level 200, only parsing).
Notation "m >> k" := (bind m (λ _, k))
  (at level 100, k at level 200, right associativity, only parsing).

Definition raise {A} (e : exn) : M A := λ w, (Raise e, w).
Definition get : M world := λ w, (Ok w, w).
Definition modify (f : world → world) : M unit := λ w, (Ok tt, f w).

(** [try: body except ...: handler]. *)
Definition try_except {A} (body : M A) (handler : exn → M A) : M A := λ w,
  match body w with
  | (Raise e, w') => handler e w'
  | r => r
  end.

(** [try: body finally: fin].  An exception raised by [fin] replaces the
    outcome of [body]. *)
Definition try_finally {A} (body : M A) (fin : M unit) : M A := λ w,
  match body w with
  | (Blocked, w') => (Blocked, w')
  | (r, w') =>
      match fin w' with
      | (Ok _, w'') => (r, w'')
      | (Raise e, w'') => (Raise e, w'')
      | (Blocked, w'') => (Blocked, w'')
      end
  end.

(** A suspension point ([await]): the oracle may raise there. *)
Definition await : M unit := λ w,
  let w' := set_ticks (S (ticks w)) w in
  match faults (env w) (ticks w) with
  | Some e => (Raise e, w')
  | None => (Ok tt, w')
  end.

(** A suspension point inside [try: ... except Exception: log], as in
    [safe_edit_message]: only a cancellation gets out.  The result tells
    whether the call went through. *)
Definition await_safe : M bool := λ w,
  let w' := set_ticks (S (ticks w)) w in
  match faults (env w) (ticks w) with
  | Some CancelledError => (Raise CancelledError, w')
  | Some _ => (Ok false, w')
  | None => (Ok true, w')
  end.

(** **** Persistence helpers (lines 616-756) *)

Definition is_admin (w : world) (user_id : Z) : bool :=
  bool_decide (user_id = admin_id w).

(** An attribute access on [db]; [db.x] on [None] raises. *)
Definition the_db : M database := λ w,
  match db w with
  | Some d => (Ok d, w)
  | None => (Raise Exception, w)
  end.

Definition modify_db (f : database → database) : M unit :=
  modify (λ w, set_db (f <$> db w) w).

(** [_get_user_data]: the [db.users] document, if there is one.  In
    degraded mode a dummy document without premium entries is returned. *)
Definition _get_user_data (user_id : Z) : M (option user_doc) :=
  let* w := get in
  match db w with
  | None => ret (Some (UserDoc None ∅))
  | Some _ => await >> let* d := the_db in ret (users d !! user_id)
  end.

(** [_save_user_data(user_id, {"last_active": datetime.utcnow()})]. *)
Definition touch_last_active (user_id : Z) : M unit :=
  let* w := get in
  match db w with
  | None => ret tt
  | Some _ =>
      await >>
      modify_db (λ d,
        let doc := default (UserDoc None ∅) (users d !! user_id) in
        set_users (<[user_id := UserDoc (Some (utcnow (env w))) (premium doc)]> (users d)) d)
  end.

Definition _get_user_state (user_id : Z) : M state_data :=
  let* w := get in
  match db w with
  | None => ret no_state
  | Some _ => await >> let* d := the_db in ret (default no_state (user_states d !! user_id))
  end.

Definition _save_user_state (user_id : Z) (sd : state_data) : M unit :=
  let* w := get in
  match db w with
  | None => ret tt
  | Some _ =>
      await >> modify_db (λ d, set_user_states (<[user_id := sd]> (user_states d)) d)
  end.

Definition _clear_user_state (user_id : Z) : M unit :=
  let* w := get in
  match db w with
  | None => ret tt
  | Some _ =>
      await >> modify_db (λ d, set_user_states (delete user_id (user_states d)) d)
  end.

(** Python truthiness of an optional string. *)
Definition truthy (s : option string) : bool :=
  match s with
  | Some s => negb (bool_decide (s = EmptyString))
  | None => false
  end.

(** [not platform_premium]: the entry is missing or an empty dictionary. *)
Definition premium_empty (p : premium_info) : bool :=
  match premium_type p, premium_until p, premium_status p with
  | None, None, None => true
  | _, _, _ => false
  end.

Definition mark_expired (platform : string) (doc : user_doc) : user_doc :=
  UserDoc (last_active doc)
    (<[platform :=
         let p := default (PremiumInfo None None None) (premium doc !! platform) in
         PremiumInfo (premium_type p) (premium_until p) (Some "expired")]>
       (premium doc)).

(** [is_premium_for_platform] (lines 708-741). *)
Definition is_premium_for_platform (user_id : Z) (platform : string) : M bool :=
  let* w := get in
  if is_admin w user_id then ret true
  else match db w with
  | None => ret false
  | Some _ =>
      let* user := _get_user_data user_id in
      match user with
      | None => ret false
      | Some doc =>
          let p := default (PremiumInfo None None None) (premium doc !! platform) in
          if premium_empty p || bool_decide (premium_status p = Some "expired")
          then ret false
          else if bool_decide (premium_type p = Some "lifetime") then ret true
          else match premium_until p with
          | Some until =>
              if utcnow (env w) <? until then ret true
              else if truthy (premium_type p) then
                await >>
                modify_db (λ d, set_users (alter (mark_expired platform) user_id (users d)) d) >>
                ret false
              else ret false
          | None => ret false
          end
      end
  end.

(** [get_user_premium_type] (lines 744-756). *)
Definition get_user_premium_type (user_id : Z) : M string :=
  let* w := get in
  if is_admin w user_id then ret "admin"
  else
    let* user := _get_user_data user_id in
    match user with
    | None => ret "free"
    | Some doc =>
        let* is_ig_premium := is_premium_for_platform user_id "instagram" in
        if is_ig_premium
        then
          let info := default (PremiumInfo None None None) (premium doc !! "instagram") in
          ret (default "premium"%string (premium_type info))
        else ret "free"
    end.

(** [get_user_settings] (lines 802-823): the stored document, or the
    defaults. *)
Definition default_settings : user_settings :=
  UserSettings "" "" None (WatermarkSettings false "text" "" None) None.

Definition get_user_settings (user_id : Z) : M user_settings :=
  let* w := get in
  match db w with
  | None => ret default_settings
  | Some _ => await >> let* d := the_db in ret (default default_settings (settings d !! user_id))
  end.

(** [load_platform_session_data]: whether a session is stored. *)
Definition load_platform_session_data (user_id : Z) (platform username : string)
  : M bool :=
  let* w := get in
  match db w with
  | None => ret false
  | Some _ =>
      await >> let* d := the_db in
      ret (bool_decide ((user_id, platform, username) ∈ sessions d))
  end.

(** The decision [is_premium_for_platform] takes on a premium entry. *)
Definition premium_active (now : Z) (p : premium_info) : bool :=
  if premium_empty p || bool_decide (premium_status p = Some "expired") then false
  else if bool_decide (premium_type p = Some "lifetime") then true
  else match premium_until p with
       | Some until => now <? until
       | None => false
       end.

(** Whether the user counts as premium on the platform in this world. *)
Definition premium_view (w : world) (user_id : Z) (platform : string) : bool :=
  is_admin w user_id
  || match db w with
     | None => false
     | Some d =>
         match users d !! user_id with
         | None => false
         | Some doc =>
             premium_active (utcnow (env w))
               (default (PremiumInfo None None None) (premium doc !! platform))
         end
     end.

(** The conversation state [_get_user_state] finds for a user. *)
Definition stored_state (w : world) (user_id : Z) : state_data :=
  default no_state (db w ≫= λ d, user_states d !! user_id).

(** No suspension point raises. *)
Definition no_faults (w : world) : Prop := ∀ k, faults (env w) k = None.

(** [triple P m Q]: from a world satisfying [P], the coroutine body [m]
    ends in an outcome and a world related by [Q]. *)
Definition triple {A} (P : world → Prop) (m : M A)
    (Q : result A → world → Prop) : Prop :=
  ∀ w, P w → Q (m w).1 (m w).2.

(** [m] maintains [I] whatever its outcome. *)
Definition maintains {A} (I : world → Prop) (m : M A) : Prop :=
  triple I m (λ _ w, I w).

(** **** Transport *)

Definition push_sent (m : sent) : M unit :=
  modify (λ w, set_transport (next_message_id w) (m :: outbox w) w).

(** [await msg.reply(text)]: the result is the id of the new message. *)
Definition reply (to_message : Z) (text : string) : M Z :=
  await >>
  let* w := get in
  modify (set_transport (next_message_id w + 1) (Reply to_message text :: outbox w)) >>
  ret (next_message_id w).

(** [await app.send_message(chat_id, text)]. *)
Definition send_message (chat_id : Z) (text : string) : M Z :=
  await >>
  let* w := get in
  modify (set_transport (next_message_id w + 1) (Send chat_id text :: outbox w)) >>
  ret (next_message_id w).

(** [await app.edit_message_text(chat_id, message_id, text)]. *)
Definition edit_message_text (message_id : Z) (text : string) : M unit :=
  await >> push_sent (Edit message_id text).

(** [safe_edit_message] (lines 826-842): nothing is tried without a
    message; a failure of the edit is logged and dropped.  The shortcut
    taken when the message already shows [text] is not modelled. *)
Definition safe_edit_message (message : option Z) (text : string) : M unit :=
  match message with
  | None => ret tt
  | Some id =>
      let* went_through := await_safe in
      if went_through then push_sent (Edit id text) else ret tt
  end.

(** **** Disk *)

(** A collaborator leaves a file at [path]. *)
Definition write_file (path : string) : M unit :=
  modify (λ w, set_disk ({[path]} ∪ files w) (path :: written w) w).

(** What stays of [paths], the files a tool writes, when the tool fails
    half way or goes on in its worker thread after the coroutine that
    waited for it has been cancelled: the ones [partial_outputs] names. *)
Fixpoint leave_behind (paths : list string) : M unit :=
  match paths with
  | [] => ret tt
  | path :: rest =>
      let* w := get in
      (if bool_decide (path ∈ partial_outputs w) then write_file path else ret tt) >>
      leave_behind rest
  end.

(** [await asyncio.to_thread(tool, ...)] for a tool that writes [paths].
    When the wait ends with an exception the tool has failed, or the
    coroutine was cancelled and the thread is on its own; the caller
    gets no result either way. *)
Definition to_thread {A} (paths : list string) (tool : M A) : M A :=
  try_except await (λ e, leave_behind paths >> raise e) >> tool.

(** [cleanup_temp_files] (lines 929-935). *)
Fixpoint cleanup_temp_files (files_to_delete : list (option string)) (w : world)
  : world :=
  match files_to_delete with
  | [] => w
  | file_path :: rest =>
      let w' :=
        match file_path with
        | Some p =>
            if truthy file_path && bool_decide (p ∈ files w)
            then if bool_decide (p ∈ undeletable w) then w
                 else set_disk (files w ∖ {[p]}) (written w) w
            else w
        | None => w
        end in
      cleanup_temp_files rest w'
  end.

(** **** The upload semaphore *)

Definition semaphore_value (w : world) (i : nat) : Z :=
  default 0 (semaphores w !! i).

(** [await sem.acquire()] on semaphore object [i]: a free permit is taken
    at once; otherwise the coroutine waits, and the wait can only end
    here by cancellation. *)
Definition acquire (i : nat) : M unit := λ w,
  if 0 <? semaphore_value w i
  then (Ok tt, set_semaphores (<[i := semaphore_value w i - 1]> (semaphores w))
                 (upload_semaphore w) w)
  else match faults (env w) (ticks w) with
       | Some CancelledError => (Raise CancelledError, set_ticks (S (ticks w)) w)
       | _ => (Blocked, w)
       end.

(** [sem.release()]. *)
Definition release (i : nat) : M unit :=
  modify (λ w, set_semaphores (<[i := semaphore_value w i + 1]> (semaphores w))
                 (upload_semaphore w) w).

(** [async with upload_semaphore: body].  The global is read once, on
    entry; the permit goes back to that same object. *)
Definition with_upload_semaphore {A} (body : M A) : M A :=
  let* w := get in
  let i := upload_semaphore w in
  acquire i >> try_finally body (release i).

(** [_update_global_setting("max_concurrent_uploads", new_limit)]
    followed by [upload_semaphore = asyncio.Semaphore(new_limit)]
    (lines 1933-1935). *)
Definition set_max_uploads (new_limit : Z) : M unit :=
  modify (λ w,
    let g := globals w in
    set_globals (GlobalSettings new_limit (max_file_size_mb g) (schedules_paused g)
                   (force_disable_watermark g) (global_hashtags_in_first_comment g)
                   (scheduling_windows g)) w) >>
  let* w := get in
  (match db w with
   | None => ret tt
   | Some _ => await
   end) >>
  modify (λ w, set_semaphores (semaphores w ++ [new_limit]) (length (semaphores w)) w).

(** [start_bot], lines 3675-3676: the first semaphore. *)
Definition start_semaphore (w : world) : world :=
  set_semaphores [max_concurrent_uploads (globals w)] 0 w.

(** [DEFAULT_GLOBAL_SETTINGS] (lines 116-150). *)
Definition default_global_settings : global_settings :=
  GlobalSettings 15 250 false false true
    {[ "morning" := BulkSchedule.Window 6 0 9 0;
       "evening" := BulkSchedule.Window 18 0 21 0 ]}.

Definition empty_database : database := Database ∅ ∅ ∅ ∅ ∅ [].

(** An oracle under which no suspension point raises, downloads land at
    [path] and the renderers succeed. *)
Definition calm (now_utc : Z) (path : option string) : oracle :=
  Oracle (λ _, None) now_utc (λ _, path) (λ _, false) (λ _, true) true.

(** The world [start_bot] leaves (lines 3623-3698): settings loaded, the
    semaphore and the size limit derived from them, the tracker holding
    the polling task. *)
Definition boot (o : oracle) (admin : Z) (d : option database)
    (g : global_settings) : world :=
  let tr := Tasks.step (Tasks.step Tasks.init Tasks.SetLoop)
              (Tasks.Spawn Tasks.schedule_bulk_upload_task None
                 (Some "bulk_scheduler") true) in
  start_semaphore
    (Mk o 0 0 (Frame [] None) d g admin (max_file_size_mb g * 1024 * 1024)
        [] 0 ∅ ∅ [] ∅ tr 1 [] ∅).


End World.

(** *** Runs competing for the upload semaphore *)

Module Gate.
Import World.

(** The process as the semaphore sees it: the world, and for each
    pipeline run that is inside [async with upload_semaphore] the
    semaphore object it entered with. *)
Record gate := Gate {
  gw : world;
  holding : gmap nat nat
}.

Inductive event :=
| Enter (run : nat)            (* a run reaches [async with upload_semaphore] *)
| Leave (run : nat)            (* a run leaves the block *)
| Reload (new_limit : Z).      (* the admin sends a new limit (lines 1928-1937) *)

Definition step (g : gate) (e : event) : gate :=
  match e with
  | Enter r =>
      match holding g !! r with
      | Some _ => g
      | None =>
          let i := upload_semaphore (gw g) in
          match acquire i (gw g) with
          | (Ok _, w') => Gate w' (<[r := i]> (holding g))
          | (_, w') => Gate w' (holding g)
          end
      end
  | Leave r =>
      match holding g !! r with
      | Some i => Gate (release i (gw g)).2 (delete r (holding g))
      | None => g
      end
  | Reload new_limit =>
      if new_limit <=? 0 then g
      else Gate (set_max_uploads new_limit (gw g)).2 (holding g)
  end.

(** The process right after [start_bot] created the semaphore. *)
Definition start (w : world) : gate := Gate (start_semaphore w) ∅.

(** The number of runs that hold a permit. *)
Definition permits_held (g : gate) : Z := Z.of_nat (size (holding g)).

(** The number of runs that hold a permit of semaphore object [i]. *)
Definition permits_held_on (g : gate) (i : nat) : Z :=
  Z.of_nat (size (filter (λ kv, kv.2 = i) (holding g))).

Definition is_reload (e : event) : bool :=
  match e with
  | Reload _ => true
  | _ => false
  end.

(** The books of the first semaphore balance: the permits out and the
    permits left add up to [limit]. *)
Record balanced (limit : Z) (g : gate) : Prop := {
  bal_object : upload_semaphore (gw g) = 0%nat;
  bal_left : ∃ v, semaphores (gw g) = [v] ∧ 0 <= v ∧ permits_held g + v = limit;
  bal_limit : max_concurrent_uploads (globals (gw g)) = limit;
  bal_holding : ∀ r i, holding g !! r = Some i → i = 0%nat
}.

End Gate.

(** *** The schedule polling loop ([schedule_bulk_upload_task], lines 3333-3371) *)

Module Daemon.
Import World.

(** The query [{"run_at": {"$lte": now_utc}, "status": "pending"}]. *)
Definition is_due (now_utc : Z) (s : schedule) : bool :=
  (sch_run_at s <=? now_utc) && bool_decide (sch_status s = pending).

Definition find_due (now_utc : Z) (d : database) : list (Z * schedule) :=
  filter (λ kv, is_due now_utc kv.2 = true) (map_to_list (schedules d)).

(** [update_one({"_id": id}, {"$set": {"status": st}})]: the document with
    that id, whatever its current status. *)
Definition update_status (id : Z) (st : status) (d : database) : database :=
  set_schedules (alter (set_status st) id (schedules d)) d.

(** The body of [for schedule in schedules_list] (lines 3346-3364): the
    status is set to [processing] and the pipeline is spawned.  The result
    is what [create_task] returned. *)
Definition claim_and_dispatch (id : Z) (s : schedule) : M (option nat) :=
  the_db >>
  await >>
  modify_db (update_status id processing) >>
  let* w := get in
  let '(tr, handle) :=
    Tasks.create_task (task_tracker w)
      (Tasks.process_and_upload (sch_user_id s) true (Some id))
      (Some (sch_user_id s)) (Some ("scheduled_upload_" +:+ pretty id))
      true in
  modify (set_task_tracker tr) >>
  ret handle.

Fixpoint dispatch_all (due : list (Z * schedule)) : M unit :=
  match due with
  | [] => ret tt
  | (id, s) :: rest => claim_and_dispatch id s >> dispatch_all rest
  end.

(** The two awaited calls that produce [schedules_list]. *)
Definition fetch_due : M (list (Z * schedule)) :=
  the_db >>
  await >>
  await >>
  let* w := get in
  let* d := the_db in
  ret (find_due (utcnow (env w)) d).

(** One turn of the [while] loop, up to the wait for the next turn. *)
Definition poll_cycle : M unit :=
  let* w := get in
  if schedules_paused (globals w) then ret tt
  else
    try_except
      (let* due := fetch_due in dispatch_all due)
      (λ e, if is_exception e then ret tt else raise e).

(** The coroutine is a scheduled pipeline run for entry [id]. *)
Definition runs_entry (id : Z) (c : Tasks.coroutine) : bool :=
  match c with
  | Tasks.process_and_upload _ true (Some id') => bool_decide (id' = id)
  | _ => false
  end.

(** The number of pipeline tasks created so far for schedule entry [id]. *)
Definition dispatches (w : world) (id : Z) : nat :=
  length (filter (λ c, runs_entry id c = true)
            (Tasks.coro <$> Tasks.objects (task_tracker w))).

Definition status_of (w : world) (id : Z) : option status :=
  d ← db w; sch_status <$> schedules d !! id.

(** A store with one entry, number 1, of user 7, due at 900. *)
Definition sample_entry (st : status) : schedule :=
  Schedule 7 "instagram" "reel" (Some "file-1") (Some 5) None 900 st.

Definition sample_world (st : status) : world :=
  boot (calm 1000 None) 1
    (Some (set_schedules {[ 1 := sample_entry st ]} empty_database))
    default_global_settings.

(** Two worlds with the same store and the same tracker. *)
Definition same_store (w w' : world) : Prop :=
  db w' = db w ∧ task_tracker w' = task_tracker w.

(** An entry that has been dispatched is dispatched once and is no
    longer pending. *)
Definition once (w : world) : Prop :=
  ∀ id, (dispatches w id <= 1)%nat
        ∧ (dispatches w id = 1%nat → status_of w id ≠ Some pending).

(** What happens around one daemon: it polls, with whatever answers the
    collaborators give during that cycle, and pipeline runs record their
    terminal status. *)
Inductive event :=
| Poll (o : oracle)
| Outcome (id : Z) (st : status).

Definition step (w : world) (e : event) : world :=
  match e with
  | Poll o => (poll_cycle (set_env o w)).2
  | Outcome id st =>
      if decide (st = completed ∨ st = failed)
      then set_db (update_status id st <$> db w) w
      else w
  end.

End Daemon.

(** *** The conversation handlers *)

Module Conversation.
Import World.

(** [msg.video], [msg.photo] or [msg.document]. *)
Record media := Media {
  file_id : string;
  file_size : Z
}.

(** An incoming Telegram message. *)
Record message := Message {
  msg_id : Z;
  from_user : Z;
  chat_id : Z;
  text : string;
  video : option media;
  photo : option media;
  document : option media
}.

(** **** Updates of the state dictionary: [{**state_data, key: value}] *)

Definition with_action (a : string) (sd : state_data) : state_data :=
  StateData (Some a) (sd_platform sd) (sd_upload_type sd) (sd_file_info sd)
    (media_file_ids sd) (media_msgs sd) (media_count sd) (media_limit sd)
    (bulk_captions sd).

Definition with_file_info (fi : file_info) (sd : state_data) : state_data :=
  StateData (action sd) (sd_platform sd) (sd_upload_type sd) (Some fi)
    (media_file_ids sd) (media_msgs sd) (media_count sd) (media_limit sd)
    (bulk_captions sd).

Definition with_bulk_captions (caps : list (option string)) (sd : state_data)
  : state_data :=
  StateData (action sd) (sd_platform sd) (sd_upload_type sd) (sd_file_info sd)
    (media_file_ids sd) (media_msgs sd) (media_count sd) (media_limit sd)
    (Some caps).

Definition with_media (ids : list string) (msgs : list (Z * Z)) (count : option Z)
    (sd : state_data) : state_data :=
  StateData (action sd) (sd_platform sd) (sd_upload_type sd) (sd_file_info sd)
    (Some ids) (Some msgs) count (media_limit sd) (bulk_captions sd).

Definition with_custom_caption (c : option string) (fi : file_info) : file_info :=
  FileInfo (fi_platform fi) (fi_upload_type fi) c (fi_file_id fi)
    (fi_media_file_ids fi) (fi_original_media_msg_id fi) (fi_usertags fi)
    (fi_has_location fi) (fi_downloaded_path fi).

Definition with_downloaded_path (p : option string) (fi : file_info) : file_info :=
  FileInfo (fi_platform fi) (fi_upload_type fi) (fi_custom_caption fi) (fi_file_id fi)
    (fi_media_file_ids fi) (fi_original_media_msg_id fi) (fi_usertags fi)
    (fi_has_location fi) p.

(** [{"action": a, "file_info": fi}]. *)
Definition state_of (a : string) (fi : file_info) : state_data :=
  StateData (Some a) None None (Some fi) None None None None None.

(** [not state_data]. *)
Definition is_empty (sd : state_data) : bool := bool_decide (sd = no_state).

(** The conversation is where it was in [w0]: same stored states, same
    disk, same tracker, and every user counts as premium or not as
    before. *)
Definition steady (w0 w : world) : Prop :=
  (user_states <$> db w) = (user_states <$> db w0)
  ∧ files w = files w0
  ∧ task_tracker w = task_tracker w0
  ∧ env w = env w0
  ∧ admin_id w = admin_id w0
  ∧ undeletable w = undeletable w0
  ∧ ∀ u p, premium_view w u p = premium_view w0 u p.

(** The plan type recorded for the user on Instagram, the value
    [get_user_premium_type] reports for a premium user. *)
Definition plan_type (w : world) (user_id : Z) : option string :=
  d ← db w; doc ← users d !! user_id;
  info ← premium doc !! "instagram"; premium_type info.

(** [w'] differs from [w] at most in the suspension counter and in the
    [db.users] collection. *)
Definition touched_users (w w' : world) : Prop :=
  ∃ n us, w' = set_db (set_users us <$> db w) (set_ticks n w).

(** **** The per-user lock ([with_user_lock], lines 938-950) *)

Definition with_user_lock (handler : message → M unit) (msg : message) : M unit :=
  let user_id := from_user msg in
  let* w := get in
  if bool_decide (user_id ∈ user_upload_locks w)
  then
    reply (msg_id msg) "Another Operation Is Already In Progress." >> ret tt
  else
    modify (λ w, set_user_upload_locks ({[user_id]} ∪ user_upload_locks w) w) >>
    try_finally (handler msg)
      (modify (λ w, set_user_upload_locks (user_upload_locks w ∖ {[user_id]}) w)).

(** **** The inactivity timer ([timeout_task], lines 3567-3585) *)

(** [await asyncio.sleep(seconds)]. *)
Definition sleep (seconds : Z) : M unit :=
  await >> modify (λ w, set_loop_time (loop_time w + seconds) w).

Definition timeout_notice : string :=
  "Timeout! The Operation Was Canceled Due To Inactivity.".

Definition timeout_task (user_id message_id : Z) : M unit :=
  sleep 600 >>
  let* state_data := _get_user_state user_id in
  if is_empty state_data then ret tt
  else
    let downloaded_path := sd_file_info state_data ≫= fi_downloaded_path in
    (if truthy downloaded_path
     then modify (cleanup_temp_files [downloaded_path])
     else ret tt) >>
    _clear_user_state user_id >>
    try_except (edit_message_text message_id timeout_notice)
      (λ e, if is_exception e then ret tt else raise e).

(** **** Fetching the media before the options are shown
    ([_deferred_download_and_show_options], lines 3286-3329)

    The progress monitor, a task the tracker does not know, is left
    out. *)

Definition set_downloaded_path (p : option string) : M unit :=
  modify (λ w, set_locals (Frame (files_to_clean (locals w)) p) w).

Definition cleanup_downloaded : M unit :=
  modify (λ w, cleanup_temp_files [downloaded_path (locals w)] w).

Definition _deferred_download_and_show_options (msg : message) (fi : file_info)
  : M unit :=
  let user_id := from_user msg in
  let* is_premium := is_premium_for_platform user_id (fi_platform fi) in
  let* processing_msg := reply (msg_id msg) "Starting Download..." in
  set_downloaded_path (fi_downloaded_path fi) >>
  try_except
    (match fi_file_id fi with
     | None => raise Exception
     | Some _ =>
         let* w := get in
         await >>
         let path := download_media (env w) (ticks w) in
         (match path with
          | Some p => write_file p
          | None => ret tt
          end) >>
         set_downloaded_path path >>
         safe_edit_message (Some processing_msg) "Media Ready. Choose Options Or Upload:" >>
         _save_user_state user_id
           (state_of "waiting_for_upload_options" (with_downloaded_path path fi)) >>
         modify (λ w, set_task_tracker
                        (Tasks.create_task (task_tracker w)
                           (Tasks.timeout_task user_id processing_msg)
                           (Some user_id) (Some "timeout") true).1 w)
     end)
    (λ e,
       match e with
       | CancelledError => cleanup_downloaded
       | _ =>
           safe_edit_message (Some processing_msg) "Download Failed" >>
           cleanup_downloaded >>
           _clear_user_state user_id
       end).

(** **** Text and media handlers

    The handlers are parametric in the flows this development does not
    follow (login, settings, tagging, payment and the other admin
    flows). *)

Section Handlers.

Variable other_text_flows : message → state_data → M unit.
Variable admin_media_flows : message → state_data → M unit.

(** The notice of line 3234, without the limit it quotes. *)
Definition oversize_notice : string := "File Size Exceeds The Limit.".

Definition caption_limit_notice : string :=
  "For Free Accounts, The Caption Limit Is 280 Characters.".

(** [handle_text_input] (lines 1698-1985), inside [with_user_lock]. *)
Definition handle_text_input (msg : message) : M unit :=
  let user_id := from_user msg in
  let* state_data := _get_user_state user_id in
  touch_last_active user_id >>
  if is_empty state_data then
    reply (msg_id msg) "I Don't Understand That Command." >> ret tt
  else if decide (action state_data = Some "waiting_for_caption") then
    match sd_file_info state_data with
    | None => raise Exception
    | Some file_info =>
        let* is_premium := is_premium_for_platform user_id (fi_platform file_info) in
        let caption := text msg in
        if negb is_premium && (280 <? Text.len caption)%nat
        then reply (msg_id msg) caption_limit_notice >> ret tt
        else
          let file_info := with_custom_caption (Some caption) file_info in
          _save_user_state user_id (with_file_info file_info state_data) >>
          _deferred_download_and_show_options msg file_info
    end
  else if decide (action state_data = Some "waiting_for_bulk_single_caption") then
    let caption := text msg in
    let media_count := length (default [] (media_file_ids state_data)) in
    let bulk_captions := replicate media_count (Some caption) in
    _save_user_state user_id
      (with_action "waiting_for_schedule_options"
         (with_bulk_captions bulk_captions state_data)) >>
    reply (msg_id msg) "Caption Set For All Posts. Now, Select A Scheduling Option." >>
    ret tt
  else if decide (action state_data = Some "waiting_for_bulk_individual_captions") then
    let captions := Text.strip <$> Text.split "----" (text msg) in
    let ids := default [] (media_file_ids state_data) in
    if negb (length captions =? length ids)%nat
    then reply (msg_id msg) "Please Send The Same Number Of Captions." >> ret tt
    else
      _save_user_state user_id
        (with_action "waiting_for_schedule_options"
           (with_bulk_captions (Some <$> captions) state_data)) >>
      reply (msg_id msg) "All Captions Received. Now, Select A Scheduling Option." >>
      ret tt
  else if decide (action state_data = Some "waiting_for_max_uploads") then
    let* w := get in
    if negb (is_admin w user_id) then ret tt
    else
      match Text.parse_int (text msg) with
      | None => reply (msg_id msg) "Invalid Input. Please Send A Valid Number." >> ret tt
      | Some new_limit =>
          if new_limit <=? 0
          then reply (msg_id msg) "Limit Must Be A Positive Integer." >> ret tt
          else
            set_max_uploads new_limit >>
            reply (msg_id msg) "Max Concurrent Uploads Set." >>
            _clear_user_state user_id
      end
  else other_text_flows msg state_data.

Definition valid_actions : list string :=
  [ "waiting_for_instagram_reel"; "waiting_for_instagram_post";
    "waiting_for_instagram_story"; "waiting_for_album_media";
    "waiting_for_bulk_media" ].

(** [msg.video or msg.photo or msg.document]. *)
Definition media_of (msg : message) : option media :=
  match video msg, photo msg with
  | Some m, _ => Some m
  | None, Some m => Some m
  | None, None => document msg
  end.

(** [handle_media_upload] (lines 3200-3284), inside [with_user_lock]. *)
Definition handle_media_upload (msg : message) : M unit :=
  let user_id := from_user msg in
  touch_last_active user_id >>
  let* state_data := _get_user_state user_id in
  let* w := get in
  if is_admin w user_id && negb (is_empty state_data)
     && (bool_decide (action state_data = Some "waiting_for_google_play_qr")
         || bool_decide (action state_data = Some "waiting_for_watermark_image"))
     && bool_decide (is_Some (photo msg))
  then admin_media_flows msg state_data
  else
    let act := default "" (action state_data) in
    if negb (bool_decide (act ∈ valid_actions))
    then reply (msg_id msg) "Please Use One Of The Upload Buttons First." >> ret tt
    else
      match media_of msg with
      | None => reply (msg_id msg) "Unsupported Media Type." >> ret tt
      | Some media =>
          let* user_type := get_user_premium_type user_id in
          if (max_file_size_bytes w <? file_size media)
             && negb (bool_decide (user_type = "admin"))
          then
            _clear_user_state user_id >>
            reply (msg_id msg) oversize_notice >> ret tt
          else
            match sd_platform state_data, sd_upload_type state_data with
            | Some platform, Some upload_type =>
                let file_info :=
                  FileInfo platform upload_type None (Some (file_id media)) None
                    (Some (msg_id msg)) [] false None in
                if decide (act = "waiting_for_bulk_media") then
                  let current_count := length (default [] (media_file_ids state_data)) in
                  let limit := default 0 (media_limit state_data) in
                  if limit <=? Z.of_nat current_count
                  then reply (msg_id msg) "You've Reached The Maximum Limit." >> ret tt
                  else if negb (bool_decide (is_Some (video msg)))
                  then reply (msg_id msg) "Bulk Reels Upload Only Accepts Videos." >> ret tt
                  else
                    match media_file_ids state_data, media_msgs state_data,
                          media_count state_data with
                    | Some ids, Some msgs, Some count =>
                        _save_user_state user_id
                          (with_media (ids ++ [file_id media])
                             (msgs ++ [(chat_id msg, msg_id msg)]) (Some (count + 1))
                             state_data) >>
                        reply (msg_id msg) "Received Video. Send More Or Use /done." >>
                        ret tt
                    | _, _, _ => raise Exception
                    end
                else if decide (act = "waiting_for_album_media") then
                  if (10 <=? length (default [] (media_file_ids state_data)))%nat
                  then reply (msg_id msg) "Max 10 Items In An Album." >> ret tt
                  else
                    match media_file_ids state_data, media_msgs state_data with
                    | Some ids, Some msgs =>
                        _save_user_state user_id
                          (with_media (ids ++ [file_id media])
                             (msgs ++ [(chat_id msg, msg_id msg)])
                             (media_count state_data) state_data) >>
                        reply (msg_id msg) "Received File For Your Album." >> ret tt
                    | _, _ => raise Exception
                    end
                else if decide (upload_type = "story") then
                  _save_user_state user_id (state_of "finalizing_upload" file_info) >>
                  _deferred_download_and_show_options msg file_info
                else
                  _save_user_state user_id (state_of "waiting_for_caption" file_info) >>
                  reply (msg_id msg) "Media Received. First, Send Your Title/caption." >>
                  ret tt
            | _, _ => raise Exception
            end
      end.

End Handlers.

(** **** Sample data *)

Fixpoint repeat_char (n : nat) (a : Ascii.ascii) : string :=
  match n with
  | O => EmptyString
  | S n' => String a (repeat_char n' a)
  end.

(** A caption of 281 characters. *)
Definition long_caption : string := repeat_char 281 (Ascii.ascii_of_nat 97).

(** A user whose three-day plan ran out at 500. *)
Definition lapsed_user : user_doc :=
  UserDoc None {[ "instagram" := PremiumInfo (Some "3_days") (Some 500) None ]}.

Definition sample_file_info : file_info :=
  FileInfo "instagram" "reel" None (Some "file-9") None (Some 41) [] false None.

(** User 7, lapsed, in conversation state [sd]; the clock reads 1000 and
    the admin is user 1. *)
Definition sample_world (sd : state_data) : world :=
  boot (calm 1000 (Some "downloads/clip.mp4")) 1
    (Some (Database {[ 7 := lapsed_user ]} {[ 7 := sd ]} ∅ ∅ ∅ []))
    default_global_settings.

Definition bulk_caption_state : state_data :=
  StateData (Some "waiting_for_bulk_single_caption") (Some "instagram")
    (Some "bulk_reel") None (Some ["file-1"; "file-2"]) (Some [(7, 31); (7, 32)])
    (Some 2) (Some 5) None.

(** An album in progress: two items already collected. *)
Definition album_state : state_data :=
  StateData (Some "waiting_for_album_media") (Some "instagram")
    (Some "album") None (Some ["file-1"; "file-2"]) (Some [(7, 31); (7, 32)])
    None None None.

(** A video of 300 MB, over the default limit of 250 MB. *)
Definition oversize_message : message :=
  Message 33 7 7 "" (Some (Media "file-3" (300 * 1024 * 1024))) None None.

Definition no_other_flows (msg : message) (sd : state_data) : M unit := ret tt.

End Conversation.

(** *** The upload pipeline (lines 3399-3565) *)

Module Pipeline.
Import World.

(** The extensions the pipeline and the watermark functions test for. *)
Definition video_extensions : list string := [".mp4"; ".mov"; ".mkv"; ".webm"].

(** [files_to_clean = []] and [files_to_clean.append(path)]. *)
Definition reset_files_to_clean : M unit :=
  modify (λ w, set_locals (Frame [] (downloaded_path (locals w))) w).

Definition record_file (path : option string) : M unit :=
  modify (λ w, set_locals (Frame (files_to_clean (locals w) ++ [path])
                             (downloaded_path (locals w))) w).

(** [update_one({"_id": schedule_id}, {"$set": {"status": st, ...}})],
    run in a thread.  [db.schedules] is evaluated first and fails when
    there is no database. *)
Definition set_schedule_status (id : Z) (st : status) : M unit :=
  the_db >> await >> modify_db (Daemon.update_status id st).

(** **** The transforms (lines 994-1203)

    Both run in a worker thread, and the path of the output reaches the
    caller only when the tool returns. *)

(** [temp_path] of the watermark functions. *)
Definition watermarked_name (file_path : string) : string :=
  if Text.has_extension video_extensions file_path
  then "watermarked_video_" +:+ Text.basename file_path
  else "watermarked_" +:+ Text.basename file_path.

(** The files the renderer writes: [temp_path], and for a video the
    [temp_audiofile] of [write_videofile], which is removed again when
    the video has been written. *)
Definition render_outputs (file_path : string) : list string :=
  if Text.has_extension video_extensions file_path
  then [watermarked_name file_path; "temp-audio.m4a"]
  else [watermarked_name file_path].

(** The second half of [apply_text_watermark] and of
    [apply_image_watermark]: the output is written and its path
    returned; a failure of the renderer is logged and the input path is
    returned, whatever the renderer had written by then.
    [file_path.lower()] is evaluated outside the [try]. *)
Definition render (file_path : option string) : M (option string) :=
  match file_path with
  | None => raise Exception
  | Some p =>
      let* w := get in
      if render_ok (env w) p
      then write_file (watermarked_name p) >> ret (Some (watermarked_name p))
      else leave_behind (render_outputs p) >> ret file_path
  end.

Definition apply_text_watermark (file_path : option string) (s : user_settings)
  : M (option string) :=
  if bool_decide (wm_text (watermark s) = EmptyString) then ret file_path
  else render file_path.

(** [temp_watermark_path]: where the watermark image is kept. *)
Definition watermark_cache (image_id : string) : string :=
  "temp_watermark_" +:+ image_id +:+ ".png".

(** [apply_image_watermark] (lines 1119-1203): the watermark image is
    downloaded unless a file of that name is already there. *)
Definition apply_image_watermark (file_path : option string) (s : user_settings)
  : M (option string) :=
  match wm_image_id (watermark s) with
  | None => ret file_path
  | Some image_id =>
      if bool_decide (image_id = EmptyString) then ret file_path
      else
        let temp_watermark_path := watermark_cache image_id in
        let* w := get in
        let* have_image :=
          if bool_decide (temp_watermark_path ∈ files w) then ret true
          else if fetch_watermark_ok (env w)
          then write_file temp_watermark_path >> ret true
          else leave_behind [temp_watermark_path] >> ret false in
        if have_image then render file_path else ret file_path
  end.

(** [apply_watermark] (lines 1025-1038). *)
Definition apply_watermark (file_path : option string) (s : user_settings)
  : M (option string) :=
  let* w := get in
  if negb (wm_enabled (watermark s)) || force_disable_watermark (globals w)
  then ret file_path
  else if bool_decide (wm_type (watermark s) = "text")
  then apply_text_watermark file_path s
  else if bool_decide (wm_type (watermark s) = "image")
  then apply_image_watermark file_path s
  else ret file_path.

(** The files a call of [apply_watermark] writes. *)
Definition watermark_outputs (file_path : option string) (s : user_settings)
  : list string :=
  match file_path with
  | None => []
  | Some p =>
      if bool_decide (wm_type (watermark s) = "text") then
        if bool_decide (wm_text (watermark s) = EmptyString) then []
        else render_outputs p
      else if bool_decide (wm_type (watermark s) = "image") then
        match wm_image_id (watermark s) with
        | None => []
        | Some image_id =>
            if bool_decide (image_id = EmptyString) then []
            else watermark_cache image_id :: render_outputs p
        end
      else []
  end.

(** [path.rsplit(".", 1)[0] + "_fixed.mp4"]. *)
Definition fixed_name (path : string) : string :=
  Text.rsplit_dot_head path +:+ "_fixed.mp4".

(** **** The steps of the [try] block *)

(** Lines 3444-3457: the active account, its session, the check of the
    session.  Any failure of the check becomes [LoginRequired]. *)
Definition open_session (user_id : Z) (s : user_settings) : M unit :=
  if negb (truthy (active_ig_username s)) then raise LoginRequired
  else
    let* session :=
      load_platform_session_data user_id "instagram"
        (default "" (active_ig_username s)) in
    if negb session then raise LoginRequired
    else
      try_except await
        (λ e, if is_exception e then raise LoginRequired else raise e).

(** Lines 3459-3466: one lookup per tag; a lookup that fails is skipped. *)
Fixpoint find_usertags (names : list string) : M unit :=
  match names with
  | [] => ret tt
  | _ :: rest => await_safe >> find_usertags rest
  end.

(** [file_info.get('media_file_ids') or [file_info.get('file_id')]]. *)
Definition media_ids (fi : file_info) : list (option string) :=
  match fi_media_file_ids fi with
  | Some (id :: ids) => Some <$> (id :: ids)
  | _ => [fi_file_id fi]
  end.

(** [await app.download_media(file_id)]. *)
Definition fetch : M (option string) :=
  let* w := get in
  await >>
  let path := download_media (env w) (ticks w) in
  (match path with
   | Some p => write_file p
   | None => ret tt
   end) >>
  ret path.

(** The first loop (lines 3476-3480). *)
Fixpoint download_all (ids : list (option string)) : M (list (option string)) :=
  match ids with
  | [] => ret []
  | file_id :: rest =>
      if negb (truthy file_id) then download_all rest
      else
        let* path := fetch in
        record_file path >>
        let* paths := download_all rest in
        ret (path :: paths)
  end.

(** The body of the second loop (lines 3483-3501), for one path.  The
    output of a tool is put on [files_to_clean] after the [await] of the
    tool has returned, so not when that [await] raises. *)
Definition transform (processing_msg : Z) (upload_type : string)
    (s : user_settings) (path : option string) : M (option string) :=
  let* upload_path :=
    if bool_decide (upload_type ∈ ["reel"; "story"; "album"]) then
      match path with
      | None => raise Exception
      | Some p =>
          if Text.has_extension video_extensions p then
            let* w := get in
            await >>
            if needs_conversion (env w) p then
              safe_edit_message (Some processing_msg)
                "Processing Video... This May Take A Moment." >>
              let* upload_path :=
                to_thread [fixed_name p]
                  (write_file (fixed_name p) >> ret (Some (fixed_name p))) in
              record_file upload_path >>
              ret upload_path
            else ret path
          else ret path
      end
    else ret path in
  let* w := get in
  if wm_enabled (watermark s) && negb (force_disable_watermark (globals w)) then
    safe_edit_message (Some processing_msg) "Adding Watermark..." >>
    let* watermarked_path :=
      to_thread (watermark_outputs upload_path s) (apply_watermark upload_path s) in
    if bool_decide (watermarked_path = upload_path) then ret upload_path
    else record_file watermarked_path >> ret watermarked_path
  else ret upload_path.

Fixpoint transform_all (processing_msg : Z) (upload_type : string)
    (s : user_settings) (paths : list (option string))
  : M (list (option string)) :=
  match paths with
  | [] => ret []
  | path :: rest =>
      let* upload_path := transform processing_msg upload_type s path in
      let* final_paths := transform_all processing_msg upload_type s rest in
      ret (upload_path :: final_paths)
  end.

(** A call of the platform client on [final_paths[0]]: the index fails
    on an empty list, the client on a missing path. *)
Definition upload_first (final_paths : list (option string)) : M unit :=
  match final_paths with
  | [] => raise Exception
  | None :: _ => await >> raise Exception
  | Some _ :: _ => await
  end.

(** Lines 3505-3522.  The result tells whether there is a [result]. *)
Definition publish (upload_type : string) (final_paths : list (option string))
  : M bool :=
  if bool_decide (upload_type = "reel") then upload_first final_paths >> ret true
  else if bool_decide (upload_type = "post") then upload_first final_paths >> ret true
  else if bool_decide (upload_type = "album") then
    await >>
    (if bool_decide (None ∈ final_paths) then raise Exception else ret true)
  else if bool_decide (upload_type = "story") then
    await >> upload_first final_paths >> ret true
  else ret false.

(** Lines 3430-3434: the hashtags that go to the first comment. *)
Definition first_comment_text (platform : string) (s : user_settings)
    (g : global_settings) : string :=
  let hashtags :=
    if bool_decide (platform = "instagram") then hashtags_instagram s
    else EmptyString in
  let hashtags_in_comment :=
    default (global_hashtags_in_first_comment g) (hashtags_in_first_comment s) in
  if negb (bool_decide (hashtags = EmptyString)) && hashtags_in_comment
  then hashtags else EmptyString.

(** The Instagram block (lines 3439-3526). *)
Definition instagram_upload (processing_msg user_id : Z) (fi : file_info)
    (s : user_settings) (is_premium : bool) (comment : string) : M unit :=
  open_session user_id s >>
  (if is_premium then find_usertags (fi_usertags fi) else ret tt) >>
  let* paths_to_upload := download_all (media_ids fi) in
  let* final_paths :=
    transform_all processing_msg (fi_upload_type fi) s paths_to_upload in
  safe_edit_message (Some processing_msg) "Uploading To Instagram... Please Wait." >>
  let* result := publish (fi_upload_type fi) final_paths in
  if result && negb (bool_decide (comment = EmptyString)) then await else ret tt.

(** Lines 3528-3535: the upload is recorded, and a scheduled run marks
    its entry [completed]. *)
Definition record_outcome (user_id : Z) (fi : file_info) (is_scheduled : bool)
    (schedule_id : option Z) : M unit :=
  let* w := get in
  match db w with
  | None => ret tt
  | Some _ =>
      await >>
      modify_db (λ d,
        set_uploads
          (uploads d ++ [Upload user_id (fi_platform fi) (fi_upload_type fi)]) d) >>
      match is_scheduled, schedule_id with
      | true, Some id => set_schedule_status id completed
      | _, _ => ret tt
      end
  end.

(** [send_log_to_channel] (lines 3608-3620): a failure is logged.  The
    flag that disables the log channel is not modelled. *)
Definition send_log_to_channel : M unit := await_safe >> ret tt.

(** The [try] block (lines 3420-3540). *)
Definition upload_body (processing_msg : Z) (fi : file_info) (user_id : Z)
    (is_scheduled : bool) (schedule_id : option Z) : M unit :=
  let platform := fi_platform fi in
  let* user_settings := get_user_settings user_id in
  let* is_premium := is_premium_for_platform user_id platform in
  let* w := get in
  let comment := first_comment_text platform user_settings (globals w) in
  safe_edit_message (Some processing_msg) "Uploading..." >>
  (if bool_decide (platform = "instagram")
   then instagram_upload processing_msg user_id fi user_settings is_premium comment
   else ret tt) >>
  record_outcome user_id fi is_scheduled schedule_id >>
  safe_edit_message (Some processing_msg) "Uploaded Successfully!" >>
  send_log_to_channel.

Definition failure_notice (e : exn) : string :=
  match e with
  | CancelledError => "Upload Process Cancelled."
  | LoginRequired => "Login Required. Session May Have Expired."
  | MediaUploadError => "Media Upload Failed!"
  | ClientError => "Instagram Client Error. Please Try Again Later."
  | Exception => "Upload Failed"
  end.

(** The five [except] clauses (lines 3542-3560): each edits the progress
    message and logs. *)
Definition on_failure (processing_msg : Z) (e : exn) : M unit :=
  safe_edit_message (Some processing_msg) (failure_notice e).

(** The [finally] clause (lines 3561-3565). *)
Definition finally_clause (user_id : Z) (is_scheduled : bool) : M unit :=
  let* w := get in
  modify (cleanup_temp_files (files_to_clean (locals w))) >>
  if is_scheduled then ret tt else _clear_user_state user_id.

(** Lines 3403-3413: the progress message.  [None] stands for the
    [return] taken when a scheduled run cannot send it. *)
Definition announce (msg : option Z) (user_id : Z) (is_scheduled : bool)
    (schedule_id : option Z) : M (option Z) :=
  match msg with
  | Some m => ret (Some m)
  | None =>
      try_except
        (let* m := send_message user_id "Starting Scheduled Processing..." in
         ret (Some m))
        (λ e,
           if is_exception e then
             match is_scheduled, schedule_id with
             | true, Some id => set_schedule_status id failed
             | _, _ => ret tt
             end >>
             ret None
           else raise e)
  end.

(** What runs while the permit is held. *)
Definition guarded (processing_msg : Z) (fi : file_info) (user_id : Z)
    (is_scheduled : bool) (schedule_id : option Z) : M unit :=
  reset_files_to_clean >>
  try_finally
    (try_except
       (upload_body processing_msg fi user_id is_scheduled schedule_id)
       (on_failure processing_msg))
    (finally_clause user_id is_scheduled).

(** [process_and_upload] (lines 3399-3565).  [msg] is the id of the
    message the interactive flow passes in. *)
Definition process_and_upload (msg : option Z) (fi : file_info) (user_id : Z)
    (is_scheduled : bool) (schedule_id : option Z) : M unit :=
  let* processing_msg := announce msg user_id is_scheduled schedule_id in
  match processing_msg with
  | None => ret tt
  | Some m =>
      modify (λ w, set_task_tracker
                     (Tasks.cancel_user_task (task_tracker w) user_id "timeout") w) >>
      with_upload_semaphore (guarded m fi user_id is_scheduled schedule_id)
  end.

(** The [file_info] the scheduler builds from an entry (lines 3349-3357)
    and the run it spawns for it. *)
Definition file_info_of (s : schedule) : file_info :=
  FileInfo (sch_platform s) (sch_upload_type s) (sch_caption s) (sch_file_id s)
    None (sch_media_msg_id s) [] false None.

Definition scheduled_run (id : Z) (s : schedule) : M unit :=
  process_and_upload None (file_info_of s) (sch_user_id s) true (Some id).

(** The paths a run may leave for later runs. *)
Definition is_watermark_cache (p : string) : Prop :=
  ∃ image_id, p = watermark_cache image_id.

(** The names of the files the conversion and the watermark tools
    write. *)
Definition is_tool_output (p : string) : Prop :=
  (∃ path, p = fixed_name path) ∨ (∃ path, p = watermarked_name path)
  ∨ p = "temp-audio.m4a".

(** The files of a tool: watermark images and outputs. *)
Definition tool_files (paths : list string) : Prop :=
  Forall (λ p, is_watermark_cache p ∨ is_tool_output p) paths.

(** The fields of the world the database, the transport and the task
    tracker do not touch. *)
Definition disk_frame (w w' : world) : Prop :=
  env w' = env w ∧ locals w' = locals w ∧ globals w' = globals w
  ∧ semaphores w' = semaphores w ∧ upload_semaphore w' = upload_semaphore w
  ∧ files w' = files w ∧ written w' = written w
  ∧ undeletable w' = undeletable w
  ∧ partial_outputs w' = partial_outputs w.

(** [m] leaves those fields alone and never waits. *)
Definition quiet {A} (m : M A) : Prop :=
  ∀ w, (m w).1 ≠ Blocked ∧ disk_frame w (m w).2.


(** While the permit is held: every file on disk was there at the
    start, is a watermark image, is what a tool that failed or was no
    longer waited for has left, or is on the cleanup list under a name
    [cleanup_temp_files] acts on; the list only grows. *)
Record tidy (w0 : world) (seen : list (option string)) (w : world) : Prop := {
  tidy_env : env w = env w0;
  tidy_undeletable : undeletable w = undeletable w0;
  tidy_semaphores : semaphores w = semaphores w0;
  tidy_upload_semaphore : upload_semaphore w = upload_semaphore w0;
  tidy_partial_outputs : partial_outputs w = partial_outputs w0;
  tidy_seen : seen ⊆ files_to_clean (locals w);
  tidy_files : ∀ p, p ∈ files w →
    p ∈ files w0 ∨ is_watermark_cache p
    ∨ (is_tool_output p ∧ p ∈ partial_outputs w0)
    ∨ (Some p ∈ files_to_clean (locals w) ∧ p ≠ EmptyString)
}.

(** The same once [q] is put on the list. *)
Definition loose (w0 : world) (seen : list (option string)) (q : option string)
    (w : world) : Prop :=
  seen ⊆ files_to_clean (locals w) ∧ tidy w0 seen (record_file q w).2.

(** From [P], [m] ends without waiting: with a value and a world
    related by [R], or raising in a world satisfying [E]. *)
Definition ends {A} (P : world → Prop) (m : M A) (R : A → world → Prop)
    (E : world → Prop) : Prop :=
  triple P m (λ r w, match r with
                     | Ok a => R a w
                     | Raise _ => E w
                     | Blocked => False
                     end).

(** User 7 with an account, a session and an image watermark, about to
    upload a reel. *)
Definition sample_settings : user_settings :=
  UserSettings "" "" (Some "acct")
    (WatermarkSettings true "image" "" (Some "wm-1")) None.

Definition sample_file_info : file_info :=
  FileInfo "instagram" "reel" None (Some "file-9") None (Some 41) [] false None.

Definition sample_world : world :=
  boot (calm 1000 (Some "downloads/clip.mp4")) 1
    (Some (Database ∅ ∅ {[ 7 := sample_settings ]}
             {[ (7, "instagram", "acct") ]} ∅ []))
    default_global_settings.

(** The same user without a watermark, with entry 1 claimed for them. *)
Definition scheduled_world : world :=
  boot (calm 1000 (Some "downloads/clip.mp4")) 1
    (Some (Database ∅ ∅
             {[ 7 := UserSettings "" "" (Some "acct")
                       (WatermarkSettings false "text" "" None) None ]}
             {[ (7, "instagram", "acct") ]}
             {[ 1 := Daemon.sample_entry processing ]} []))
    default_global_settings.

End Pipeline.

(** *** Commands and buttons of the album and bulk flows *)

Module Flows.
Import World Conversation.

(** A callback query: who pressed the button, the message the button
    hangs on and the payload of the button. *)
Record callback_query := CallbackQuery {
  query_from_user : Z;
  query_message : Z;
  data : string
}.

(** [await query.answer(text, show_alert=...)].  The client shows the
    alert; it leaves no message and its text is not recorded. *)
Definition answer (alert : string) : M unit := await.

(** [state_data.get('action') in names]. *)
Definition action_in (names : list string) (sd : state_data) : bool :=
  match action sd with
  | Some a => bool_decide (a ∈ names)
  | None => false
  end.

(** **** [/skip] and [/done] (lines 1414-1474) *)

(** The dictionary [/skip] writes in the bulk flow (lines 1428-1433):
    four keys, the other keys of the state are not carried over. *)
Definition skipped_captions_state (sd : state_data) : state_data :=
  let ids := default [] (media_file_ids sd) in
  StateData (Some "waiting_for_schedule_options") None None None
    (Some ids) (Some (default [] (media_msgs sd))) None None
    (Some (replicate (length ids) None)).

(** The [file_info] [/done] builds for an album (lines 1463-1468).  It
    has no ["file_id"]; its key ["original_msg_id"] is read nowhere. *)
Definition album_file_info (platform : string) (ids : list string) : file_info :=
  FileInfo platform "album" None None (Some ids) None [] false None.

Section Commands.

(** [/skip] on a state that waits for a caption but has no [file_info]:
    no handler writes such a state, and the branch is left open. *)
Variable skip_without_file_info : message → state_data → M unit.

(** [handle_skip_command] (lines 1414-1437), inside [with_user_lock]. *)
Definition handle_skip_command (msg : message) : M unit :=
  let user_id := from_user msg in
  let* state_data := _get_user_state user_id in
  if is_empty state_data
     || negb (action_in ["waiting_for_caption"; "waiting_for_bulk_captions"] state_data)
  then ret tt
  else if bool_decide (action state_data = Some "waiting_for_caption") then
    match sd_file_info state_data with
    | None => skip_without_file_info msg state_data
    | Some file_info =>
        let file_info := with_custom_caption None file_info in
        _save_user_state user_id (state_of "waiting_for_upload_options" file_info) >>
        _deferred_download_and_show_options msg file_info
    end
  else
    _save_user_state user_id (skipped_captions_state state_data) >>
    reply (msg_id msg) "Skipped Captions. Now Choose A Scheduling Option." >>
    ret tt.

End Commands.

(** [handle_done_command] (lines 1442-1474), inside [with_user_lock]. *)
Definition handle_done_command (msg : message) : M unit :=
  let user_id := from_user msg in
  let* state_data := _get_user_state user_id in
  if is_empty state_data
     || negb (action_in ["waiting_for_album_media"; "waiting_for_bulk_media"] state_data)
  then reply (msg_id msg) "There Is No Active Multi-media Upload Process." >> ret tt
  else
    let media_file_ids := default [] (media_file_ids state_data) in
    if bool_decide (media_file_ids = [])
    then reply (msg_id msg) "You Must Send At Least One Media File." >> ret tt
    else
      match sd_upload_type state_data with
      | None => raise Exception
      | Some upload_type =>
          if bool_decide (upload_type = "bulk_reel") then
            _save_user_state user_id
              (with_action "waiting_for_bulk_captions" state_data) >>
            reply (msg_id msg) "Now, How Would You Like To Add Captions?" >>
            ret tt
          else if bool_decide (upload_type = "album") then
            match sd_platform state_data with
            | None => raise Exception
            | Some platform =>
                _save_user_state user_id
                  (state_of "waiting_for_caption"
                     (album_file_info platform media_file_ids)) >>
                reply (msg_id msg) "Album Files Received. Now, Send Your Title/caption." >>
                ret tt
            end
          else ret tt
      end.

(** **** The caption and schedule buttons of the bulk flow *)

(** [bulk_add_single_caption_cb] and [bulk_add_individual_captions_cb]
    (lines 3171-3194) differ in the action they set and in the prompt. *)
Definition bulk_add_captions_cb (next_action prompt : string) (q : callback_query)
  : M unit :=
  let user_id := query_from_user q in
  let* state_data := _get_user_state user_id in
  if is_empty state_data
     || negb (bool_decide (action state_data = Some "waiting_for_bulk_captions"))
  then answer "Error: State lost. Please restart."
  else
    _save_user_state user_id (with_action next_action state_data) >>
    safe_edit_message (Some (query_message q)) prompt.

Definition bulk_add_single_caption_cb : callback_query → M unit :=
  bulk_add_captions_cb "waiting_for_bulk_single_caption"
    "Please Send The Single Caption To Be Used For All Posts.".

Definition bulk_add_individual_captions_cb : callback_query → M unit :=
  bulk_add_captions_cb "waiting_for_bulk_individual_captions"
    "Please Send The Caption For Each Of The Posts, Separated By `----`.".

(** [bulk_schedule_posts_cb] (lines 2120-2127). *)
Definition bulk_schedule_posts_cb (q : callback_query) : M unit :=
  let user_id := query_from_user q in
  let* state_data := _get_user_state user_id in
  if is_empty state_data
     || negb (bool_decide (action state_data = Some "waiting_for_schedule_options"))
  then answer "Error: State lost. Please start a new bulk upload."
  else
    safe_edit_message (Some (query_message q))
      "How would you like to schedule your posts?" >>
    _save_user_state user_id (with_action "waiting_for_schedule_preset" state_data).

(** **** Storing a schedule ([save_bulk_schedules], lines 3373-3389) *)

(** The document built for post [i].  A missing key of the state is a
    [KeyError], a list too short an [IndexError]: [None]. *)
Definition schedule_document (user_id : Z) (sd : state_data) (i : nat)
    (post : BulkSchedule.post) : option schedule :=
  media_msg_info ← media_msgs sd ≫= (.!! i);
  platform ← sd_platform sd;
  upload_type ← sd_upload_type sd;
  file_id ← media_file_ids sd ≫= (.!! i);
  Some (Schedule user_id platform upload_type (Some file_id)
          (Some media_msg_info.2) (BulkSchedule.caption post)
          (BulkSchedule.run_at post) pending).

(** [db.schedules.insert_one(doc)], run in a thread; the store gives the
    document an [_id] no document of the collection has. *)
Definition insert_one (doc : schedule) : M unit :=
  await >>
  modify_db (λ d,
    set_schedules (<[fresh (dom (schedules d)) := doc]> (schedules d)) d).

(** [for i, post in enumerate(scheduled_posts)], from index [i] on. *)
Fixpoint save_posts (user_id : Z) (sd : state_data) (i : nat)
    (posts : list BulkSchedule.post) : M unit :=
  match posts with
  | [] => ret tt
  | post :: rest =>
      match schedule_document user_id sd i post with
      | None => raise Exception
      | Some doc => insert_one doc >> save_posts user_id sd (S i) rest
      end
  end.

Definition save_bulk_schedules (user_id : Z) (sd : state_data)
    (posts : list BulkSchedule.post) : M unit :=
  let* w := get in
  match db w with
  | None => ret tt
  | Some _ => save_posts user_id sd 0 posts
  end.

(** **** [schedule_preset_cb] (lines 2131-2214) *)

(** [query.data.split("schedule_preset_")[-1]]. *)
Definition preset_key (q : callback_query) : string :=
  default "" (last (Text.split "schedule_preset_" (data q))).

(** The handler does not look at the action of the state.  Both clock
    readings are taken from the same instant. *)
Definition schedule_preset_cb (q : callback_query) : M unit :=
  let user_id := query_from_user q in
  let* state_data := _get_user_state user_id in
  let media_count := length (default [] (media_file_ids state_data)) in
  if decide (media_count = O) then answer "No media files to schedule."
  else
    answer "Scheduling..." >>
    let* w := get in
    let now_utc := utcnow (env w) in
    match BulkSchedule.compute_schedule (scheduling_windows (globals w))
            (preset_key q) now_utc (Clock.to_ist now_utc) media_count
            (bulk_captions state_data) with
    | BulkSchedule.Answered alert => answer alert
    | BulkSchedule.IndexError => raise Exception
    | BulkSchedule.ValueError => raise Exception
    | BulkSchedule.Scheduled posts =>
        save_bulk_schedules user_id state_data posts >>
        safe_edit_message (Some (query_message q))
          "Scheduled Posts! They Will Be Uploaded At The Set Times." >>
        _clear_user_state user_id
    end.

(** **** [cancel_upload_cb] and [upload_now_cb] (lines 2087-2116) *)

(** [[t for t in user_tasks.values() if not t.done()]]: the tasks
    [cancel_all_user_tasks] waits for. *)
Definition awaited (st : Tasks.tracker) (user_id : Z) : list nat :=
  match Tasks.user_specific_tasks st !! user_id with
  | None => []
  | Some user_tasks =>
      filter (λ t, Tasks.is_done st t = false) (snd <$> map_to_list user_tasks)
  end.

Section Cancel.

(** What a cancelled task does from the [CancelledError] raised in it to
    its end: its [except] and [finally] clauses (a cancelled
    [process_and_upload] edits its progress message, removes its
    temporary files and clears the state).  It depends on the task and
    on where it stands, and is left open. *)
Variable wind_down : nat → M unit.

(** A task that is waited for runs to its end; its done callback takes
    it out of [_tasks].  With [return_exceptions=True] an exception it
    ends with is a result of the [gather], not raised. *)
Definition run_to_end (t : nat) : M unit := λ w,
  match wind_down t w with
  | (Blocked, w') => (Blocked, w')
  | (_, w') => (Ok tt, set_task_tracker (Tasks.finish (task_tracker w') t) w')
  end.

(** [await asyncio.gather] on the tasks [ts] (line 219): the tasks
    end, here one after the other, before the handler goes on.
    Nothing is waited for, and the handler does not suspend, when there
    is no task. *)
Fixpoint gather (ts : list nat) : M unit :=
  match ts with
  | [] => ret tt
  | t :: rest => run_to_end t >> gather rest
  end.

Definition wait_for (ts : list nat) : M unit :=
  match ts with
  | [] => ret tt
  | _ => gather ts >> await
  end.

(** [await task_tracker.cancel_all_user_tasks(user_id)]: when the user
    has an entry, it is popped, its unfinished tasks are cancelled and
    the handler waits until they have ended. *)
Definition cancel_all_user_tasks (user_id : Z) : M unit :=
  let* w := get in
  match Tasks.user_specific_tasks (task_tracker w) !! user_id with
  | None => ret tt
  | Some _ =>
      modify (λ w, set_task_tracker
                     (Tasks.cancel_all_user_tasks (task_tracker w) user_id) w) >>
      wait_for (awaited (task_tracker w) user_id)
  end.

(** No handler writes ["media_paths"]; [files_to_clean] is the
    [downloaded_path] of the state, when there is a [file_info]. *)
Definition cancel_upload_cb (q : callback_query) : M unit :=
  let user_id := query_from_user q in
  answer "Upload cancelled." >>
  safe_edit_message (Some (query_message q)) "Upload Cancelled" >>
  let* state_data := _get_user_state user_id in
  let files_to_clean :=
    match sd_file_info state_data with
    | Some file_info => [fi_downloaded_path file_info]
    | None => []
    end in
  modify (cleanup_temp_files files_to_clean) >>
  _clear_user_state user_id >>
  cancel_all_user_tasks user_id.

End Cancel.

(** [start_upload_task] (lines 3392-3397). *)
Definition start_upload_task (user_id : Z) : M unit :=
  modify (λ w, set_task_tracker
                 (Tasks.create_task (task_tracker w)
                    (Tasks.process_and_upload user_id false None)
                    (Some user_id) (Some "upload") true).1 w).

Definition upload_now_cb (q : callback_query) : M unit :=
  let user_id := query_from_user q in
  let* state_data := _get_user_state user_id in
  match sd_file_info state_data with
  | None => answer "Error: No upload process found to continue."
  | Some _ =>
      safe_edit_message (Some (query_message q)) "Starting Upload Now..." >>
      _clear_user_state user_id >>
      start_upload_task user_id
  end.

(** **** Invariant of a bulk collection and sample data *)

(** The lists of a state that collects bulk media run in step and stay
    within the limit the state carries. *)
Definition bulk_consistent (sd : state_data) : Prop :=
  ∃ ids msgs limit,
    media_file_ids sd = Some ids ∧ media_msgs sd = Some msgs
    ∧ media_limit sd = Some limit
    ∧ media_count sd = Some (Z.of_nat (length ids))
    ∧ length msgs = length ids
    ∧ Z.of_nat (length ids) <= limit.

(** Two videos collected in bulk mode, captions given, a preset about
    to be chosen. *)
Definition preset_state : state_data :=
  StateData (Some "waiting_for_schedule_preset") (Some "instagram")
    (Some "bulk_reel") None (Some ["file-1"; "file-2"]) (Some [(7, 31); (7, 32)])
    (Some 2) (Some 5) (Some [Some "one"%string; Some "two"%string]).

(** The same collection right after [/done]. *)
Definition captions_state : state_data :=
  StateData (Some "waiting_for_bulk_captions") (Some "instagram")
    (Some "bulk_reel") None (Some ["file-1"; "file-2"]) (Some [(7, 31); (7, 32)])
    (Some 2) (Some 5) None.

(** A bulk collection with one video and room for four more. *)
Definition collecting_state : state_data :=
  StateData (Some "waiting_for_bulk_media") (Some "instagram")
    (Some "bulk_reel") None (Some ["file-1"]) (Some [(7, 31)])
    (Some 1) (Some 5) None.

(** The options step of user 7 with a fetched file. *)
Definition options_state : state_data :=
  state_of "waiting_for_upload_options"
    (with_downloaded_path (Some "downloads/clip.mp4") Conversation.sample_file_info).

(** The options step with the inactivity timer of user 7 armed, as
    [_deferred_download_and_show_options] leaves them, and the fetched
    file on disk. *)
Definition options_world : world :=
  let w := Conversation.sample_world options_state in
  set_disk {[ "downloads/clip.mp4"%string ]} ["downloads/clip.mp4"%string]
    (set_task_tracker
       (Tasks.create_task (task_tracker w) (Tasks.timeout_task 7 50)
          (Some 7) (Some "timeout") true).1 w).

Definition hourly_query : callback_query :=
  CallbackQuery 7 60 "schedule_preset_1_hour".

Definition sample_message (body : string) : message :=
  Message 34 7 7 body None None None.

Definition sample_video : message :=
  Message 35 7 7 "" (Some (Media "file-2" 1024)) None None.

End Flows.

(** ** Part II.  Properties *)

(** Unfolds the clock constants so that [lia] sees plain numbers. *)
Ltac clock_lia :=
  unfold Clock.at_time, Clock.hours, Clock.days, Clock.to_ist,
    Clock.to_utc_naive, Clock.ist_offset, Clock.us_per_day,
    Clock.us_per_hour, Clock.us_per_minute, Clock.us_per_second in *;
  lia.

Section BulkScheduleFacts.
Import Clock BulkSchedule.

Lemma us_per_day_pos : 0 < us_per_day.
Proof. reflexivity. Qed.

Lemma date_of_bounds t : date_of t * us_per_day <= t < date_of t * us_per_day + us_per_day.
Proof.
  unfold date_of. pose proof (Z.div_mod t us_per_day ltac:(discriminate)) as Hdm.
  pose proof (Z.mod_pos_bound t us_per_day us_per_day_pos) as Hb. lia.
Qed.


Lemma time_of_day_bounds h m :
  valid_hm h m = true →
  0 <= h * us_per_hour + m * us_per_minute
  ∧ h * us_per_hour + m * us_per_minute < us_per_day.
Proof.
  unfold valid_hm, us_per_day, us_per_hour, us_per_minute, us_per_second.
  rewrite !andb_true_iff, !Z.leb_le, !Z.ltb_lt. lia.
Qed.

Lemma at_time_hm day h m :
  at_time day h m 0 0 = day * us_per_day + (h * us_per_hour + m * us_per_minute).
Proof. unfold at_time. lia. Qed.




(** Wrapping to the next day's window start moves strictly forward. *)
Lemma wrap_moves_forward h m cur :
  valid_hm h m = true → cur < replace_hm (cur + days 1) h m.
Proof.
  intros Hv. unfold replace_hm. rewrite at_time_hm.
  pose proof (date_of_bounds (cur + days 1)) as Hb.
  pose proof (time_of_day_bounds _ _ Hv). unfold days in *. lia.
Qed.

Lemma round_half_even_div_nonneg a b :
  0 <= a → 0 < b → 0 <= round_half_even_div a b.
Proof.
  intros Ha Hb. unfold round_half_even_div.
  pose proof (Z.div_pos a b Ha Hb).
  repeat case_match; lia.
Qed.

(** *** The window loop *)

Section WindowLoop.
Variables (caps : list (option string)) (w : window) (now interval : Z).
Hypothesis Hw : valid_window w.
Hypothesis Hinterval : 0 <= interval.

Let start_today := replace_hm now (start_hour w) (start_minute w).
Let end_today := replace_hm now (end_hour w) (end_minute w).

(** The instant a loop iteration places: the cursor, or the next
    day's window start when the cursor has passed today's end. *)
Let placed (cur : Z) : Z :=
  if end_today <? cur
  then replace_hm (cur + days 1) (start_hour w) (start_minute w)
  else cur.

Lemma placed_ge cur : cur <= placed cur.
Proof.
  unfold placed. case_match; [|lia].
  destruct Hw as (Hs & _). pose proof (wrap_moves_forward _ _ cur Hs). lia.
Qed.



Lemma window_loop_lower n : ∀ cur i posts,
  window_loop caps w end_today interval cur i n = Some posts →
  Forall (λ p, cur <= to_ist (run_at p)) posts.
Proof.
  induction n as [|n IH]; intros cur i posts; simpl.
  - intros [= <-]. constructor.
  - fold (placed cur). destruct (caps !! i) as [c|]; [|done].
    destruct (window_loop _ _ _ _ _ _ n) as [rest|] eqn:Hrest; [|done].
    intros [= <-]. pose proof (placed_ge cur) as Hge. constructor.
    + simpl. unfold to_ist, to_utc_naive. lia.
    + eapply Forall_impl; [by eapply IH|]. simpl. intros p Hp. lia.
Qed.



End WindowLoop.






End BulkScheduleFacts.

Section TaskFacts.
Import Tasks.

Implicit Types (st : tracker) (d : gmap Z (gmap string nat))
  (objs : list task) (u : Z) (n : string) (t : nat).

(** **** The two-level registry *)

Lemma lookup2_delete_outer d u u' n' :
  lookup2 (delete u d) u' n' = if decide (u = u') then None else lookup2 d u' n'.
Proof.
  unfold lookup2. case_decide as H; subst.
  - by rewrite lookup_delete_eq.
  - by rewrite lookup_delete_ne.
Qed.

Lemma lookup2_insert_outer d u inner u' n' :
  lookup2 (<[u := inner]> d) u' n'
  = if decide (u = u') then inner !! n' else lookup2 d u' n'.
Proof.
  unfold lookup2. case_decide as H; subst.
  - by rewrite lookup_insert_eq.
  - by rewrite lookup_insert_ne.
Qed.

(** Popping one name, as [cancel_user_task] does, dropping the inner
    dictionary when it becomes empty. *)
Lemma lookup2_pop d u n inner u' n' :
  d !! u = Some inner →
  lookup2 (if decide (delete n inner = ∅) then delete u d
           else <[u := delete n inner]> d) u' n'
  = if decide (u = u' ∧ n = n') then None else lookup2 d u' n'.
Proof.
  intros Hu.
  assert (u = u' → lookup2 d u' n' = inner !! n') as Hsame.
  { intros <-. unfold lookup2. by rewrite Hu. }
  destruct (decide (delete n inner = ∅)) as [He|He].
  - rewrite lookup2_delete_outer.
    destruct (decide (u = u')) as [Hu'|Hu'], (decide (u = u' ∧ n = n')) as [Hk|Hk];
      try done; try tauto.
    rewrite (Hsame Hu'). destruct (decide (n = n')) as [Hn|Hn]; [tauto|].
    by rewrite <- (lookup_delete_ne inner n n'), He.
  - rewrite lookup2_insert_outer.
    destruct (decide (u = u')) as [Hu'|Hu'], (decide (u = u' ∧ n = n')) as [Hk|Hk];
      try done; try tauto.
    + destruct Hk as [_ <-]. by rewrite lookup_delete_eq.
    + rewrite (Hsame Hu'). destruct (decide (n = n')) as [Hn|Hn]; [tauto|].
      by rewrite lookup_delete_ne.
Qed.

(** Registering one name, as [create_task] does. *)
Lemma lookup2_register d u n t u' n' :
  lookup2 (<[u := <[n := t]> (default ∅ (d !! u))]> d) u' n'
  = if decide (u = u' ∧ n = n') then Some t else lookup2 d u' n'.
Proof.
  rewrite lookup2_insert_outer.
  destruct (decide (u = u')) as [Hu'|Hu'], (decide (u = u' ∧ n = n')) as [Hk|Hk];
    try done; try tauto.
  - destruct Hk as [_ <-]. by rewrite lookup_insert_eq.
  - destruct (decide (n = n')) as [Hn|Hn]; [tauto|].
    rewrite lookup_insert_ne by done. subst u'.
    unfold lookup2. by destruct (d !! u).
Qed.

(** **** Cancellation requests on the task objects *)

Lemma length_cancel objs t : length (cancel objs t) = length objs.
Proof.
  unfold cancel. destruct (objs !! t) as [o|]; [|done].
  destruct (done o); [done|]. by rewrite length_insert.
Qed.

Lemma cancel_lookup_ne objs t t' : t ≠ t' → cancel objs t !! t' = objs !! t'.
Proof.
  intros Hne. unfold cancel. destruct (objs !! t) as [o|]; [|done].
  destruct (done o); [done|]. by rewrite list_lookup_insert_ne.
Qed.

Lemma cancel_lookup_eq objs t o :
  objs !! t = Some o →
  cancel objs t !! t = Some (if done o then o else Task (coro o) false true).
Proof.
  intros Ho. unfold cancel. rewrite Ho. destruct (done o) eqn:Hd; [done|].
  rewrite list_lookup_insert_eq; [done|]. by eapply lookup_lt_Some.
Qed.

(** A cancellation request never changes whether a task is done, and
    never withdraws an earlier request. *)
Lemma cancel_done objs t t' o' :
  cancel objs t !! t' = Some o' →
  ∃ o, objs !! t' = Some o ∧ done o' = done o
       ∧ (cancelling o = true → cancelling o' = true).
Proof.
  destruct (decide (t = t')) as [<-|Hne].
  - destruct (objs !! t) as [o|] eqn:Ho.
    + rewrite (cancel_lookup_eq _ _ _ Ho). intros [= <-]. exists o.
      destruct (done o) eqn:Hd; simpl; eauto.
    + unfold cancel. rewrite Ho. by rewrite Ho.
  - rewrite cancel_lookup_ne by done. intros H. by exists o'.
Qed.

Lemma cancel_all_lookup (l : list nat) objs t' o' :
  foldr (λ t objs, cancel objs t) objs l !! t' = Some o' →
  ∃ o, objs !! t' = Some o ∧ done o' = done o
       ∧ (cancelling o = true → cancelling o' = true).
Proof.
  revert o'. induction l as [|t l IH]; intros o'; simpl.
  - intros H. by exists o'.
  - intros H. apply cancel_done in H as (o1 & H1 & Hd & Hc).
    apply IH in H1 as (o & Ho & Hd' & Hc'). exists o.
    split_and!; [done|congruence|auto].
Qed.

Lemma length_cancel_all (l : list nat) objs :
  length (foldr (λ t objs, cancel objs t) objs l) = length objs.
Proof. induction l as [|t l IH]; simpl; [done|]. by rewrite length_cancel. Qed.

(** Every task of the list that is not done carries a cancellation
    request afterwards. *)
Lemma cancel_all_requested (l : list nat) objs t o' :
  t ∈ l →
  foldr (λ t objs, cancel objs t) objs l !! t = Some o' →
  done o' = true ∨ cancelling o' = true.
Proof.
  revert o'. induction l as [|t0 l IH]; intros o' Hin; simpl.
  - by apply elem_of_nil in Hin.
  - intros H. destruct (decide (t0 = t)) as [->|Hne].
    + pose proof H as H'. apply cancel_done in H' as (o1 & H1 & _).
      rewrite (cancel_lookup_eq _ _ _ H1) in H. injection H as <-.
      destruct (done o1) eqn:Hd; simpl; auto.
    + rewrite cancel_lookup_ne in H by done.
      apply elem_of_cons in Hin as [->|Hin]; [done|]. by apply IH.
Qed.

(** **** A task is settled once it is done or asked to stop *)

Lemma objects_grow_refl objs : objects_grow objs objs.
Proof. intros t o H. by exists o. Qed.

Lemma objects_grow_cancel objs t : objects_grow objs (cancel objs t).
Proof.
  intros t' o Ho. destruct (decide (t = t')) as [<-|Hne].
  - rewrite (cancel_lookup_eq _ _ _ Ho). eexists. split; [done|].
    destruct (done o) eqn:Hd; simpl; [tauto|]. split; [done|auto].
  - rewrite cancel_lookup_ne by done. by exists o.
Qed.

Lemma objects_grow_trans objs1 objs2 objs3 :
  objects_grow objs1 objs2 → objects_grow objs2 objs3 → objects_grow objs1 objs3.
Proof.
  intros H12 H23 t o Ho. destruct (H12 _ _ Ho) as (o2 & Ho2 & Hd & Hc).
  destruct (H23 _ _ Ho2) as (o3 & Ho3 & Hd' & Hc'). exists o3. auto.
Qed.

Lemma objects_grow_cancel_all (l : list nat) objs :
  objects_grow objs (foldr (λ t objs, cancel objs t) objs l).
Proof.
  induction l as [|t l IH]; simpl; [apply objects_grow_refl|].
  eapply objects_grow_trans; [exact IH|apply objects_grow_cancel].
Qed.

Lemma objects_grow_app objs extra : objects_grow objs (objs ++ extra).
Proof. intros t o Ho. exists o. split; [|done]. by apply lookup_app_l_Some. Qed.

Lemma objects_grow_cancel_user_task st u n :
  objects_grow (objects st) (objects (cancel_user_task st u n)).
Proof.
  unfold cancel_user_task.
  destruct (user_specific_tasks st !! u) as [inner|]; [|apply objects_grow_refl].
  destruct (inner !! n) as [t|]; [|apply objects_grow_refl]. simpl.
  destruct (is_done st t); [apply objects_grow_refl|apply objects_grow_cancel].
Qed.

Lemma objects_grow_step st e : objects_grow (objects st) (objects (step st e)).
Proof.
  destruct e as [c uo no r|u n|u| |t|]; simpl.
  - unfold create_task. destruct (negb (loop st) && negb r); simpl;
      [apply objects_grow_refl|].
    eapply objects_grow_trans; [|apply objects_grow_app].
    destruct (keyed uo no) as [[u n]|];
      [apply objects_grow_cancel_user_task|apply objects_grow_refl].
  - apply objects_grow_cancel_user_task.
  - unfold cancel_all_user_tasks.
    destruct (user_specific_tasks st !! u); [|apply objects_grow_refl].
    apply objects_grow_cancel_all.
  - apply objects_grow_cancel_all.
  - unfold finish. destruct (objects st !! t) as [o|] eqn:Ho;
      [|apply objects_grow_refl]. simpl.
    intros t' o' Ho'. destruct (decide (t = t')) as [<-|Hne].
    + rewrite list_lookup_insert_eq by (by eapply lookup_lt_Some).
      eexists. split; [done|]. simpl. split; [done|]. congruence.
    + rewrite list_lookup_insert_ne by done. by exists o'.
  - apply objects_grow_refl.
Qed.

Lemma settled_grow st st' t :
  objects_grow (objects st) (objects st') → settled st t → settled st' t.
Proof.
  intros Hg. unfold settled, is_done, is_cancelling.
  destruct (objects st !! t) as [o|] eqn:Ho; [|intros [?|?]; done].
  destruct (Hg _ _ Ho) as (o' & -> & Hd & Hc). tauto.
Qed.

Lemma settled_step st e t : settled st t → settled (step st e) t.
Proof. apply settled_grow, objects_grow_step. Qed.

(** **** What each operation does to the registry *)

Lemma registered_cancel_user_task st u n u' n' :
  registered (cancel_user_task st u n) u' n'
  = if decide (u = u' ∧ n = n') then None else registered st u' n'.
Proof.
  unfold registered, cancel_user_task.
  destruct (user_specific_tasks st !! u) as [inner|] eqn:Hu.
  - destruct (inner !! n) as [t|] eqn:Hn; simpl.
    + by apply lookup2_pop.
    + case_decide as Hk; [|done]. destruct Hk as [<- <-].
      unfold lookup2. by rewrite Hu.
  - case_decide as Hk; [|done]. destruct Hk as [<- <-].
    unfold lookup2. by rewrite Hu.
Qed.

Lemma length_objects_cancel_user_task st u n :
  length (objects (cancel_user_task st u n)) = length (objects st).
Proof.
  unfold cancel_user_task.
  destruct (user_specific_tasks st !! u) as [inner|]; [|done].
  destruct (inner !! n) as [t|]; [|done]. simpl.
  destruct (is_done st t); [done|apply length_cancel].
Qed.

Lemma loop_cancel_user_task st u n : loop (cancel_user_task st u n) = loop st.
Proof.
  unfold cancel_user_task.
  destruct (user_specific_tasks st !! u) as [inner|]; [|done].
  by destruct (inner !! n).
Qed.

Lemma registered_cancel_all_user_tasks st u u' n' :
  registered (cancel_all_user_tasks st u) u' n'
  = if decide (u = u') then None else registered st u' n'.
Proof.
  unfold registered, cancel_all_user_tasks.
  destruct (user_specific_tasks st !! u) as [inner|] eqn:Hu; simpl.
  - apply lookup2_delete_outer.
  - case_decide as Hk; [|done]. subst u'. unfold lookup2. by rewrite Hu.
Qed.

(** The task a keyed [create_task] creates and the tracker it leaves. *)
Lemma create_task_keyed st c u n r :
  u ≠ 0 → n ≠ EmptyString → loop st = true ∨ r = true →
  let st1 := cancel_user_task st u n in
  let t := length (objects st) in
  create_task st c (Some u) (Some n) r
  = (Tracker true ({[t]} ∪ tasks st1)
       (<[u := <[n := t]> (default ∅ (user_specific_tasks st1 !! u))]>
          (user_specific_tasks st1))
       (objects st1 ++ [Task c false false]),
     Some t).
Proof.
  intros Hu Hn Hloop st1 t. unfold create_task.
  assert (negb (loop st) && negb r = false) as ->.
  { destruct Hloop as [-> | ->]; [done|]. by rewrite andb_false_r. }
  unfold keyed. rewrite decide_True by done. fold st1.
  subst t. subst st1. by rewrite length_objects_cancel_user_task.
Qed.

Lemma registered_create_task_keyed st c u n r u' n' :
  u ≠ 0 → n ≠ EmptyString → loop st = true ∨ r = true →
  registered (create_task st c (Some u) (Some n) r).1 u' n'
  = if decide (u = u' ∧ n = n') then Some (length (objects st))
    else registered st u' n'.
Proof.
  intros Hu Hn Hloop. rewrite create_task_keyed by done. simpl.
  unfold registered at 1. simpl. rewrite lookup2_register.
  case_decide as Hk; [done|].
  fold (registered (cancel_user_task st u n) u' n').
  rewrite registered_cancel_user_task. by rewrite decide_False.
Qed.

Lemma create_task_unkeyed st c uo no r :
  keyed uo no = None →
  user_specific_tasks (create_task st c uo no r).1 = user_specific_tasks st
  ∧ (length (objects st) <= length (objects (create_task st c uo no r).1))%nat
  ∧ (loop st = true → loop (create_task st c uo no r).1 = true).
Proof.
  intros Hk. unfold create_task. rewrite Hk.
  destruct (negb (loop st) && negb r); simpl; [done|].
  rewrite length_app. simpl. split_and!; [done|lia|done].
Qed.

Lemma keyed_Some uo no u n :
  keyed uo no = Some (u, n) → uo = Some u ∧ no = Some n ∧ u ≠ 0 ∧ n ≠ EmptyString.
Proof.
  unfold keyed. destruct uo as [u0|], no as [n0|]; try done.
  case_decide as Hk; [|done]. intros [= <- <-]. tauto.
Qed.

(** **** Well-formedness is an invariant *)

Lemma well_formed_init : well_formed init.
Proof. split; intros *; unfold registered, lookup2; simpl; by rewrite lookup_empty. Qed.

Lemma well_formed_cancel_user_task st u n :
  well_formed st → well_formed (cancel_user_task st u n).
Proof.
  intros [Hb Hi Hk Hl]. split; intros *; rewrite ?registered_cancel_user_task,
    ?length_objects_cancel_user_task, ?loop_cancel_user_task;
    repeat case_decide; try done; eauto.
Qed.

Lemma well_formed_create_task st c uo no r :
  well_formed st → well_formed (create_task st c uo no r).1.
Proof.
  intros Hwf. destruct (keyed uo no) as [[u n]|] eqn:Hkey.
  - apply keyed_Some in Hkey as (-> & -> & Hu & Hn).
    destruct (negb (loop st) && negb r) eqn:Hloop.
    { unfold create_task. by rewrite Hloop. }
    assert (loop st = true ∨ r = true) as Hl.
    { destruct (loop st), r; simpl in *; auto. }
    destruct Hwf as [Hb Hi Hk _].
    split; intros *; rewrite ?registered_create_task_keyed by done.
    + rewrite create_task_keyed by done. simpl. rewrite length_app.
      rewrite length_objects_cancel_user_task. simpl.
      case_decide; [intros [= <-]; lia|]. intros Hr%Hb. lia.
    + repeat case_decide.
      * intros _ _. destruct_and!. by subst.
      * intros [= <-] Hr%Hb. lia.
      * intros Hr%Hb [= <-]. lia.
      * apply Hi.
    + case_decide as Hd; [|apply Hk]. destruct Hd as [<- <-]. done.
    + intros _. by rewrite create_task_keyed.
  - destruct (create_task_unkeyed st c uo no r Hkey) as (Hreg & Hlen & Hloop).
    destruct Hwf as [Hb Hi Hk Hl].
    split; intros *; unfold registered in *; rewrite ?Hreg; eauto.
    intros Hr%Hb. lia.
Qed.

Lemma well_formed_step st e : well_formed st → well_formed (step st e).
Proof.
  intros Hwf. destruct e as [c uo no r|u n|u| |t|]; simpl.
  - by apply well_formed_create_task.
  - by apply well_formed_cancel_user_task.
  - destruct Hwf as [Hb Hi Hk Hl].
    assert (length (objects (cancel_all_user_tasks st u)) = length (objects st)) as Hlen.
    { unfold cancel_all_user_tasks.
      destruct (user_specific_tasks st !! u); [|done]. simpl.
      by rewrite length_cancel_all. }
    assert (loop (cancel_all_user_tasks st u) = loop st) as Hloop.
    { unfold cancel_all_user_tasks. by destruct (user_specific_tasks st !! u). }
    split; intros *; rewrite ?registered_cancel_all_user_tasks, ?Hlen, ?Hloop;
      repeat case_decide; try done; eauto.
  - destruct Hwf as [Hb Hi Hk Hl]. split; intros *; unfold registered; simpl; eauto.
    intros Hr%Hb. by rewrite length_cancel_all.
  - destruct Hwf as [Hb Hi Hk Hl]. unfold finish.
    destruct (objects st !! t) as [o|]; [|by split].
    split; intros *; unfold registered; simpl; eauto.
    intros Hr%Hb. by rewrite length_insert.
  - destruct Hwf as [Hb Hi Hk Hl]. by split; intros *; unfold registered; simpl; eauto.
Qed.

Lemma reachable_well_formed st : reachable st → well_formed st.
Proof.
  induction 1 as [|st e _ IH]; [apply well_formed_init|by apply well_formed_step].
Qed.

(** **** Superseding a registered task *)

Lemma objects_cancel_user_task_registered st u n t :
  registered st u n = Some t →
  objects (cancel_user_task st u n)
  = if is_done st t then objects st else cancel (objects st) t.
Proof.
  unfold registered, lookup2, cancel_user_task.
  destruct (user_specific_tasks st !! u) as [inner|]; [|done]. simpl.
  by intros ->.
Qed.

(** Cancelling the task registered under a key leaves it settled. *)
Lemma cancel_user_task_settles st u n t :
  well_formed st → registered st u n = Some t →
  settled (cancel_user_task st u n) t
  ∧ is_done (cancel_user_task st u n) t = is_done st t.
Proof.
  intros Hwf Hreg. pose proof (wf_bound _ Hwf _ _ _ Hreg) as Hlt.
  destruct (lookup_lt_is_Some_2 _ _ Hlt) as [o Ho].
  unfold settled, is_done, is_cancelling.
  rewrite (objects_cancel_user_task_registered _ _ _ _ Hreg).
  unfold is_done. rewrite Ho. destruct (done o) eqn:Hd.
  - rewrite Ho, Hd. auto.
  - rewrite (cancel_lookup_eq _ _ _ Ho), Hd. simpl. auto.
Qed.

Lemma create_task_on_registered st c u n r t :
  well_formed st →
  registered st u n = Some t →
  ∃ st' t',
    create_task st c (Some u) (Some n) r = (st', Some t')
    ∧ t' ≠ t
    ∧ registered st' u n = Some t'
    ∧ (∀ u' n', registered st' u' n' ≠ Some t)
    ∧ (is_done st t = true ∨ is_cancelling st' t = true)
    ∧ is_done st' t' = false ∧ is_cancelling st' t' = false
    ∧ (∀ u' n', (u', n') ≠ (u, n) → registered st' u' n' = registered st u' n').
Proof.
  intros Hwf Hreg.
  destruct (wf_key _ Hwf _ _ _ Hreg) as [Hu Hn].
  pose proof (wf_loop _ Hwf _ _ _ Hreg) as Hloop.
  pose proof (wf_bound _ Hwf _ _ _ Hreg) as Hlt.
  assert (loop st = true ∨ r = true) as Hl by auto.
  pose proof (create_task_keyed st c u n r Hu Hn Hl) as Hct. simpl in Hct.
  pose proof (λ u' n', registered_create_task_keyed st c u n r u' n' Hu Hn Hl) as Hr.
  rewrite Hct in Hr. simpl in Hr.
  eexists _, _. split; [exact Hct|].
  destruct (cancel_user_task_settles st u n t Hwf Hreg) as [Hset Hdone].
  assert (length (objects (cancel_user_task st u n)) = length (objects st)) as Hlen
    by apply length_objects_cancel_user_task.
  split_and!.
  - lia.
  - rewrite Hr. by rewrite decide_True.
  - intros u' n'. rewrite Hr. case_decide as Hk.
    + intros [= ?]. lia.
    + intros Hreg'. destruct (wf_inj _ Hwf _ _ _ _ _ Hreg Hreg') as [<- <-]. tauto.
  - unfold is_cancelling. simpl. rewrite lookup_app_l by lia.
    destruct Hset as [Hd|Hc]; [left; congruence|by right].
  - unfold is_done. simpl. rewrite lookup_app_r by lia.
    by rewrite Hlen, Nat.sub_diag.
  - unfold is_cancelling. simpl. rewrite lookup_app_r by lia.
    by rewrite Hlen, Nat.sub_diag.
  - intros u' n' Hne. rewrite Hr. rewrite decide_False; [done|].
    intros [<- <-]. done.
Qed.

(** C7.  In every tracker that arises from [TaskTracker()], a
    [create_task] for a key [(user_id, task_name)] that is already
    registered returns a new task, removes the task registered before
    from the registry (it is registered under no key afterwards),
    requests its cancellation unless it had already finished, and
    registers the new, running task under the key; every other key keeps
    its task.  The registry holds one task per key, so the latest spawn
    is the one registered. *)
Theorem create_task_supersedes st c u n r t :
  reachable st →
  registered st u n = Some t →
  ∃ st' t',
    create_task st c (Some u) (Some n) r = (st', Some t')
    ∧ t' ≠ t
    ∧ registered st' u n = Some t'
    ∧ (∀ u' n', registered st' u' n' ≠ Some t)
    ∧ (is_done st t = true ∨ is_cancelling st' t = true)
    ∧ is_done st' t' = false ∧ is_cancelling st' t' = false
    ∧ (∀ u' n', (u', n') ≠ (u, n) → registered st' u' n' = registered st u' n')
    ∧ (∀ t1 t2, registered st' u n = Some t1 → registered st' u n = Some t2 → t1 = t2).
Proof.
  intros Hwf%reachable_well_formed Hreg.
  destruct (create_task_on_registered st c u n r t Hwf Hreg)
    as (st' & t' & H1 & H2 & H3 & H4 & H5 & H6 & H7 & H8).
  exists st', t'. split_and!; try done. congruence.
Qed.

Lemma create_task_supersedes_witness :
  let st := (create_task init (timeout_task 7 100) (Some 7) (Some "timeout") true).1 in
  reachable st
  ∧ registered st 7 "timeout" = Some 0%nat
  ∧ ∃ st' t',
      create_task st (timeout_task 7 101) (Some 7) (Some "timeout") false = (st', Some t')
      ∧ t' ≠ 0%nat
      ∧ registered st' 7 "timeout" = Some t'
      ∧ (∀ u' n', registered st' u' n' ≠ Some 0%nat)
      ∧ (is_done st 0 = true ∨ is_cancelling st' 0 = true)
      ∧ is_done st' t' = false ∧ is_cancelling st' t' = false
      ∧ (∀ u' n', (u', n') ≠ (7, "timeout") → registered st' u' n' = registered st u' n')
      ∧ (∀ t1 t2, registered st' 7 "timeout" = Some t1 →
                  registered st' 7 "timeout" = Some t2 → t1 = t2).
Proof.
  intros st.
  assert (reachable st) as Hreach.
  { apply (reachable_step init (Spawn (timeout_task 7 100) (Some 7) (Some "timeout") true)).
    apply reachable_init. }
  split_and!; [exact Hreach | reflexivity |].
  apply (create_task_supersedes st (timeout_task 7 101) 7 "timeout" false 0%nat Hreach).
  reflexivity.
Defined.

(** A task registered under a key stays registered under it until it
    is settled: no event unregisters a task that is still running
    undisturbed. *)
Lemma registered_until_settled st e u n t :
  well_formed st → registered st u n = Some t →
  settled (step st e) t ∨ registered (step st e) u n = Some t.
Proof.
  intros Hwf Hreg. pose proof (wf_bound _ Hwf _ _ _ Hreg) as Hlt.
  destruct e as [c uo no r|u' n'|u'| |t'|]; simpl.
  - destruct (keyed uo no) as [[u' n']|] eqn:Hkey.
    + apply keyed_Some in Hkey as (-> & -> & Hu & Hn).
      assert (loop st = true ∨ r = true) as Hl by (left; by eapply wf_loop).
      rewrite registered_create_task_keyed by done.
      case_decide as Hk; [|by right]. destruct Hk as [-> ->]. left.
      destruct (cancel_user_task_settles st u n t Hwf Hreg) as [Hset _].
      eapply settled_grow; [|exact Hset].
      rewrite create_task_keyed by done. simpl. apply objects_grow_app.
    + right. destruct (create_task_unkeyed st c uo no r Hkey) as (Hr & _).
      unfold registered. by rewrite Hr.
  - rewrite registered_cancel_user_task. case_decide as Hk; [|by right].
    destruct Hk as [-> ->]. left. by apply cancel_user_task_settles.
  - rewrite registered_cancel_all_user_tasks. case_decide as Hk; [|by right].
    subst u'. left. unfold registered, lookup2 in Hreg.
    unfold cancel_all_user_tasks.
    destruct (user_specific_tasks st !! u) as [inner|]; [|done]. simpl in Hreg.
    destruct (lookup_lt_is_Some_2 _ _ Hlt) as [o Ho].
    destruct (objects_grow_cancel_all (snd <$> map_to_list inner) _ _ _ Ho)
      as (o' & Ho' & _).
    unfold settled, is_done, is_cancelling. simpl. rewrite Ho'.
    eapply cancel_all_requested; [|exact Ho'].
    apply list_elem_of_fmap. exists (n, t). split; [done|].
    by apply elem_of_map_to_list.
  - by right.
  - right. unfold finish. by destruct (objects st !! t').
  - by right.
Qed.

(** The latest spawn wins: when two [create_task] calls use the same
    key, whatever happens in between, the task of the earlier call is
    settled once the later call returns, and the key holds the task of
    the later call. *)
Lemma latest_spawn_wins st c1 c2 u n r1 r2 st1 t1 evs :
  reachable st → u ≠ 0 → n ≠ EmptyString →
  create_task st c1 (Some u) (Some n) r1 = (st1, Some t1) →
  ∃ st3 t2,
    create_task (foldl step st1 evs) c2 (Some u) (Some n) r2 = (st3, Some t2)
    ∧ settled st3 t1
    ∧ t2 ≠ t1
    ∧ registered st3 u n = Some t2.
Proof.
  intros Hreach Hu Hn Hct.
  assert (reachable st1) as Hreach1.
  { replace st1 with (step st (Spawn c1 (Some u) (Some n) r1)) by (simpl; by rewrite Hct).
    by constructor. }
  assert (loop st = true ∨ r1 = true) as Hl1.
  { unfold create_task in Hct.
    destruct (loop st), r1; simpl in *; auto; congruence. }
  assert (registered st1 u n = Some t1 ∧ loop st1 = true ∧ (t1 < length (objects st1))%nat)
    as (Hreg1 & Hloop1 & Hlt1).
  { pose proof (registered_create_task_keyed st c1 u n r1 u n Hu Hn Hl1) as Hr.
    rewrite create_task_keyed in Hct by done. injection Hct as <- <-.
    rewrite decide_True in Hr by done. rewrite create_task_keyed in Hr by done.
    split_and!; [exact Hr|done|]. simpl. rewrite length_app.
    rewrite length_objects_cancel_user_task. simpl. lia. }
  clear Hct Hl1 Hreach st.
  assert (∀ st, reachable st → loop st = true →
            settled st t1 ∨ registered st u n = Some t1 →
            ∃ st3 t2, create_task st c2 (Some u) (Some n) r2 = (st3, Some t2)
                      ∧ settled st3 t1 ∧ t2 ≠ t1 ∧ registered st3 u n = Some t2
                      ∧ ((t1 < length (objects st))%nat → True)) as Hfinal.
  { intros st Hreach Hloop Hcase.
    pose proof (reachable_well_formed _ Hreach) as Hwf.
    destruct Hcase as [Hset|Hreg].
    - assert (loop st = true ∨ r2 = true) as Hl by auto.
      pose proof (create_task_keyed st c2 u n r2 Hu Hn Hl) as Hct. simpl in Hct.
      pose proof (registered_create_task_keyed st c2 u n r2 u n Hu Hn Hl) as Hr.
      rewrite Hct in Hr. simpl in Hr. rewrite decide_True in Hr by done.
      eexists _, _. split; [exact Hct|]. split_and!; [| |exact Hr|done].
      + eapply settled_grow; [|exact Hset]. simpl.
        eapply objects_grow_trans; [apply objects_grow_cancel_user_task|].
        apply objects_grow_app.
      + intros Heq. unfold settled, is_done, is_cancelling in Hset.
        rewrite lookup_ge_None_2 in Hset by lia. by destruct Hset.
    - destruct (create_task_on_registered st c2 u n r2 t1 Hwf Hreg)
        as (st3 & t2 & Hct & Hne & Hr & _ & Hcan & _).
      exists st3, t2. split_and!; try done.
      destruct Hcan as [Hd|Hc]; [|by right].
      eapply settled_grow; [|left; exact Hd].
      replace st3 with (step st (Spawn c2 (Some u) (Some n) r2)) by (simpl; by rewrite Hct).
      apply objects_grow_step. }
  assert (∀ st, reachable st → loop st = true →
            settled st t1 ∨ registered st u n = Some t1 →
            reachable (foldl step st evs) ∧ loop (foldl step st evs) = true
            ∧ (settled (foldl step st evs) t1
               ∨ registered (foldl step st evs) u n = Some t1)) as Hrun.
  { induction evs as [|e evs IH]; intros st Hreach Hloop Hcase; simpl; [done|].
    apply IH.
    - by constructor.
    - destruct e as [c uo no r|u' n'|u'| |t'|]; simpl; try done.
      + unfold create_task. by rewrite Hloop.
      + by rewrite loop_cancel_user_task.
      + unfold cancel_all_user_tasks. by destruct (user_specific_tasks st !! u').
      + unfold finish. by destruct (objects st !! t').
    - destruct Hcase as [Hset|Hreg]; [left; by apply settled_step|].
      apply registered_until_settled; [by apply reachable_well_formed|done]. }
  destruct (Hrun st1 Hreach1 Hloop1 (or_intror Hreg1)) as (Hreach2 & Hloop2 & Hcase2).
  destruct (Hfinal _ Hreach2 Hloop2 Hcase2) as (st3 & t2 & ? & ? & ? & ? & _).
  by exists st3, t2.
Qed.

(** **** The coroutines behind the task objects *)

Lemma coros_cancel objs t : coro <$> cancel objs t = coro <$> objs.
Proof.
  unfold cancel. destruct (objs !! t) as [o|] eqn:Ho; [|done].
  destruct (done o); [done|]. rewrite list_fmap_insert. simpl.
  apply list_insert_id. by rewrite list_lookup_fmap, Ho.
Qed.

Lemma coros_cancel_user_task st u n :
  coro <$> objects (cancel_user_task st u n) = coro <$> objects st.
Proof.
  unfold cancel_user_task.
  destruct (user_specific_tasks st !! u) as [inner|]; [|done].
  destruct (inner !! n) as [t|]; [|done]. simpl.
  destruct (is_done st t); [done|apply coros_cancel].
Qed.

Lemma coros_create_task st c uo no r :
  coro <$> objects (create_task st c uo no r).1
  = (coro <$> objects st) ++ (if negb (loop st) && negb r then [] else [c]).
Proof.
  unfold create_task. destruct (negb (loop st) && negb r); simpl.
  - by rewrite app_nil_r.
  - rewrite fmap_app. simpl. f_equal.
    destruct (keyed uo no) as [[u n]|]; [apply coros_cancel_user_task|done].
Qed.

End TaskFacts.

(** Unfolds the plumbing of coroutine bodies. *)
Ltac run_m :=
  unfold World.bind, World.ret, World.get, World.modify, World.modify_db,
    World.raise, World.the_db, World.await, World.await_safe in *; simpl in *.

Section DaemonFacts.
Import World Daemon.

Implicit Types (w : world) (d : database) (id : Z) (s : schedule).

Lemma same_store_refl w : same_store w w.
Proof. done. Qed.

Lemma once_same_store w w' : same_store w w' → once w → once w'.
Proof.
  intros [Hdb Htr] Ho id. unfold dispatches, status_of in *.
  rewrite Hdb, Htr. apply Ho.
Qed.

Lemma dispatches_same_store w w' id :
  same_store w w' → dispatches w' id = dispatches w id.
Proof. intros [_ Htr]. unfold dispatches. by rewrite Htr. Qed.

(** What one claim does: either it stops before touching anything, or
    the entry is set to [processing] and one pipeline task is created. *)
Lemma claim_and_dispatch_cases id s w :
  (same_store w (claim_and_dispatch id s w).2
   ∧ ∀ h, (claim_and_dispatch id s w).1 ≠ Ok h)
  ∨ ∃ d t,
      db w = Some d
      ∧ db (claim_and_dispatch id s w).2 = Some (update_status id processing d)
      ∧ Tasks.coro <$> Tasks.objects (task_tracker (claim_and_dispatch id s w).2)
        = (Tasks.coro <$> Tasks.objects (task_tracker w))
            ++ [Tasks.process_and_upload (sch_user_id s) true (Some id)]
      ∧ (claim_and_dispatch id s w).1 = Ok (Some t).
Proof.
  unfold claim_and_dispatch. run_m.
  destruct (db w) as [d|] eqn:Hdb; simpl; [|left; by rewrite ?Hdb].
  destruct (faults (env w) (ticks w)) as [e|] eqn:Hf; simpl.
  { left. split; [by split|done]. }
  pose proof (coros_create_task (task_tracker w)
    (Tasks.process_and_upload (sch_user_id s) true (Some id))
    (Some (sch_user_id s)) (Some ("scheduled_upload_" +:+ pretty id)) true) as Hco.
  rewrite andb_false_r in Hco.
  destruct (Tasks.create_task _ _ _ _ _) as [tr handle] eqn:Hct. simpl in *.
  right. rewrite Hdb. simpl.
  assert (∃ t, handle = Some t) as [t ->].
  { unfold Tasks.create_task in Hct. rewrite andb_false_r in Hct.
    injection Hct as _ <-. eauto. }
  by exists d, t.
Qed.

Lemma status_of_update w w' d id st id' :
  db w = Some d → db w' = Some (update_status id st d) →
  status_of w' id'
  = if decide (id = id') then (λ _, st) <$> status_of w id' else status_of w id'.
Proof.
  intros Hdb Hdb'. unfold status_of, update_status. rewrite Hdb, Hdb'. simpl.
  case_decide as Hid.
  - subst id'. rewrite lookup_alter_eq. by destruct (schedules d !! id).
  - by rewrite lookup_alter_ne.
Qed.

Lemma dispatches_snoc (l : list Tasks.coroutine) c id :
  length (filter (λ c, runs_entry id c = true) (l ++ [c]))
  = (length (filter (λ c, runs_entry id c = true) l)
     + if runs_entry id c then 1 else 0)%nat.
Proof.
  rewrite filter_app, length_app. f_equal.
  rewrite filter_cons, filter_nil. destruct (runs_entry id c) eqn:Hr.
  - by rewrite decide_True.
  - by rewrite decide_False.
Qed.

Lemma runs_entry_dispatch u id id' :
  runs_entry id' (Tasks.process_and_upload u true (Some id))
  = bool_decide (id = id').
Proof. done. Qed.

(** Claiming the entries of a snapshot one after the other keeps every
    entry dispatched at most once, provided none of them had been
    dispatched before and the snapshot lists no entry twice. *)
Lemma dispatch_all_once (due : list (Z * schedule)) : ∀ w,
  once w → NoDup due.*1 → (∀ id, id ∈ due.*1 → dispatches w id = 0%nat) →
  once (dispatch_all due w).2.
Proof.
  induction due as [|[id s] due IH]; intros w Ho Hnd Hzero; [done|].
  simpl in Hnd. apply NoDup_cons in Hnd as [Hnotin Hnd].
  simpl. unfold bind at 1.
  destruct (claim_and_dispatch_cases id s w) as [[Hsame Hno]|(d & t & Hdb & Hdb' & Hco & Hok)].
  - destruct (claim_and_dispatch id s w) as [[h|e|] w'] eqn:Hc; simpl in *.
    + by destruct (Hno h).
    + by eapply once_same_store.
    + by eapply once_same_store.
  - destruct (claim_and_dispatch id s w) as [r w'] eqn:Hc; simpl in *. subst r.
    assert (∀ id', dispatches w' id'
                   = (dispatches w id' + if bool_decide (id = id') then 1 else 0)%nat) as Hd.
    { intros id'. unfold dispatches. rewrite Hco, dispatches_snoc.
      by rewrite runs_entry_dispatch. }
    apply IH; [|done|].
    + intros id'. rewrite Hd. destruct (Ho id') as [Hle Hst].
      case_bool_decide as Hid.
      * subst id'. rewrite (Hzero id) by (simpl; apply elem_of_cons; by left).
        split; [lia|]. intros _.
        rewrite (status_of_update w w' d id processing id Hdb Hdb'), decide_True by done.
        by destruct (status_of w id).
      * rewrite Nat.add_0_r. split; [done|]. intros H1.
        rewrite (status_of_update w w' d id processing id' Hdb Hdb'), decide_False by done.
        by apply Hst.
    + intros id' Hin. rewrite Hd. rewrite bool_decide_false by (intros ->; done).
      rewrite Nat.add_0_r. apply Hzero. simpl. apply elem_of_cons. by right.
Qed.

Lemma fetch_due_cases w :
  same_store w (fetch_due w).2
  ∧ ∀ due, (fetch_due w).1 = Ok due →
      ∃ d, db w = Some d ∧ due = find_due (utcnow (env w)) d.
Proof.
  unfold fetch_due. run_m.
  destruct (db w) as [d|] eqn:Hdb; simpl; [|by rewrite ?Hdb].
  destruct (faults (env w) (ticks w)); simpl; [done|].
  destruct (faults (env w) (S (ticks w))); simpl; [done|].
  rewrite Hdb. simpl. split; [done|]. intros due [= <-]. by exists d.
Qed.

Lemma find_due_NoDup now d : NoDup (find_due now d).*1.
Proof.
  unfold find_due. eapply sublist_NoDup; [apply (NoDup_fst_map_to_list (schedules d))|].
  apply fmap_sublist, sublist_filter.
Qed.

Lemma find_due_pending now w d id :
  db w = Some d → id ∈ (find_due now d).*1 → status_of w id = Some pending.
Proof.
  intros Hdb ([id' s] & -> & Hin)%list_elem_of_fmap. simpl.
  apply list_elem_of_filter in Hin as [Hdue Hin]. simpl in Hdue.
  apply elem_of_map_to_list in Hin. unfold status_of. rewrite Hdb. simpl.
  rewrite Hin. simpl. unfold is_due in Hdue.
  apply andb_true_iff in Hdue as [_ Hp]. apply bool_decide_eq_true in Hp.
  by rewrite Hp.
Qed.

(** A poll cycle keeps every entry dispatched at most once, whatever the
    collaborators answer during the cycle. *)
Lemma poll_cycle_once w : once w → once (poll_cycle w).2.
Proof.
  intros Ho. unfold poll_cycle. unfold bind at 1, get at 1.
  destruct (schedules_paused (globals w)); [done|].
  unfold try_except, bind.
  destruct (fetch_due_cases w) as [Hsame Hdue].
  destruct (fetch_due w) as [[due|e|] w1] eqn:Hf; simpl in *.
  - destruct (Hdue due eq_refl) as (d & Hdb & ->).
    assert (once w1) as Ho1 by (by eapply once_same_store).
    assert (once (dispatch_all (find_due (utcnow (env w)) d) w1).2) as Ho2.
    { apply dispatch_all_once; [done|apply find_due_NoDup|].
      intros id Hin. destruct (Ho1 id) as [Hle Hst].
      assert (db w1 = Some d) as Hdb1 by (destruct Hsame as [-> _]; done).
      pose proof (find_due_pending _ w1 d id Hdb1 Hin) as Hp.
      destruct (dispatches w1 id) as [|[|n]]; [done| |lia].
      by destruct Hst. }
    destruct (dispatch_all _ w1) as [[[]|e|] w2]; simpl in *; try done.
    unfold ret, raise. by destruct (is_exception e).
  - assert (once w1) as Ho1 by (by eapply once_same_store).
    unfold ret, raise. by destruct (is_exception e).
  - by eapply once_same_store.
Qed.

Lemma step_once w e : once w → once (step w e).
Proof.
  intros Ho. destruct e as [o|id st]; simpl.
  - apply poll_cycle_once. by eapply once_same_store.
  - case_decide as Hst; [|done]. intros id'. destruct (Ho id') as [Hle Hp].
    unfold dispatches in *. simpl. split; [done|]. intros H1.
    destruct (db w) as [d|] eqn:Hdb; simpl.
    + erewrite (status_of_update w _ d id st id' Hdb); [|done].
      case_decide; [|by apply Hp].
      destruct (status_of w id'); simpl; [|done]. destruct Hst; congruence.
    + unfold status_of in *. simpl. by rewrite Hdb in Hp.
Qed.

Lemma run_once (evs : list event) : ∀ w, once w → once (foldl step w evs).
Proof.
  induction evs as [|e evs IH]; intros w Ho; simpl; [done|].
  by apply IH, step_once.
Qed.

(** The claim step does not look at the status it overwrites. *)
Lemma claim_and_dispatch_unconditional w d id s e :
  db w = Some d → schedules d !! id = Some e →
  faults (env w) (ticks w) = None →
  ∃ t w',
    claim_and_dispatch id s w = (Ok (Some t), w')
    ∧ status_of w' id = Some processing
    ∧ dispatches w' id = S (dispatches w id).
Proof.
  intros Hdb He Hf.
  destruct (claim_and_dispatch_cases id s w) as [[_ Hno]|(d' & t & Hdb0 & Hdb' & Hco & Hok)].
  - exfalso. revert Hno. unfold claim_and_dispatch. run_m. rewrite Hdb. simpl.
    rewrite Hf. simpl. destruct (Tasks.create_task _ _ _ _ _) as [tr h]. simpl.
    intros Hno. by eapply Hno.
  - assert (d' = d) as -> by congruence.
    destruct (claim_and_dispatch id s w) as [r w'] eqn:Hc. simpl in *. subst r.
    exists t, w'. split_and!; [done| |].
    + rewrite (status_of_update w w' d id processing id Hdb Hdb'), decide_True by done.
      unfold status_of. rewrite Hdb. simpl. by rewrite He.
    + unfold dispatches. rewrite Hco, dispatches_snoc, runs_entry_dispatch.
      rewrite bool_decide_true by done. lia.
Qed.

(** C1 (as the code has it).  The claim step sets the entry to
    [processing] by its id alone: it goes through whatever status the
    entry has, and hands the entry to the pipeline each time.  What keeps
    an entry from being dispatched twice is the sequence of poll cycles of
    one daemon: starting from a tracker without pipeline tasks, after any
    number of poll cycles, interleaved with the terminal status writes of
    the pipeline and whatever the collaborators answer, every entry has
    been handed to the pipeline at most once. *)
Theorem sequential_polls_dispatch_once w d id s e evs :
  db w = Some d → schedules d !! id = Some e →
  faults (env w) (ticks w) = None →
  (∀ id', dispatches w id' = 0%nat) →
  (∃ t w',
     claim_and_dispatch id s w = (Ok (Some t), w')
     ∧ status_of w' id = Some processing
     ∧ dispatches w' id = 1%nat)
  ∧ (dispatches (foldl step w evs) id <= 1)%nat.
Proof.
  intros Hdb He Hf Hzero. split.
  - destruct (claim_and_dispatch_unconditional w d id s e Hdb He Hf)
      as (t & w' & Hc & Hst & Hd).
    exists t, w'. by rewrite Hd, Hzero.
  - apply run_once. intros id'. rewrite Hzero. split; [lia|done].
Qed.

Lemma sequential_polls_dispatch_once_witness :
  let w := sample_world completed in
  let evs := [Poll (calm 1000 None); Outcome 1 failed; Poll (calm 2000 None)] in
  db w = Some (set_schedules {[ 1 := sample_entry completed ]} empty_database)
  ∧ ({[ 1 := sample_entry completed ]} : gmap Z schedule) !! 1
    = Some (sample_entry completed)
  ∧ faults (env w) (ticks w) = None
  ∧ (∀ id', dispatches w id' = 0%nat)
  ∧ (∃ t w',
       claim_and_dispatch 1 (sample_entry pending) w = (Ok (Some t), w')
       ∧ status_of w' 1 = Some processing
       ∧ dispatches w' 1 = 1%nat)
  ∧ (dispatches (foldl step w evs) 1 <= 1)%nat.
Proof.
  intros w evs.
  assert (∀ id', dispatches w id' = 0%nat) as Hzero by (intros id'; reflexivity).
  split_and!; [reflexivity | reflexivity | reflexivity | exact Hzero | |];
    apply (sequential_polls_dispatch_once w
             (set_schedules {[ 1 := sample_entry completed ]} empty_database)
             1 (sample_entry pending) (sample_entry completed) evs);
    try reflexivity; exact Hzero.
Defined.

(** C1 as stated fails: two claim attempts made from the same snapshot of
    a pending entry both go through, the second on an entry that is
    already [processing], and the entry is handed to the pipeline twice. *)
Lemma double_claim_both_succeed :
  let s := sample_entry pending in
  let w0 := sample_world pending in
  status_of w0 1 = Some pending
  ∧ ∃ t1 w1 t2 w2,
      claim_and_dispatch 1 s w0 = (Ok (Some t1), w1)
      ∧ status_of w1 1 = Some processing
      ∧ claim_and_dispatch 1 s w1 = (Ok (Some t2), w2)
      ∧ t1 ≠ t2
      ∧ dispatches w2 1 = 2%nat.
Proof.
  intros s w0. split; [reflexivity|].
  eexists _, _, _, _. split_and!.
  - vm_compute. reflexivity.
  - vm_compute. reflexivity.
  - vm_compute. reflexivity.
  - discriminate.
  - vm_compute. reflexivity.
Qed.

End DaemonFacts.

Section GateFacts.
Import World Gate.

Lemma balanced_start w :
  0 <= max_concurrent_uploads (globals w) →
  balanced (max_concurrent_uploads (globals w)) (start w).
Proof.
  intros Hpos. split; try done.
  exists (max_concurrent_uploads (globals w)).
  split_and!; [done|done|]. unfold permits_held. simpl.
  rewrite map_size_empty. lia.
Qed.

Lemma balanced_step limit g e :
  is_reload e = false → balanced limit g → balanced limit (step g e).
Proof.
  intros He [Hobj (v & Hsem & Hv & Hsum) Hlim Hhold].
  unfold permits_held in Hsum.
  destruct e as [r|r|n]; [| |done]; simpl.
  - destruct (holding g !! r) as [i|] eqn:Hr.
    { split; eauto. }
    rewrite Hobj. unfold acquire, semaphore_value. rewrite Hsem. simpl.
    destruct (Z.ltb_spec 0 v) as [Hfree|Hfull].
    + split; simpl; try done.
      * exists (v - 1). split_and!; [done|lia|].
        unfold permits_held. simpl. rewrite map_size_insert_None by done. lia.
      * intros r' i'. destruct (decide (r' = r)) as [->|Hne].
        -- rewrite lookup_insert_eq. congruence.
        -- rewrite lookup_insert_ne by done. apply Hhold.
    + destruct (faults (env (gw g)) (ticks (gw g))) as [[]|];
        split; simpl; eauto.
  - destruct (holding g !! r) as [i|] eqn:Hr; [|split; eauto].
    assert (i = 0%nat) as -> by (by eapply Hhold).
    split; simpl; try done.
    + exists (v + 1). unfold semaphore_value. rewrite Hsem. simpl.
      split_and!; [done|lia|].
      unfold permits_held. simpl.
      assert (size (holding g) = S (size (delete r (holding g)))) as Hsz.
      { rewrite <- (insert_delete_id (holding g) r 0%nat Hr) at 1.
        by rewrite map_size_insert_None by apply lookup_delete_eq. }
      lia.
    + intros r' i' Hl. apply lookup_delete_Some in Hl as [_ Hl]. by eapply Hhold.
Qed.

(** As long as the limit is not set again, the runs inside
    [async with upload_semaphore] are at most [max_concurrent_uploads]. *)
Lemma permits_bounded_without_reload w es :
  0 <= max_concurrent_uploads (globals w) →
  forallb (λ e, negb (is_reload e)) es = true →
  let g := foldl step (start w) es in
  permits_held g <= max_concurrent_uploads (globals (gw g)).
Proof.
  intros Hpos Hes.
  assert (balanced (max_concurrent_uploads (globals w))
            (foldl step (start w) es)) as [_ (v & _ & Hv & Hsum) Hlim _].
  { generalize (balanced_start w Hpos). generalize (start w).
    induction es as [|e es IH]; intros g Hg; [done|]. simpl in *.
    apply andb_true_iff in Hes as [He Hes]. apply IH; [done|].
    apply balanced_step; [|done]. by destruct (is_reload e). }
  simpl. lia.
Qed.

(** C2 (the code at the failing input).  With a limit of 1, one run takes
    the permit; the admin then sends the limit again, which installs a
    fresh semaphore with a free permit; a second run enters at once.  Two
    runs hold a permit while [max_concurrent_uploads] is 1. *)
Theorem reload_admits_beyond_limit :
  let g0 := start (boot (calm 0 None) 1 (Some empty_database)
                     (GlobalSettings 1 250 false false true ∅)) in
  let g := foldl step g0 [Enter 1; Reload 1; Enter 2] in
  max_concurrent_uploads (globals (gw g)) = 1
  ∧ holding g = {[ 1%nat := 0%nat; 2%nat := 1%nat ]}
  ∧ permits_held g = 2.
Proof. intros g0 g. split_and!; reflexivity. Qed.

End GateFacts.

Section TextFacts.
Import Text.

Example strip_wide_example :
  strip (bytes [28; 226; 128; 131]%N +:+ "two words" +:+ bytes [194; 160; 10]%N)
  = "two words".
Proof. reflexivity. Qed.

Example parse_int_example :
  parse_int " +1_000 " = Some 1000 ∧ parse_int "-12" = Some (-12)
  ∧ parse_int "1__0" = None ∧ parse_int "_1" = None ∧ parse_int "1_" = None
  ∧ parse_int "+" = None ∧ parse_int "" = None ∧ parse_int "1 0" = None.
Proof. by repeat split. Qed.

Example strip_example : strip "  two words   " = "two words".
Proof. reflexivity. Qed.

(** A two-byte character counts once. *)
Example len_example :
  len (String (Ascii.ascii_of_nat 195) (String (Ascii.ascii_of_nat 169) "te")) = 3%nat.
Proof. reflexivity. Qed.


Example split_example :
  split "----" "one----two--------four" = ["one"; "two"; ""; "four"].
Proof. reflexivity. Qed.

Example rsplit_dot_head_example :
  rsplit_dot_head "downloads/clip.v2.MOV" = "downloads/clip.v2".
Proof. reflexivity. Qed.

Example basename_example : basename "downloads/clip.mov" = "clip.mov".
Proof. reflexivity. Qed.

Example has_extension_example :
  has_extension [".mp4"; ".mov"] "downloads/Clip.MOV" = true
  ∧ has_extension [".mp4"; ".mov"] "downloads/photo.jpg" = false.
Proof. split; reflexivity. Qed.

End TextFacts.

Section CoroutineFacts.
Import World.

Context {A B : Type}.
Implicit Types (w : world) (P I : world → Prop).

Lemma run_bind (m : M A) (f : A → M B) w a w' :
  m w = (Ok a, w') → bind m f w = f a w'.
Proof. unfold bind. by intros ->. Qed.

Lemma get_bind (k : world → M B) w : bind get k w = k w w.
Proof. done. Qed.

Lemma modify_bind (f : world → world) (k : unit → M B) w :
  bind (modify f) k w = k tt (f w).
Proof. done. Qed.

Lemma ret_bind (a : A) (k : A → M B) w : bind (ret a) k w = k a w.
Proof. done. Qed.

Lemma triple_ret P (a : A) (Q : result A → world → Prop) :
  (∀ w, P w → Q (Ok a) w) → triple P (ret a) Q.
Proof. intros H w Hw. by apply H. Qed.

Lemma triple_bind P (m : M A) (f : A → M B) (R : A → world → Prop)
    (Q : result B → world → Prop) :
  triple P m (λ r w, match r with
                     | Ok a => R a w
                     | Raise e => Q (Raise e) w
                     | Blocked => Q Blocked w
                     end) →
  (∀ a, triple (R a) (f a) Q) →
  triple P (bind m f) Q.
Proof.
  intros Hm Hf w Hw. specialize (Hm w Hw). unfold bind.
  destruct (m w) as [[a|e|] w']; simpl in *; [by apply Hf|done|done].
Qed.

Lemma triple_weaken P P' (m : M A) (Q Q' : result A → world → Prop) :
  triple P' m Q' → (∀ w, P w → P' w) → (∀ r w, Q' r w → Q r w) → triple P m Q.
Proof. intros H HP HQ w Hw. apply HQ, H, HP, Hw. Qed.

Lemma maintains_bind I (m : M A) (f : A → M B) :
  maintains I m → (∀ a, maintains I (f a)) → maintains I (bind m f).
Proof.
  intros Hm Hf. apply triple_bind with (R := λ _, I); [|done].
  intros w Hw. specialize (Hm w Hw). by destruct (m w) as [[a|e|] w'].
Qed.

Lemma maintains_bind_val I (m : M A) (f : A → M B) (V : A → Prop) :
  triple I m (λ r w, I w ∧ ∀ a, r = Ok a → V a) →
  (∀ a, V a → maintains I (f a)) →
  maintains I (bind m f).
Proof.
  intros Hm Hf w Hw. specialize (Hm w Hw). unfold bind.
  destruct (m w) as [[a|e|] w']; simpl in *; [|tauto|tauto].
  destruct Hm as [Hw' Hv]. by apply Hf; [apply Hv|].
Qed.

Lemma maintains_ret I (a : A) : maintains I (ret a).
Proof. by intros w Hw. Qed.

Lemma maintains_raise I e : maintains I (raise (A := A) e).
Proof. by intros w Hw. Qed.

Lemma maintains_try_except I (m : M A) (h : exn → M A) :
  maintains I m → (∀ e, maintains I (h e)) → maintains I (try_except m h).
Proof.
  intros Hm Hh w Hw. specialize (Hm w Hw). unfold try_except.
  destruct (m w) as [[a|e|] w']; simpl in *; [done| |done]. by apply Hh.
Qed.

Lemma maintains_try_finally I (m : M A) (fin : M unit) :
  maintains I m → maintains I fin → maintains I (try_finally m fin).
Proof.
  intros Hm Hfin w Hw. specialize (Hm w Hw). unfold try_finally.
  destruct (m w) as [[a|e|] w']; simpl in *; [| |done];
    specialize (Hfin w' Hm); by destruct (fin w') as [[[]|e'|] w''].
Qed.

Lemma bind_assoc {C} (m : M A) (f : A → M B) (g : B → M C) w :
  bind (bind m f) g w = bind m (λ a, bind (f a) g) w.
Proof. unfold bind. by destruct (m w) as [[a|e|] w']. Qed.

End CoroutineFacts.

Section ConversationFacts.
Import World Conversation.

Implicit Types (w : world) (d : database) (sd : state_data) (msg : message).

(** **** Steps that leave the conversation where it is *)

Lemma steady_refl w : steady w w.
Proof. by repeat split. Qed.

Lemma steady_set_ticks w0 w n : steady w0 w → steady w0 (set_ticks n w).
Proof. done. Qed.

Lemma maintains_await w0 : maintains (steady w0) await.
Proof.
  intros w Hw. unfold await. by destruct (faults (env w) (ticks w)).
Qed.

Lemma maintains_await_safe w0 : maintains (steady w0) await_safe.
Proof.
  intros w Hw. unfold await_safe.
  by destruct (faults (env w) (ticks w)) as [[]|].
Qed.

Lemma maintains_get w0 : maintains (steady w0) get.
Proof. by intros w Hw. Qed.

Lemma maintains_reply w0 to_message body : maintains (steady w0) (reply to_message body).
Proof.
  unfold reply. apply maintains_bind; [apply maintains_await|]. intros _.
  apply maintains_bind; [apply maintains_get|]. intros w1.
  apply maintains_bind; [|intros; apply maintains_ret].
  by intros w Hw.
Qed.

Lemma premium_view_users w w' :
  env w' = env w → admin_id w' = admin_id w →
  (∀ u, default ∅ (premium <$> (db w' ≫= λ d, users d !! u))
        = default ∅ (premium <$> (db w ≫= λ d, users d !! u))) →
  ∀ u p, premium_view w' u p = premium_view w u p.
Proof.
  intros Henv Hadm Hprem u p.
  assert (∀ w1, premium_view w1 u p
                = is_admin w1 u
                  || premium_active (utcnow (env w1))
                       (default (PremiumInfo None None None)
                          (default ∅ (premium <$> (db w1 ≫= λ d, users d !! u)) !! p)))
    as Hview.
  { intros w1. unfold premium_view. f_equal.
    destruct (db w1) as [d1|]; simpl; [|done]. by destruct (users d1 !! u). }
  rewrite !Hview, Hprem. unfold is_admin. by rewrite Henv, Hadm.
Qed.

Lemma maintains_touch_last_active w0 u : maintains (steady w0) (touch_last_active u).
Proof.
  intros w (Hst & Hf & Htr & Henv & Hadm & Hund & Hprem). unfold touch_last_active.
  run_m. destruct (db w) as [d|] eqn:Hdb; simpl;
    [|by repeat split; simpl; rewrite ?Hdb].
  destruct (faults (env w) (ticks w)); simpl.
  { repeat split; simpl; rewrite ?Hdb; try done. }
  rewrite Hdb. simpl. unfold steady. simpl. split_and!; try done.
  intros u' p. rewrite <- Hprem. apply premium_view_users; simpl; [done|done|].
  intros u''. rewrite Hdb. simpl.
  destruct (decide (u = u'')) as [<-|Hne].
  - rewrite lookup_insert_eq. simpl. by destruct (users d !! u).
  - by rewrite lookup_insert_ne.
Qed.

Lemma stored_state_steady w0 w u : steady w0 w → stored_state w u = stored_state w0 u.
Proof.
  intros (Hst & _). unfold stored_state.
  destruct (db w) as [d|], (db w0) as [d0|]; simpl in *; try done.
  by injection Hst as ->.
Qed.

Lemma get_user_state_steady w0 u :
  triple (steady w0) (_get_user_state u)
    (λ r w, steady w0 w ∧ ∀ sd, r = Ok sd → sd = stored_state w0 u).
Proof.
  intros w Hw. pose proof (stored_state_steady _ _ u Hw) as Hss.
  unfold stored_state in Hss. unfold _get_user_state. run_m.
  destruct (db w) as [d|] eqn:Hdb; simpl in *.
  - destruct (faults (env w) (ticks w)); simpl; [done|].
    rewrite Hdb. simpl. split; [done|]. by intros sd [= <-].
  - split; [done|]. by intros sd [= <-].
Qed.

(** Marking a lapsed entry as expired changes no premium decision. *)
Lemma premium_active_mark_expired now platform doc p :
  premium_active now
    (default (PremiumInfo None None None) (premium doc !! platform)) = false →
  premium_active now
    (default (PremiumInfo None None None)
       (premium (mark_expired platform doc) !! p))
  = premium_active now
      (default (PremiumInfo None None None) (premium doc !! p)).
Proof.
  intros Hfalse. unfold mark_expired. simpl.
  destruct (decide (platform = p)) as [<-|Hne].
  - rewrite lookup_insert_eq. simpl. rewrite Hfalse.
    unfold premium_active. simpl. by rewrite orb_true_r.
  - by rewrite lookup_insert_ne.
Qed.

Lemma is_premium_steady w0 u p :
  triple (steady w0) (is_premium_for_platform u p)
    (λ r w, steady w0 w ∧ ∀ b, r = Ok b → b = premium_view w0 u p).
Proof.
  intros w Hw. pose proof Hw as (_ & _ & _ & Henv & Hadm & _ & Hprem).
  specialize (Hprem u p). unfold premium_view in Hprem at 1.
  unfold is_premium_for_platform, _get_user_data. run_m.
  destruct (is_admin w u) eqn:Hadmin; simpl in *.
  { split; [done|]. by intros b [= <-]. }
  destruct (db w) as [d|] eqn:Hdb; simpl in *.
  2:{ split; [done|]. by intros b [= <-]. }
  rewrite Hdb. simpl.
  destruct (faults (env w) (ticks w)) eqn:Hf1; simpl; [done|].
  rewrite Hdb. simpl.
  destruct (users d !! u) as [doc|] eqn:Hdoc; simpl in *.
  2:{ split; [done|]. by intros b [= <-]. }
  set (info := default (PremiumInfo None None None) (premium doc !! p)) in *.
  unfold premium_active in Hprem.
  destruct (premium_empty info || bool_decide (premium_status info = Some "expired"))
    eqn:Hdead; simpl in *.
  { split; [done|]. by intros b [= <-]. }
  destruct (bool_decide (premium_type info = Some "lifetime")) eqn:Hlife; simpl in *.
  { split; [done|]. by intros b [= <-]. }
  destruct (premium_until info) as [until|] eqn:Huntil; simpl in *.
  2:{ split; [done|]. by intros b [= <-]. }
  destruct (utcnow (env w) <? until) eqn:Hnow; simpl in *.
  { split; [done|]. by intros b [= <-]. }
  destruct (truthy (premium_type info)) eqn:Htype; simpl in *.
  2:{ split; [done|]. by intros b [= <-]. }
  destruct (faults (env w) (S (ticks w))) eqn:Hf2; simpl; [done|].
  rewrite Hdb. simpl. split; [|by intros b [= <-]].
  destruct Hw as (Hst & Hfiles & Htr & _ & _ & Hund & Hall).
  unfold steady. simpl. split_and!; try done.
  { by rewrite <- Hst, Hdb. }
  intros u' p'. rewrite <- Hall. unfold premium_view, is_admin. simpl.
  rewrite Hdb. f_equal. destruct (decide (u = u')) as [<-|Hne].
  - rewrite lookup_alter_eq, Hdoc. simpl.
    apply premium_active_mark_expired. fold info.
    unfold premium_active. by rewrite Hdead, Hlife, Huntil, Hnow.
  - by rewrite lookup_alter_ne.
Qed.

Lemma maintains_lock w0 (f : world → gset Z) :
  maintains (steady w0) (modify (λ w, set_user_upload_locks (f w) w)).
Proof. by intros w Hw. Qed.

Lemma maintains_with_user_lock w0 (handler : message → M unit) msg :
  maintains (steady w0) (handler msg) →
  maintains (steady w0) (with_user_lock handler msg).
Proof.
  intros Hh. unfold with_user_lock.
  apply maintains_bind; [apply maintains_get|]. intros w1.
  destruct (bool_decide (from_user msg ∈ user_upload_locks w1)).
  - apply maintains_bind; [apply maintains_reply|]. intros _. apply maintains_ret.
  - apply maintains_bind; [apply maintains_lock|]. intros _.
    apply maintains_try_finally; [done|apply maintains_lock].
Qed.

(** A caption over the limit from a user who is not premium ends the
    single-upload caption step where it began. *)
Lemma caption_step_over_limit other w0 msg fi :
  action (stored_state w0 (from_user msg)) = Some "waiting_for_caption" →
  sd_file_info (stored_state w0 (from_user msg)) = Some fi →
  premium_view w0 (from_user msg) (fi_platform fi) = false →
  (280 < Text.len (text msg))%nat →
  maintains (steady w0) (handle_text_input other msg).
Proof.
  intros Hact Hfi Hprem Hlen. unfold handle_text_input.
  eapply maintains_bind_val; [apply get_user_state_steady|]. simpl. intros sd ->.
  apply maintains_bind; [apply maintains_touch_last_active|]. intros _.
  assert (is_empty (stored_state w0 (from_user msg)) = false) as ->.
  { unfold is_empty. apply bool_decide_eq_false. intros Heq.
    by rewrite Heq in Hact. }
  rewrite decide_True by done. rewrite Hfi.
  eapply maintains_bind_val; [apply is_premium_steady|]. simpl. intros b ->.
  rewrite Hprem. simpl. apply Nat.ltb_lt in Hlen. rewrite Hlen.
  apply maintains_bind; [apply maintains_reply|]. intros _. apply maintains_ret.
Qed.

(** C8 (as the code has it).  In the caption step of a single upload
    ([waiting_for_caption]), a caption of more than 280 characters from a
    user who is not premium changes nothing: whatever the collaborators
    answer, the stored conversation states, and with them the user's state
    and job data, are as before, no file is fetched and no task is
    spawned. *)
Theorem caption_ceiling_single_upload other w msg fi :
  action (stored_state w (from_user msg)) = Some "waiting_for_caption" →
  sd_file_info (stored_state w (from_user msg)) = Some fi →
  premium_view w (from_user msg) (fi_platform fi) = false →
  (280 < Text.len (text msg))%nat →
  let w' := (with_user_lock (handle_text_input other) msg w).2 in
  (user_states <$> db w') = (user_states <$> db w)
  ∧ stored_state w' (from_user msg) = stored_state w (from_user msg)
  ∧ files w' = files w
  ∧ task_tracker w' = task_tracker w.
Proof.
  intros Hact Hfi Hprem Hlen w'.
  assert (steady w w') as Hst.
  { apply (maintains_with_user_lock w (handle_text_input other) msg);
      [|apply steady_refl].
    by apply caption_step_over_limit with (fi := fi). }
  pose proof (stored_state_steady _ _ (from_user msg) Hst) as Hss.
  destruct Hst as (? & ? & ? & _). done.
Qed.

Lemma caption_ceiling_single_upload_witness :
  let w := sample_world (state_of "waiting_for_caption" sample_file_info) in
  let msg := Message 50 7 7 long_caption None None None in
  action (stored_state w (from_user msg)) = Some "waiting_for_caption"
  ∧ sd_file_info (stored_state w (from_user msg)) = Some sample_file_info
  ∧ premium_view w (from_user msg) (fi_platform sample_file_info) = false
  ∧ (280 < Text.len (text msg))%nat
  ∧ let w' := (with_user_lock (handle_text_input no_other_flows) msg w).2 in
    (user_states <$> db w') = (user_states <$> db w)
    ∧ stored_state w' (from_user msg) = stored_state w (from_user msg)
    ∧ files w' = files w
    ∧ task_tracker w' = task_tracker w.
Proof.
  intros w msg.
  assert (280 < Text.len (text msg))%nat as Hlen by (vm_compute; lia).
  split_and!; [reflexivity | reflexivity | reflexivity | exact Hlen |].
  apply (caption_ceiling_single_upload no_other_flows w msg sample_file_info);
    [reflexivity | reflexivity | reflexivity | exact Hlen].
Defined.

(** C8 as stated fails in the caption step of a bulk upload that takes
    one caption for all items: a caption of 281 characters from a user
    whose plan has lapsed is stored for every item and the conversation
    moves on to the scheduling options. *)
Lemma bulk_caption_over_limit_accepted :
  let w := sample_world bulk_caption_state in
  let msg := Message 50 7 7 long_caption None None None in
  let w' := (with_user_lock (handle_text_input no_other_flows) msg w).2 in
  premium_view w 7 "instagram" = false
  ∧ Text.len (text msg) = 281%nat
  ∧ action (stored_state w 7) = Some "waiting_for_bulk_single_caption"
  ∧ action (stored_state w' 7) = Some "waiting_for_schedule_options"
  ∧ bulk_captions (stored_state w' 7) = Some [Some long_caption; Some long_caption]
  ∧ stored_state w' 7 ≠ stored_state w 7.
Proof.
  intros w msg w'.
  assert (action (stored_state w' 7) = Some "waiting_for_schedule_options") as Hact
    by (vm_compute; reflexivity).
  split_and!; [reflexivity | vm_compute; reflexivity | reflexivity | exact Hact
               | vm_compute; reflexivity |].
  intros Heq. rewrite Heq in Hact. discriminate Hact.
Qed.

(** **** The inactivity timer *)

Lemma truthy_Some p : p ≠ EmptyString → truthy (Some p) = true.
Proof. intros Hp. unfold truthy. by rewrite bool_decide_false. Qed.



(** **** Steps when nothing fails *)

Lemma no_faults_env w w' : env w' = env w → no_faults w → no_faults w'.
Proof. unfold no_faults. by intros ->. Qed.

Lemma await_ok w : no_faults w → await w = (Ok tt, set_ticks (S (ticks w)) w).
Proof. intros Hnf. unfold await. by rewrite Hnf. Qed.

Lemma await_safe_ok w :
  no_faults w → await_safe w = (Ok true, set_ticks (S (ticks w)) w).
Proof. intros Hnf. unfold await_safe. by rewrite Hnf. Qed.


Lemma get_user_state_ok w u d :
  no_faults w → db w = Some d →
  _get_user_state u w = (Ok (stored_state w u), set_ticks (S (ticks w)) w).
Proof.
  intros Hnf Hdb. unfold _get_user_state, stored_state, bind at 1, get.
  rewrite Hdb. rewrite (run_bind _ _ _ _ _ (await_ok w Hnf)).
  unfold bind, the_db, ret. simpl. by rewrite Hdb.
Qed.

Lemma clear_user_state_ok w u d :
  no_faults w → db w = Some d →
  _clear_user_state u w
  = (Ok tt, set_db (Some (set_user_states (delete u (user_states d)) d))
              (set_ticks (S (ticks w)) w)).
Proof.
  intros Hnf Hdb. unfold _clear_user_state, bind at 1, get.
  rewrite Hdb. rewrite (run_bind _ _ _ _ _ (await_ok w Hnf)).
  unfold modify_db, modify. simpl. by rewrite Hdb.
Qed.

Lemma save_user_state_ok w u sd d :
  no_faults w → db w = Some d →
  _save_user_state u sd w
  = (Ok tt, set_db (Some (set_user_states (<[u := sd]> (user_states d)) d))
              (set_ticks (S (ticks w)) w)).
Proof.
  intros Hnf Hdb. unfold _save_user_state, bind at 1, get.
  rewrite Hdb. rewrite (run_bind _ _ _ _ _ (await_ok w Hnf)).
  unfold modify_db, modify. simpl. by rewrite Hdb.
Qed.

Lemma touch_last_active_ok w u d :
  no_faults w → db w = Some d →
  touch_last_active u w
  = (Ok tt,
     set_db (Some (set_users
                     (<[u := UserDoc (Some (utcnow (env w)))
                               (premium (default (UserDoc None ∅) (users d !! u)))]>
                        (users d)) d))
       (set_ticks (S (ticks w)) w)).
Proof.
  intros Hnf Hdb. unfold touch_last_active, bind at 1, get.
  rewrite Hdb. rewrite (run_bind _ _ _ _ _ (await_ok w Hnf)).
  unfold modify_db, modify. simpl. by rewrite Hdb.
Qed.

Lemma reply_ok w to_message body :
  no_faults w →
  reply to_message body w
  = (Ok (next_message_id w),
     set_transport (next_message_id w + 1) (Reply to_message body :: outbox w)
       (set_ticks (S (ticks w)) w)).
Proof.
  intros Hnf. unfold reply. by rewrite (run_bind _ _ _ _ _ (await_ok w Hnf)).
Qed.


Lemma safe_edit_message_ok w m body :
  no_faults w →
  safe_edit_message (Some m) body w
  = (Ok tt, set_transport (next_message_id w) (Edit m body :: outbox w)
              (set_ticks (S (ticks w)) w)).
Proof.
  intros Hnf. unfold safe_edit_message.
  by rewrite (run_bind _ _ _ _ _ (await_safe_ok w Hnf)).
Qed.







(** The scenario of the timer, run on the sample world: after the fetch
    and the timer, user 7 has no state, the fetched file is gone and the
    last thing sent is the one timeout notice. *)
Example inactivity_timeout_scenario :
  let w := sample_world (state_of "finalizing_upload" sample_file_info) in
  let msg := Message 50 7 7 "" (Some (Media "file-9" 1000)) None None in
  let w1 := (_deferred_download_and_show_options msg sample_file_info w).2 in
  let w2 := (timeout_task 7 1 w1).2 in
  files w1 = {[ "downloads/clip.mp4" ]}
  ∧ Tasks.registered (task_tracker w1) 7 "timeout" = Some 1%nat
  ∧ files w2 = ∅
  ∧ stored_state w2 7 = no_state
  ∧ outbox w2
    = [ Edit 1 timeout_notice;
        Edit 1 "Media Ready. Choose Options Or Upload:";
        Reply 50 "Starting Download..." ].
Proof. intros w msg w1 w2. split_and!; vm_compute; reflexivity. Qed.

(** **** Steps that only touch [db.users] *)

Lemma touched_users_refl w : touched_users w w.
Proof.
  exists (ticks w), (default ∅ (users <$> db w)).
  destruct w as [? ? ? ? [[]|] ? ? ? ? ? ? ? ? ? ? ? ? ?]; reflexivity.
Qed.

Lemma touched_users_trans w1 w2 w3 :
  touched_users w1 w2 → touched_users w2 w3 → touched_users w1 w3.
Proof.
  intros (n & us & ->) (n' & us' & ->). exists n', us'.
  destruct w1 as [? ? ? ? [[]|] ? ? ? ? ? ? ? ? ? ? ? ? ?]; reflexivity.
Qed.

Lemma touched_users_ticks w n : touched_users w (set_ticks n w).
Proof.
  exists n, (default ∅ (users <$> db w)).
  destruct w as [? ? ? ? [[]|] ? ? ? ? ? ? ? ? ? ? ? ? ?]; reflexivity.
Qed.

Lemma touched_users_set w n us d :
  db w = Some d →
  touched_users w (set_db (Some (set_users us d)) (set_ticks n w)).
Proof. intros Hdb. exists n, us. by rewrite Hdb. Qed.

Lemma touched_users_frame w w' :
  touched_users w w' →
  env w' = env w ∧ (user_states <$> db w') = (user_states <$> db w)
  ∧ outbox w' = outbox w ∧ next_message_id w' = next_message_id w
  ∧ user_upload_locks w' = user_upload_locks w
  ∧ max_file_size_bytes w' = max_file_size_bytes w
  ∧ admin_id w' = admin_id w ∧ files w' = files w
  ∧ task_tracker w' = task_tracker w.
Proof.
  intros (n & us & ->). simpl. split_and!; try done. by destruct (db w).
Qed.

Lemma is_premium_ok w u p :
  no_faults w →
  ∃ b w', is_premium_for_platform u p w = (Ok b, w') ∧ touched_users w w'.
Proof.
  intros Hnf. unfold is_premium_for_platform, _get_user_data. run_m.
  destruct (is_admin w u); simpl.
  { eexists _, _. split; [done|apply touched_users_refl]. }
  destruct (db w) as [d|] eqn:Hdb; simpl.
  2:{ eexists _, _. split; [done|apply touched_users_refl]. }
  rewrite Hdb. simpl. rewrite Hnf. simpl. rewrite Hdb. simpl.
  destruct (users d !! u) as [doc|]; simpl.
  2:{ eexists _, _. split; [done|apply touched_users_ticks]. }
  repeat (match goal with
          | |- context [if ?b then _ else _] => destruct b; simpl
          | |- context [match premium_until ?i with _ => _ end] =>
              destruct (premium_until i); simpl
          end;
          try (eexists _, _; split; [done|apply touched_users_ticks])).
  rewrite Hnf. simpl. rewrite Hdb. simpl.
  eexists _, _. split; [done|]. by apply (touched_users_set w _ _ d).
Qed.

(** For a user who is not the admin, the reported type is ["free"] or
    the plan type on record. *)
Lemma get_user_premium_type_ok w u d :
  no_faults w → db w = Some d → is_admin w u = false →
  ∃ t w',
    get_user_premium_type u w = (Ok t, w')
    ∧ touched_users w w'
    ∧ (t = "free" ∨ t = default "premium" (plan_type w u)).
Proof.
  intros Hnf Hdb Hadm. unfold get_user_premium_type, _get_user_data.
  rewrite get_bind, Hadm, bind_assoc, get_bind, Hdb, bind_assoc.
  rewrite (run_bind _ _ _ _ _ (await_ok w Hnf)), bind_assoc.
  unfold the_db at 1. unfold bind at 1. simpl. rewrite Hdb. rewrite ret_bind.
  destruct (users d !! u) as [doc|] eqn:Hdoc.
  2:{ eexists _, _. split; [done|]. split; [apply touched_users_ticks|by left]. }
  destruct (is_premium_ok (set_ticks (S (ticks w)) w) u "instagram")
    as (b & w' & Hrun & Htouch); [by eapply no_faults_env|].
  rewrite (run_bind _ _ _ _ _ Hrun).
  assert (touched_users w w') as Ht.
  { eapply touched_users_trans; [apply touched_users_ticks|done]. }
  destruct b.
  - eexists _, _. split; [done|]. split; [done|]. right.
    unfold plan_type. rewrite Hdb. simpl. rewrite Hdoc. simpl.
    by destruct (premium doc !! "instagram").
  - eexists _, _. split; [done|]. split; [done|by left].
Qed.

(** The size check of [handle_media_upload]: a file over the limit from
    a user who is not an admin deletes the user's whole state. *)
Lemma handle_media_upload_oversize admin_flows w msg media d sd act :
  no_faults w → db w = Some d →
  user_states d !! from_user msg = Some sd →
  action sd = Some act → act ∈ valid_actions →
  media_of msg = Some media →
  max_file_size_bytes w < file_size media →
  is_admin w (from_user msg) = false →
  plan_type w (from_user msg) ≠ Some "admin" →
  ∃ w',
    handle_media_upload admin_flows msg w = (Ok tt, w')
    ∧ (db w' ≫= (λ d', user_states d' !! from_user msg)) = None
    ∧ outbox w' = Reply (msg_id msg) oversize_notice :: outbox w
    ∧ user_upload_locks w' = user_upload_locks w
    ∧ files w' = files w
    ∧ task_tracker w' = task_tracker w.
Proof.
  intros Hnf Hdb Hsd Hact Hvalid Hmedia Hsize Hadm Hplan.
  set (u := from_user msg) in *.
  unfold handle_media_upload. fold u.
  rewrite (run_bind _ _ _ _ _ (touch_last_active_ok w u d Hnf Hdb)).
  set (d1 := set_users _ d). set (w1 := set_db _ _).
  assert (no_faults w1) as Hnf1 by (by eapply no_faults_env).
  assert (db w1 = Some d1) as Hdb1 by done.
  rewrite (run_bind _ _ _ _ _ (get_user_state_ok w1 u d1 Hnf1 Hdb1)).
  assert (stored_state w1 u = sd) as ->.
  { unfold stored_state. rewrite Hdb1. simpl. by rewrite Hsd. }
  set (w2 := set_ticks _ w1). rewrite get_bind.
  assert (is_admin w2 u = false) as Hadm2 by done.
  rewrite Hadm2. cbn [andb].
  rewrite Hact. cbn [default].
  rewrite (bool_decide_true (act ∈ valid_actions)) by done. cbn [negb].
  rewrite Hmedia.
  assert (no_faults w2) as Hnf2 by (by eapply no_faults_env).
  assert (db w2 = Some d1) as Hdb2 by done.
  destruct (get_user_premium_type_ok w2 u d1 Hnf2 Hdb2 Hadm2)
    as (t & w3 & Hrun & Htouch & Ht).
  rewrite (run_bind _ _ _ _ _ Hrun).
  assert (plan_type w2 u = plan_type w u) as Hplan2.
  { unfold plan_type. rewrite Hdb2, Hdb. simpl. subst d1. simpl.
    rewrite lookup_insert_eq. simpl. by destruct (users d !! u). }
  assert (t ≠ "admin") as Hnot.
  { destruct Ht as [-> | ->]; [done|]. rewrite Hplan2.
    destruct (plan_type w u) as [ty|]; simpl; [|done]. congruence. }
  assert ((max_file_size_bytes w2 <? file_size media) = true) as ->
    by (by apply Z.ltb_lt).
  rewrite (bool_decide_false (t = "admin")) by done. cbn [negb andb].
  destruct (touched_users_frame _ _ Htouch)
    as (Henv3 & Hst3 & Hout3 & Hnx3 & Hlk3 & _ & _ & Hf3 & Htr3).
  assert (∃ d3, db w3 = Some d3 ∧ user_states d3 = user_states d) as (d3 & Hdb3 & Hus3).
  { rewrite Hdb2 in Hst3. destruct (db w3) as [d3|]; [|done].
    exists d3. split; [done|]. by injection Hst3. }
  assert (no_faults w3) as Hnf3 by (by eapply no_faults_env).
  rewrite (run_bind _ _ _ _ _ (clear_user_state_ok w3 u d3 Hnf3 Hdb3)).
  set (w4 := set_db _ _).
  assert (no_faults w4) as Hnf4 by (by eapply no_faults_env).
  rewrite (run_bind _ _ _ _ _ (reply_ok w4 (msg_id msg) _ Hnf4)).
  eexists. split; [reflexivity|]. simpl.
  rewrite lookup_delete_eq, Hout3, Hlk3, Hf3, Htr3. done.
Qed.

(** C10.  For a user who is not an admin and is in one of the states
    that collect media, a file larger than the configured maximum makes
    the handler delete the user's whole conversation state, whatever has
    been collected in it, and answer with the size notice.  The handler
    runs when the user's lock is free; no collaborator fails. *)
Theorem oversize_media_clears_state admin_flows w msg media d sd act :
  no_faults w → db w = Some d →
  from_user msg ∉ user_upload_locks w →
  user_states d !! from_user msg = Some sd →
  action sd = Some act → act ∈ valid_actions →
  media_of msg = Some media →
  max_file_size_bytes w < file_size media →
  is_admin w (from_user msg) = false →
  plan_type w (from_user msg) ≠ Some "admin" →
  ∃ w',
    with_user_lock (handle_media_upload admin_flows) msg w = (Ok tt, w')
    ∧ (db w' ≫= (λ d', user_states d' !! from_user msg)) = None
    ∧ stored_state w' (from_user msg) = no_state
    ∧ outbox w' = Reply (msg_id msg) oversize_notice :: outbox w.
Proof.
  intros Hnf Hdb Hlock Hsd Hact Hvalid Hmedia Hsize Hadm Hplan.
  unfold with_user_lock. rewrite get_bind.
  rewrite (bool_decide_false (from_user msg ∈ user_upload_locks w)) by done.
  rewrite modify_bind. set (wl := set_user_upload_locks _ w).
  destruct (handle_media_upload_oversize admin_flows wl msg media d sd act)
    as (wh & Hrun & Hgone & Hout & _); try done.
  unfold try_finally. rewrite Hrun. unfold modify.
  eexists. split; [reflexivity|]. simpl.
  unfold stored_state. simpl. rewrite Hgone. done.
Qed.

Lemma oversize_media_clears_state_witness :
  let w := sample_world album_state in
  no_faults w
  ∧ (from_user oversize_message ∉ user_upload_locks w)
  ∧ media_file_ids album_state = Some ["file-1"; "file-2"]
  ∧ max_file_size_bytes w < 300 * 1024 * 1024
  ∧ is_admin w (from_user oversize_message) = false
  ∧ ∃ w',
      with_user_lock (handle_media_upload no_other_flows) oversize_message w
      = (Ok tt, w')
      ∧ (db w' ≫= (λ d', user_states d' !! from_user oversize_message)) = None
      ∧ stored_state w' (from_user oversize_message) = no_state
      ∧ outbox w' = Reply (msg_id oversize_message) oversize_notice :: outbox w.
Proof.
  intros w.
  assert (no_faults w) as Hnf by (intros k; reflexivity).
  split_and!; [exact Hnf | set_solver | reflexivity | reflexivity | reflexivity |].
  apply (oversize_media_clears_state no_other_flows w oversize_message
           (Media "file-3" (300 * 1024 * 1024))
           (Database {[ 7 := lapsed_user ]} {[ 7 := album_state ]} ∅ ∅ ∅ [])
           album_state "waiting_for_album_media" Hnf eq_refl);
    [set_solver | reflexivity | reflexivity | by vm_compute; set_solver
    | reflexivity | reflexivity | reflexivity | vm_compute; discriminate].
Defined.

End ConversationFacts.

Section PipelineFacts.
Import World Pipeline.

Implicit Types (w : world) (I : world → Prop).

Lemma disk_frame_refl w : disk_frame w w.
Proof. by repeat split. Qed.

Lemma disk_frame_trans w1 w2 w3 :
  disk_frame w1 w2 → disk_frame w2 w3 → disk_frame w1 w3.
Proof.
  intros (?&?&?&?&?&?&?&?&?) (?&?&?&?&?&?&?&?&?).
  repeat split; congruence.
Qed.

Lemma quiet_ret {A} (a : A) : quiet (ret a).
Proof. intros w. split; [done|apply disk_frame_refl]. Qed.

Lemma quiet_raise {A} e : quiet (raise (A := A) e).
Proof. intros w. split; [done|apply disk_frame_refl]. Qed.

Lemma quiet_get : quiet get.
Proof. intros w. split; [done|apply disk_frame_refl]. Qed.

Lemma quiet_modify (f : world → world) :
  (∀ w, disk_frame w (f w)) → quiet (modify f).
Proof. intros H w. split; [done|apply H]. Qed.

Lemma quiet_bind {A B} (m : M A) (f : A → M B) :
  quiet m → (∀ a, quiet (f a)) → quiet (bind m f).
Proof.
  intros Hm Hf w. destruct (Hm w) as [Hr Hw]. unfold bind.
  destruct (m w) as [[a| |] w1]; simpl in *; [|done..].
  destruct (Hf a w1) as [Hr' Hw']. split; [done|].
  by eapply disk_frame_trans.
Qed.

Lemma quiet_try_except {A} (m : M A) (h : exn → M A) :
  quiet m → (∀ e, quiet (h e)) → quiet (try_except m h).
Proof.
  intros Hm Hh w. destruct (Hm w) as [Hr Hw]. unfold try_except.
  destruct (m w) as [[a|e|] w1]; simpl in *; [done| |done].
  destruct (Hh e w1) as [Hr' Hw']. split; [done|].
  by eapply disk_frame_trans.
Qed.

Lemma quiet_await : quiet await.
Proof.
  intros w. unfold await.
  destruct (faults (env w) (ticks w)); by repeat split.
Qed.

Lemma quiet_await_safe : quiet await_safe.
Proof.
  intros w. unfold await_safe.
  destruct (faults (env w) (ticks w)) as [[]|]; by repeat split.
Qed.

Lemma quiet_the_db : quiet the_db.
Proof. intros w. unfold the_db. destruct (db w); by repeat split. Qed.

(** Takes a computation apart down to the suspension points and the
    updates of the store, the transport and the tracker. *)
Ltac quiet :=
  repeat first
    [ apply quiet_ret | apply quiet_raise | apply quiet_get
    | apply quiet_await | apply quiet_await_safe | apply quiet_the_db
    | (apply quiet_modify; intros ?; by repeat split)
    | (apply quiet_try_except; [|intros ?])
    | (apply quiet_bind; [|intros ?])
    | match goal with
      | |- quiet (match ?x with _ => _ end) => destruct x
      end ].

Lemma quiet_safe_edit_message m text : quiet (safe_edit_message m text).
Proof. unfold safe_edit_message, push_sent. quiet. Qed.

Lemma quiet_send_message u text : quiet (send_message u text).
Proof. unfold send_message. quiet. Qed.

Lemma quiet_get_user_settings u : quiet (get_user_settings u).
Proof. unfold get_user_settings. quiet. Qed.

Lemma quiet_is_premium_for_platform u platform :
  quiet (is_premium_for_platform u platform).
Proof. unfold is_premium_for_platform, _get_user_data, modify_db. quiet. Qed.

Lemma quiet_load_platform_session_data u platform name :
  quiet (load_platform_session_data u platform name).
Proof. unfold load_platform_session_data. quiet. Qed.

Lemma quiet_clear_user_state u : quiet (_clear_user_state u).
Proof. unfold _clear_user_state, modify_db. quiet. Qed.

Lemma quiet_set_schedule_status id st : quiet (set_schedule_status id st).
Proof. unfold set_schedule_status, modify_db. quiet. Qed.

Lemma quiet_open_session u s : quiet (open_session u s).
Proof.
  unfold open_session. quiet; apply quiet_load_platform_session_data.
Qed.

Lemma quiet_find_usertags names : quiet (find_usertags names).
Proof. induction names as [|n names IH]; simpl; quiet. apply IH. Qed.

Lemma quiet_upload_first paths : quiet (upload_first paths).
Proof. unfold upload_first. quiet. Qed.

Lemma quiet_publish upload_type paths : quiet (publish upload_type paths).
Proof. unfold publish. quiet; apply quiet_upload_first. Qed.

Lemma quiet_record_outcome u fi sch sid : quiet (record_outcome u fi sch sid).
Proof.
  unfold record_outcome, modify_db. quiet; apply quiet_set_schedule_status.
Qed.

Lemma quiet_announce msg u sch sid : quiet (announce msg u sch sid).
Proof.
  unfold announce. quiet;
    first [apply quiet_send_message | apply quiet_set_schedule_status].
Qed.

Lemma ends_ret {A} P (a : A) (R : A → world → Prop) E :
  (∀ w, P w → R a w) → ends P (ret a) R E.
Proof. intros H w Hw. by apply H. Qed.

Lemma ends_raise {A} P e (R : A → world → Prop) (E : world → Prop) :
  (∀ w, P w → E w) → ends P (raise e) R E.
Proof. intros H w Hw. by apply H. Qed.

Lemma ends_bind {A B} P (m : M A) (f : A → M B) (R : A → world → Prop)
    (Q : B → world → Prop) E :
  ends P m R E → (∀ a, ends (R a) (f a) Q E) → ends P (bind m f) Q E.
Proof.
  intros Hm Hf w Hw. specialize (Hm w Hw). unfold bind.
  destruct (m w) as [[a|e|] w1]; simpl in *; [|done..]. by apply Hf.
Qed.

Lemma ends_get_bind {B} P (k : world → M B) (Q : B → world → Prop) E :
  (∀ v, P v → ends (λ w, w = v) (k v) Q E) → ends P (bind get k) Q E.
Proof. intros H w Hw. by apply (H w Hw w). Qed.

Lemma ends_at {A} P v (m : M A) (R : A → world → Prop) E :
  P v → ends P m R E → ends (λ w, w = v) m R E.
Proof. intros Hv H w ->. by apply H. Qed.

Lemma ends_weaken {A} P P' (m : M A) (R R' : A → world → Prop) E E' :
  ends P' m R' E' → (∀ w, P w → P' w) → (∀ a w, R' a w → R a w) →
  (∀ w, E' w → E w) → ends P m R E.
Proof.
  intros H HP HR HE w Hw. specialize (H w (HP w Hw)).
  destruct (m w) as [[a|e|] w1]; simpl in *; auto.
Qed.

Lemma ends_try_except {A} P (m : M A) (h : exn → M A)
    (R : A → world → Prop) E E' :
  ends P m R E' → (∀ e, ends E' (h e) R E) → ends P (try_except m h) R E.
Proof.
  intros Hm Hh w Hw. specialize (Hm w Hw). unfold try_except.
  destruct (m w) as [[a|e|] w1]; simpl in *; [done| |done]. by apply Hh.
Qed.

Lemma ends_quiet {A} P (P' : world → Prop) (m : M A) :
  quiet m → (∀ w w', P w → disk_frame w w' → P' w') →
  ends P m (λ _, P') P'.
Proof.
  intros Hm H w Hw. destruct (Hm w) as [Hr Hf].
  destruct (m w) as [[a|e|] w1]; simpl in *; [by eapply H..|done].
Qed.

(** **** What is on disk while the permit is held *)

Lemma tidy_frame w0 seen w w' :
  tidy w0 seen w → disk_frame w w' → tidy w0 seen w'.
Proof.
  intros [] (He & Hl & _ & Hs & Hu & Hf & _ & Hun & Hpo).
  split; rewrite ?He, ?Hl, ?Hs, ?Hu, ?Hf, ?Hun, ?Hpo; done.
Qed.

Lemma tidy_mono w0 seen seen' w :
  seen' ⊆ seen → tidy w0 seen w → tidy w0 seen' w.
Proof. intros Hsub []. split; try done. by etrans. Qed.

Lemma tidy_loose w0 seen q w : tidy w0 seen w → loose w0 seen q w.
Proof.
  intros []. split; [done|]. split; simpl; try done.
  - intros x Hx. apply elem_of_app. left. by apply tidy_seen0.
  - intros p Hp. destruct (tidy_files0 p Hp) as [?|[?|[?|[? ?]]]]; auto.
    do 3 right. split; [|done]. apply elem_of_app. by left.
Qed.

Lemma loose_record w0 seen q w :
  loose w0 seen q w → tidy w0 (q :: seen) (record_file q w).2.
Proof.
  intros [Hseen []]. split; try done. simpl.
  intros x [-> | Hx]%elem_of_cons; apply elem_of_app.
  - right. by apply list_elem_of_singleton.
  - left. by apply Hseen.
Qed.

Lemma loose_known w0 seen q w : q ∈ seen → loose w0 seen q w → tidy w0 seen w.
Proof.
  intros Hq [Hseen []]. simpl in *. split; try done.
  intros p Hp. destruct (tidy_files0 p Hp) as [?|[?|[?|[Hin ?]]]]; auto.
  do 3 right. split; [|done].
  apply elem_of_app in Hin as [? | ->%list_elem_of_singleton]; [done|].
  by apply Hseen.
Qed.

(** A collaborator writes [p] and hands the path back. *)
Lemma tidy_write w0 seen p w :
  p ≠ EmptyString → tidy w0 seen w → loose w0 seen (Some p) (write_file p w).2.
Proof.
  intros Hp []. split; [done|]. split; simpl; try done.
  - intros x Hx. apply elem_of_app. left. by apply tidy_seen0.
  - intros p' [->%elem_of_singleton | Hin]%elem_of_union.
    + do 3 right. split; [|done]. apply elem_of_app. right.
      by apply list_elem_of_singleton.
    + destruct (tidy_files0 p' Hin) as [?|[?|[?|[? ?]]]]; auto.
      do 3 right. split; [|done]. apply elem_of_app. by left.
Qed.

(** The watermark image is written. *)
Lemma tidy_write_cache w0 seen image_id w :
  tidy w0 seen w → tidy w0 seen (write_file (watermark_cache image_id) w).2.
Proof.
  intros []. split; simpl; try done.
  intros p' [->%elem_of_singleton | Hin]%elem_of_union; [|by apply tidy_files0].
  right. left. by exists image_id.
Qed.

(** A tool leaves one of the files [partial_outputs] names. *)
Lemma tidy_write_partial w0 seen p w :
  is_tool_output p → p ∈ partial_outputs w →
  tidy w0 seen w → tidy w0 seen (write_file p w).2.
Proof.
  intros Hout Hp []. split; simpl; try done.
  intros p' [->%elem_of_singleton | Hin]%elem_of_union; [|by apply tidy_files0].
  right. right. left. split; [done|]. by rewrite <- tidy_partial_outputs0.
Qed.

Lemma leave_behind_spec w0 seen paths :
  tool_files paths → ∀ w,
  tidy w0 seen w →
  (leave_behind paths w).1 = Ok tt ∧ tidy w0 seen (leave_behind paths w).2.
Proof.
  induction 1 as [|p paths Hp Hps IH]; intros w Hw; simpl; [done|].
  rewrite get_bind. unfold bind at 1.
  destruct (bool_decide_reflect (p ∈ partial_outputs w)) as [Hin|Hout]; simpl.
  - apply IH. destruct Hp as [[image_id ->]|Hp].
    + by apply tidy_write_cache.
    + by apply (tidy_write_partial w0 seen p w).
  - by apply IH.
Qed.

Lemma watermarked_name_tool_output p :
  is_watermark_cache (watermarked_name p) ∨ is_tool_output (watermarked_name p).
Proof. right. right. left. by exists p. Qed.

Lemma tool_files_render_outputs p : tool_files (render_outputs p).
Proof.
  unfold render_outputs, tool_files.
  destruct (Text.has_extension video_extensions p).
  - apply Forall_cons. split; [apply watermarked_name_tool_output|].
    apply Forall_cons. split; [|apply Forall_nil_2]. right. by do 2 right.
  - apply Forall_cons. split; [apply watermarked_name_tool_output|].
    apply Forall_nil_2.
Qed.

Lemma tool_files_watermark_outputs up s : tool_files (watermark_outputs up s).
Proof.
  unfold watermark_outputs. destruct up as [p|]; [|apply Forall_nil_2].
  destruct (bool_decide (wm_type (watermark s) = "text")).
  { destruct (bool_decide (wm_text (watermark s) = EmptyString));
      [apply Forall_nil_2|apply tool_files_render_outputs]. }
  destruct (bool_decide (wm_type (watermark s) = "image")); [|apply Forall_nil_2].
  destruct (wm_image_id (watermark s)) as [image_id|]; [|apply Forall_nil_2].
  destruct (bool_decide (image_id = EmptyString)); [apply Forall_nil_2|].
  apply Forall_cons. split; [|apply tool_files_render_outputs].
  left. by exists image_id.
Qed.

Lemma fixed_name_not_empty p : fixed_name p ≠ EmptyString.
Proof. unfold fixed_name. by destruct (Text.rsplit_dot_head p). Qed.

Lemma watermarked_name_not_empty p : watermarked_name p ≠ EmptyString.
Proof. unfold watermarked_name. by destruct (Text.has_extension _ _). Qed.

Lemma tidy_known w0 seen q w : q ∈ seen → tidy w0 seen w → tidy w0 (q :: seen) w.
Proof.
  intros Hq []. split; try done.
  intros x [-> | Hx]%elem_of_cons; by apply tidy_seen0.
Qed.

Section Guarded.

(** The world in which the permit was taken.  A download returns a file
    name or nothing. *)
Variable w0 : world.
Hypothesis downloads_named : ∀ k, download_media (env w0) k ≠ Some EmptyString.

Implicit Types (seen base : list (option string)).

Lemma quiet_tidy {A} seen base (m : M A) :
  base ⊆ seen → quiet m →
  ends (tidy w0 seen) m (λ _, tidy w0 seen) (tidy w0 base).
Proof.
  intros Hsub Hm. eapply ends_weaken.
  - apply (ends_quiet (tidy w0 seen) (tidy w0 seen) m Hm).
    intros w w'. apply tidy_frame.
  - done.
  - done.
  - intros w. by apply tidy_mono.
Qed.

Lemma fetch_tidy seen base :
  base ⊆ seen →
  ends (tidy w0 seen) fetch (loose w0 seen) (tidy w0 base).
Proof.
  intros Hsub w Hw. unfold fetch. rewrite get_bind. unfold bind, await.
  destruct (faults (env w) (ticks w)) as [e|]; simpl.
  { apply (tidy_mono _ seen); [done|]. eapply tidy_frame; [done|].
    by repeat split. }
  assert (tidy w0 seen (set_ticks (S (ticks w)) w)) as Hw'.
  { eapply tidy_frame; [done|]. by repeat split. }
  destruct (download_media (env w) (ticks w)) as [p|] eqn:Hp; simpl.
  - apply (tidy_write w0 seen p (set_ticks (S (ticks w)) w)); [|done].
    intros ->. apply (downloads_named (ticks w)).
    by rewrite <- (tidy_env _ _ _ Hw).
  - by apply tidy_loose.
Qed.

Lemma download_all_tidy ids : ∀ seen base,
  base ⊆ seen →
  ends (tidy w0 seen) (download_all ids)
    (λ paths, tidy w0 (paths ++ seen)) (tidy w0 base).
Proof.
  induction ids as [|file_id ids IH]; intros seen base Hsub; simpl.
  { by apply ends_ret. }
  destruct (truthy file_id); simpl; [|by apply IH].
  eapply ends_bind; [by apply fetch_tidy|]. intros path.
  apply ends_bind with (R := λ _, tidy w0 (path :: seen)).
  { intros w Hw. simpl. by apply loose_record. }
  intros _. eapply ends_bind.
  { apply (IH (path :: seen) base). intros x Hx. right. by apply Hsub. }
  intros paths. apply ends_ret. intros w.
  apply tidy_mono. intros x. simpl.
  rewrite !elem_of_cons, !elem_of_app, elem_of_cons. tauto.
Qed.

Lemma leave_behind_tidy seen base paths :
  tool_files paths → base ⊆ seen →
  ends (tidy w0 seen) (leave_behind paths) (λ _, tidy w0 seen) (tidy w0 base).
Proof.
  intros Hpaths Hsub w Hw.
  destruct (leave_behind_spec w0 seen paths Hpaths w Hw) as [Hr Ht].
  destruct (leave_behind paths w) as [r w1]. simpl in *. by subst r.
Qed.

(** Waiting for a tool in a worker thread: what the tool leaves when the
    wait raises is covered by [partial_outputs]. *)
Lemma to_thread_tidy {A} seen base paths (tool : M A) (R : A → world → Prop) :
  tool_files paths → base ⊆ seen →
  ends (tidy w0 seen) tool R (tidy w0 base) →
  ends (tidy w0 seen) (to_thread paths tool) R (tidy w0 base).
Proof.
  intros Hpaths Hsub Htool. unfold to_thread.
  apply ends_bind with (R := λ _, tidy w0 seen); [|by intros _].
  apply ends_try_except with (E' := tidy w0 seen).
  - apply (quiet_tidy seen seen); [done|apply quiet_await].
  - intros e. eapply ends_bind; [by apply (leave_behind_tidy seen base)|].
    intros ?. apply ends_raise. intros w. by apply tidy_mono.
Qed.

Lemma render_tidy seen base up :
  base ⊆ seen →
  ends (tidy w0 seen) (render up) (loose w0 seen) (tidy w0 base).
Proof.
  intros Hsub. destruct up as [p|]; simpl.
  - apply ends_get_bind. intros v Hv. eapply ends_at; [exact Hv|].
    destruct (render_ok (env v) p).
    + intros w Hw. simpl.
      apply (tidy_write w0 seen (watermarked_name p) w); [|done].
      apply watermarked_name_not_empty.
    + eapply ends_bind;
        [by apply (leave_behind_tidy seen base); [apply tool_files_render_outputs|]|].
      intros ?. apply ends_ret. intros w. apply tidy_loose.
  - apply ends_raise. intros w. by apply tidy_mono.
Qed.

Lemma apply_watermark_tidy seen base up s :
  base ⊆ seen →
  ends (tidy w0 seen) (apply_watermark up s) (loose w0 seen) (tidy w0 base).
Proof.
  intros Hsub. unfold apply_watermark.
  apply ends_get_bind. intros v Hv. eapply ends_at; [exact Hv|].
  destruct (negb (wm_enabled (watermark s)) || force_disable_watermark (globals v)).
  { apply ends_ret. intros w. apply tidy_loose. }
  destruct (bool_decide (wm_type (watermark s) = "text")).
  { unfold apply_text_watermark.
    destruct (bool_decide (wm_text (watermark s) = EmptyString)).
    - apply ends_ret. intros w. apply tidy_loose.
    - by apply render_tidy. }
  destruct (bool_decide (wm_type (watermark s) = "image")).
  2:{ apply ends_ret. intros w. apply tidy_loose. }
  unfold apply_image_watermark.
  destruct (wm_image_id (watermark s)) as [image_id|].
  2:{ apply ends_ret. intros w. apply tidy_loose. }
  destruct (bool_decide (image_id = EmptyString)).
  { apply ends_ret. intros w. apply tidy_loose. }
  apply ends_get_bind. intros v' Hv'. eapply ends_at; [exact Hv'|].
  apply ends_bind with (R := λ _, tidy w0 seen).
  { destruct (bool_decide (watermark_cache image_id ∈ files v')).
    - by apply ends_ret.
    - destruct (fetch_watermark_ok (env v')).
      + intros w Hw. simpl. by apply tidy_write_cache.
      + eapply ends_bind.
        { apply (leave_behind_tidy seen base); [|done].
          apply Forall_cons. split; [|apply Forall_nil_2].
          left. by exists image_id. }
        intros ?. by apply ends_ret. }
  intros [|].
  - by apply render_tidy.
  - apply ends_ret. intros w. apply tidy_loose.
Qed.

Lemma transform_tidy seen base m upload_type s path :
  base ⊆ seen → path ∈ seen →
  ends (tidy w0 seen) (transform m upload_type s path)
    (λ _, tidy w0 seen) (tidy w0 base).
Proof.
  intros Hsub Hpath. unfold transform.
  apply ends_bind with (R := λ up, tidy w0 (up :: seen)).
  { destruct (bool_decide (upload_type ∈ ["reel"; "story"; "album"]));
      [|apply ends_ret; intros w; by apply tidy_known].
    destruct path as [p|]; [|apply ends_raise; intros w; by apply tidy_mono].
    destruct (Text.has_extension video_extensions p);
      [|apply ends_ret; intros w; by apply tidy_known].
    apply ends_get_bind. intros v Hv. eapply ends_at; [exact Hv|].
    eapply ends_bind; [apply (quiet_tidy seen base), quiet_await; done|].
    intros ?; cbv beta. destruct (needs_conversion (env v) p);
      [|apply ends_ret; intros w; by apply tidy_known].
    eapply ends_bind;
      [apply (quiet_tidy seen base), quiet_safe_edit_message; done|].
    intros ?; cbv beta.
    apply ends_bind with (R := loose w0 seen).
    { apply to_thread_tidy; [|done|].
      - apply Forall_cons. split; [|apply Forall_nil_2].
        right. left. by exists p.
      - intros w Hw. simpl.
        apply tidy_write; [apply fixed_name_not_empty|done]. }
    intros up w Hw. simpl. by apply (loose_record w0 seen up w). }
  intros up.
  assert (base ⊆ up :: seen) as Hsub' by (intros x Hx; right; by apply Hsub).
  assert (seen ⊆ up :: seen) as Hseen by (intros x Hx; by right).
  apply ends_get_bind. intros v Hv. eapply ends_at; [exact Hv|].
  destruct (wm_enabled (watermark s) && negb (force_disable_watermark (globals v)));
    [|apply ends_ret; intros w; by apply tidy_mono].
  eapply ends_bind;
    [apply (quiet_tidy (up :: seen) base), quiet_safe_edit_message; done|].
  intros ?; cbv beta.
  eapply ends_bind.
  { apply to_thread_tidy; [apply tool_files_watermark_outputs|done|].
    by apply (apply_watermark_tidy (up :: seen) base). }
  intros q. destruct (bool_decide_reflect (q = up)) as [->|Hne].
  - apply ends_ret. intros w Hw. apply (tidy_mono _ (up :: seen)); [done|].
    apply (loose_known _ _ up); [by left|done].
  - intros w Hw. simpl. apply (tidy_mono _ (q :: up :: seen)).
    + intros x Hx. right. by right.
    + by apply (loose_record w0 (up :: seen) q w).
Qed.

Lemma transform_all_tidy m upload_type s paths : ∀ seen base,
  base ⊆ seen → paths ⊆ seen →
  ends (tidy w0 seen) (transform_all m upload_type s paths)
    (λ _, tidy w0 seen) (tidy w0 base).
Proof.
  induction paths as [|path paths IH]; intros seen base Hsub Hpaths; simpl.
  { by apply ends_ret. }
  eapply ends_bind.
  { apply transform_tidy; [done|]. apply Hpaths. by left. }
  intros up. eapply ends_bind.
  { apply IH; [done|]. intros x Hx. apply Hpaths. by right. }
  intros ups. by apply ends_ret.
Qed.

Lemma instagram_upload_tidy seen m u fi s is_premium comment :
  ends (tidy w0 seen) (instagram_upload m u fi s is_premium comment)
    (λ _, tidy w0 seen) (tidy w0 seen).
Proof.
  unfold instagram_upload.
  eapply ends_bind; [apply (quiet_tidy seen seen), quiet_open_session; done|].
  intros ?; cbv beta. eapply ends_bind.
  { apply (quiet_tidy seen seen); [done|].
    destruct is_premium; [apply quiet_find_usertags|apply quiet_ret]. }
  intros ?; cbv beta. eapply ends_bind; [by apply (download_all_tidy _ seen seen)|].
  intros paths.
  assert (seen ⊆ paths ++ seen) as Hsub.
  { intros x Hx. apply elem_of_app. by right. }
  eapply ends_bind.
  { apply (transform_all_tidy _ _ _ _ (paths ++ seen) seen); [done|].
    intros x Hx. apply elem_of_app. by left. }
  intros finals. eapply ends_bind;
    [apply (quiet_tidy (paths ++ seen) seen), quiet_safe_edit_message; done|].
  intros ?; cbv beta. eapply ends_bind;
    [apply (quiet_tidy (paths ++ seen) seen), quiet_publish; done|].
  intros result. eapply ends_weaken.
  - apply (quiet_tidy (paths ++ seen) seen); [done|].
    destruct (result && negb (bool_decide (comment = EmptyString)));
      [apply quiet_await|apply quiet_ret].
  - done.
  - intros ? w. by apply tidy_mono.
  - done.
Qed.

Lemma upload_body_tidy seen m fi u sch sid :
  ends (tidy w0 seen) (upload_body m fi u sch sid)
    (λ _, tidy w0 seen) (tidy w0 seen).
Proof.
  unfold upload_body.
  eapply ends_bind;
    [apply (quiet_tidy seen seen), quiet_get_user_settings; done|].
  intros s. eapply ends_bind;
    [apply (quiet_tidy seen seen), quiet_is_premium_for_platform; done|].
  intros is_premium. apply ends_get_bind. intros v Hv.
  eapply ends_at; [exact Hv|].
  eapply ends_bind;
    [apply (quiet_tidy seen seen), quiet_safe_edit_message; done|].
  intros ?; cbv beta. eapply ends_bind.
  { destruct (bool_decide (fi_platform fi = "instagram"));
      [apply instagram_upload_tidy|by apply ends_ret]. }
  intros ?; cbv beta. eapply ends_bind;
    [apply (quiet_tidy seen seen), quiet_record_outcome; done|].
  intros ?; cbv beta. eapply ends_bind;
    [apply (quiet_tidy seen seen), quiet_safe_edit_message; done|].
  intros ?; cbv beta. apply (quiet_tidy seen seen); [done|].
  unfold send_log_to_channel. apply quiet_bind; [apply quiet_await_safe|].
  intros ?. apply quiet_ret.
Qed.

(** The [try] block with its [except] clauses. *)
Lemma attempt_tidy seen m fi u sch sid :
  ends (tidy w0 seen)
    (try_except (upload_body m fi u sch sid) (on_failure m))
    (λ _, tidy w0 seen) (tidy w0 seen).
Proof.
  eapply ends_try_except; [apply upload_body_tidy|].
  intros e. apply (quiet_tidy seen seen); [done|].
  apply quiet_safe_edit_message.
Qed.

End Guarded.

(** [cleanup_temp_files] touches only the disk, and what it leaves of
    its list is what it could not remove. *)
Lemma cleanup_temp_files_spec l : ∀ w,
  let w' := cleanup_temp_files l w in
  semaphores w' = semaphores w
  ∧ upload_semaphore w' = upload_semaphore w
  ∧ undeletable w' = undeletable w
  ∧ env w' = env w
  ∧ db w' = db w
  ∧ ∀ p, p ∈ files w' →
      p ∈ files w ∧ (Some p ∈ l → p ≠ EmptyString → p ∈ undeletable w).
Proof.
  induction l as [|x l IH]; intros w; simpl.
  { repeat split; try done. by intros ?%elem_of_nil. }
  set (w1 := match x with Some _ => _ | None => _ end).
  assert (semaphores w1 = semaphores w ∧ upload_semaphore w1 = upload_semaphore w
          ∧ undeletable w1 = undeletable w ∧ env w1 = env w ∧ db w1 = db w
          ∧ ∀ p, p ∈ files w1 →
              p ∈ files w ∧ (Some p = x → p ≠ EmptyString → p ∈ undeletable w))
    as (Hs & Hu & Hun & He & Hd & Hf).
  { subst w1. destruct x as [q|]; [|by repeat split].
    destruct (truthy (Some q)) eqn:Hq; simpl; [|repeat split; try done].
    - destruct (bool_decide_reflect (q ∈ files w)) as [Hin|Hout];
        [|repeat split; try done; intros [= ->]; done].
      destruct (bool_decide_reflect (q ∈ undeletable w)) as [Hund|Hdel];
        [repeat split; try done; by intros [= ->]|].
      simpl. repeat split; try done.
      + by apply elem_of_difference in H as [? _].
      + intros [= ->]. apply elem_of_difference in H as [_ Hne].
        by destruct Hne; apply elem_of_singleton.
    - intros [= ->] Hne. simpl in Hq.
      by rewrite bool_decide_false in Hq. }
  destruct (IH w1) as (Hs' & Hu' & Hun' & He' & Hd' & Hf').
  repeat split; try congruence.
  - by apply Hf, Hf'.
  - intros [[= <-] | Hin]%elem_of_cons Hne.
    + by apply (Hf p); [apply Hf'|..].
    + rewrite <- Hun. by apply (Hf' p).
Qed.

Lemma cleanup_temp_files_partial l : ∀ w,
  partial_outputs (cleanup_temp_files l w) = partial_outputs w.
Proof.
  induction l as [|x l IH]; intros w; simpl; [done|]. rewrite IH.
  destruct x as [q|]; [|done].
  destruct (truthy (Some q) && bool_decide (q ∈ files w)); [|done].
  by destruct (bool_decide (q ∈ undeletable w)).
Qed.

(** What [guarded] leaves, however it ends: the semaphores as they
    were, and on disk nothing new but watermark images, files that
    could not be removed, and what a tool that failed or was abandoned
    has left. *)
Lemma guarded_leaves m fi u sch sid w0 :
  (∀ k, download_media (env w0) k ≠ Some EmptyString) →
  let r := guarded m fi u sch sid w0 in
  r.1 ≠ Blocked
  ∧ semaphores r.2 = semaphores w0
  ∧ upload_semaphore r.2 = upload_semaphore w0
  ∧ partial_outputs r.2 = partial_outputs w0
  ∧ ∀ p, p ∈ files r.2 →
      p ∈ files w0 ∨ p ∈ undeletable w0 ∨ is_watermark_cache p
      ∨ (is_tool_output p ∧ p ∈ partial_outputs w0).
Proof.
  intros Hdl. unfold guarded, reset_files_to_clean. rewrite modify_bind.
  set (w1 := set_locals _ w0).
  assert (tidy w0 [] w1) as Hw1.
  { split; try done. intros p Hp. by left. }
  pose proof (attempt_tidy w0 Hdl [] m fi u sch sid w1 Hw1) as Hrun.
  unfold try_finally.
  destruct (try_except _ _ w1) as [r w2]; simpl in Hrun.
  assert (r ≠ Blocked ∧ tidy w0 [] w2) as [Hr Hw2] by (by destruct r).
  assert (∃ w3, finally_clause u sch w2 = (Ok tt, w3) ∨
                (∃ e, finally_clause u sch w2 = (Raise e, w3)))
         as (w3 & Hfin).
  { destruct (finally_clause u sch w2) as [[[]|e|] w3] eqn:Hfin;
      [by exists w3; left|by exists w3; right; exists e|].
    exfalso. revert Hfin. unfold finally_clause.
    rewrite get_bind, modify_bind.
    destruct sch; [done|].
    intros Hfin. destruct (quiet_clear_user_state u
      (cleanup_temp_files (files_to_clean (locals w2)) w2)) as [Hnb _].
    by rewrite Hfin in Hnb. }
  assert (disk_frame (cleanup_temp_files (files_to_clean (locals w2)) w2) w3)
    as (_ & _ & _ & Hs3 & Hu3 & Hf3 & _ & Hun3 & Hpo3).
  { assert (w3 = (finally_clause u sch w2).2) as ->
      by (by destruct Hfin as [-> | [e ->]]).
    unfold finally_clause. rewrite get_bind, modify_bind.
    destruct sch; [apply disk_frame_refl|apply quiet_clear_user_state]. }
  destruct (cleanup_temp_files_spec (files_to_clean (locals w2)) w2)
    as (Hsc & Huc & Hunc & _ & _ & Hfc).
  pose proof (cleanup_temp_files_partial (files_to_clean (locals w2)) w2) as Hpc.
  destruct Hw2.
  assert (semaphores w3 = semaphores w0 ∧ upload_semaphore w3 = upload_semaphore w0
          ∧ partial_outputs w3 = partial_outputs w0
          ∧ ∀ p, p ∈ files w3 →
              p ∈ files w0 ∨ p ∈ undeletable w0 ∨ is_watermark_cache p
              ∨ (is_tool_output p ∧ p ∈ partial_outputs w0))
    as Hend.
  { split_and!; [congruence|congruence|congruence|].
    intros p Hp. rewrite Hf3 in Hp. destruct (Hfc p Hp) as [Hin Hrem].
    destruct (tidy_files0 p Hin) as [?|[?|[?|[Hrec Hne]]]]; auto.
    right. left. rewrite <- tidy_undeletable0. by apply Hrem. }
  destruct Hfin as [Hfin | [e Hfin]]; rewrite Hfin.
  - destruct r; simpl; [by split|by split|done].
  - destruct r; simpl; [by split|by split|done].
Qed.

(** Taking a permit and giving it back leaves the semaphores as they
    were. *)
Lemma release_after_acquire (l : list Z) i :
  0 < default 0 (l !! i) →
  <[i := default 0 (<[i := default 0 (l !! i) - 1]> l !! i) + 1]>
    (<[i := default 0 (l !! i) - 1]> l) = l.
Proof.
  intros Hpos. destruct (l !! i) as [v|] eqn:Hv; simpl in *; [|lia].
  assert (i < length l)%nat as Hi by (by eapply lookup_lt_Some).
  rewrite list_lookup_insert_eq by done. simpl.
  rewrite list_insert_insert_eq.
  replace (v - 1 + 1) with v by lia. by apply list_insert_id.
Qed.

(** C3, as the code has it.  However a run of the pipeline ends, the
    semaphores are as they were when it started, so a permit that was
    taken has been given back; and every file then on disk was there
    before the run, is a watermark image, is a file whose removal
    failed, or is a file that a conversion or a watermark tool left
    when it failed or when the run stopped waiting for it.  Everything
    the run put on its cleanup list (the downloads, and the converted
    and watermarked copies whose tool returned) is thus removed; the
    watermark image and the output of a tool that did not return are
    not on that list. *)
Theorem pipeline_releases_and_cleans msg fi u sch sid w :
  (∀ k, download_media (env w) k ≠ Some EmptyString) →
  let w' := (process_and_upload msg fi u sch sid w).2 in
  semaphores w' = semaphores w
  ∧ upload_semaphore w' = upload_semaphore w
  ∧ ∀ p, p ∈ files w' →
      p ∈ files w ∨ p ∈ undeletable w ∨ is_watermark_cache p
      ∨ (is_tool_output p ∧ p ∈ partial_outputs w).
Proof.
  intros Hdl w'. subst w'.
  destruct (process_and_upload msg fi u sch sid w) as [r w'] eqn:Hrun.
  simpl. revert Hrun. unfold process_and_upload.
  destruct (quiet_announce msg u sch sid w) as [_ Hann].
  unfold bind at 1.
  destruct (announce msg u sch sid w) as [[[m|]|e|] w1]; simpl in Hann;
    destruct Hann as (He & _ & _ & Hs & Hu & Hf & _ & Hun & Hpo);
    try (intros [= <- <-]; rewrite Hs, Hu, Hf; split_and!; [done|done|by left]).
  rewrite modify_bind. unfold with_upload_semaphore. rewrite get_bind.
  cbn [upload_semaphore set_task_tracker]. set (i := upload_semaphore w1).
  unfold bind at 1. unfold acquire, semaphore_value at 1.
  cbn [semaphores env ticks set_task_tracker].
  destruct (Z.ltb_spec 0 (default 0 (semaphores w1 !! i))) as [Hpos|Hfull].
  2:{ destruct (faults (env w1) (ticks w1)) as [[]|];
        intros [= <- <-]; simpl; rewrite Hs, Hu, Hf; split_and!;
        done || by left. }
  unfold semaphore_value. cbn [semaphores set_task_tracker].
  set (w2 := set_semaphores _ _ _).
  destruct (guarded_leaves m fi u sch sid w2) as (Hr & Hs3 & Hu3 & _ & Hf3).
  { intros k. simpl. rewrite He. apply Hdl. }
  unfold try_finally.
  destruct (guarded m fi u sch sid w2) as [r2 w3]; simpl in Hr, Hs3, Hu3, Hf3.
  assert (semaphores (release i w3).2 = semaphores w
          ∧ upload_semaphore (release i w3).2 = upload_semaphore w
          ∧ ∀ p, p ∈ files (release i w3).2 →
              p ∈ files w ∨ p ∈ undeletable w ∨ is_watermark_cache p
              ∨ (is_tool_output p ∧ p ∈ partial_outputs w)) as Hend.
  { simpl. unfold semaphore_value. rewrite Hs3, Hu3. subst w2. simpl.
    split_and!.
    - rewrite <- Hs. by apply release_after_acquire.
    - by rewrite <- Hu.
    - intros p Hp. specialize (Hf3 p Hp). simpl in Hf3.
      by rewrite Hf, Hun, Hpo in Hf3. }
  destruct r2; [| |done]; intros [= <- <-]; exact Hend.
Qed.

Lemma pipeline_releases_and_cleans_witness :
  let w' := (process_and_upload (Some 50) sample_file_info 7 false None
               sample_world).2 in
  (∀ k, download_media (env sample_world) k ≠ Some EmptyString)
  ∧ semaphores w' = semaphores sample_world
  ∧ upload_semaphore w' = upload_semaphore sample_world
  ∧ ∀ p, p ∈ files w' →
      p ∈ files sample_world ∨ p ∈ undeletable sample_world
      ∨ is_watermark_cache p
      ∨ (is_tool_output p ∧ p ∈ partial_outputs sample_world).
Proof.
  intros w'. split; [intros k; discriminate|].
  apply (pipeline_releases_and_cleans (Some 50) sample_file_info 7 false None
           sample_world).
  intros k. discriminate.
Defined.

(** C3, as the specification has it, fails.  A reel of a user with an
    image watermark: the run ends normally with its permit returned,
    having written three files.  Two are on its cleanup list and are
    removed; the third, the watermark image, is not on the list and
    stays on disk. *)
Lemma watermark_image_left_behind :
  let run := process_and_upload (Some 50) sample_file_info 7 false None
               sample_world in
  run.1 = Ok tt
  ∧ semaphores run.2 = semaphores sample_world
  ∧ files sample_world = ∅
  ∧ written run.2
    = [ "watermarked_video_clip.mp4"; "temp_watermark_wm-1.png";
        "downloads/clip.mp4" ]
  ∧ files_to_clean (locals run.2)
    = [ Some "downloads/clip.mp4"; Some "watermarked_video_clip.mp4" ]
  ∧ files run.2 = {[ "temp_watermark_wm-1.png" ]}
  ∧ undeletable run.2 = ∅.
Proof. intros run. split_and!; vm_compute; reflexivity. Qed.

(** C4.  The entry of user 7 is due; the daemon claims it and the
    pipeline runs for it.  The user has no active account, so the run
    raises [LoginRequired] inside its [try] block: the handler edits the
    progress message and nothing else, and the entry is left at
    [processing], neither [completed] nor [failed].  When instead the
    progress message cannot be sent, the same run marks the entry
    [failed]. *)
Theorem scheduled_run_fault_leaves_processing :
  let entry := Daemon.sample_entry pending in
  let claimed := (Daemon.poll_cycle (Daemon.sample_world pending)).2 in
  let run := scheduled_run 1 entry claimed in
  let unreachable :=
    set_env (Oracle (λ k, if decide (k = ticks claimed) then Some Exception else None)
               1000 (λ _, None) (λ _, false) (λ _, true) true) claimed in
  Daemon.status_of claimed 1 = Some processing
  ∧ run.1 = Ok tt
  ∧ outbox run.2
    = [ Edit 1 (failure_notice LoginRequired); Edit 1 "Uploading...";
        Send 7 "Starting Scheduled Processing..." ]
  ∧ Daemon.status_of run.2 1 = Some processing
  ∧ Daemon.status_of (scheduled_run 1 entry unreachable).2 1 = Some failed.
Proof. intros entry claimed run unreachable. split_and!; vm_compute; reflexivity. Qed.

(** A scheduled run that publishes marks its entry [completed] and
    leaves nothing on disk. *)
Example scheduled_run_completes :
  let run := scheduled_run 1 (Daemon.sample_entry processing) scheduled_world in
  run.1 = Ok tt
  ∧ Daemon.status_of run.2 1 = Some completed
  ∧ written run.2 = [ "downloads/clip.mp4" ]
  ∧ files run.2 = ∅
  ∧ (uploads <$> db run.2) = Some [ Upload 7 "instagram" "reel" ].
Proof. intros run. split_and!; vm_compute; reflexivity. Qed.

(** The conversion of the same reel fails after ffmpeg has begun to
    write its output.  The path of the output is put on the cleanup
    list only when the conversion returns, so the download is removed
    and the half-written copy stays. *)
Example interrupted_conversion_leaves_output :
  let w := set_partial_outputs {[ "downloads/clip_fixed.mp4" ]}
             (set_env (Oracle (λ k, if decide (k = 9%nat) then Some Exception else None)
                         1000 (λ _, Some "downloads/clip.mp4") (λ _, true)
                         (λ _, true) true)
                scheduled_world) in
  let run := scheduled_run 1 (Daemon.sample_entry processing) w in
  files w = ∅
  ∧ run.1 = Ok tt
  ∧ written run.2 = [ "downloads/clip_fixed.mp4"; "downloads/clip.mp4" ]
  ∧ files_to_clean (locals run.2) = [ Some "downloads/clip.mp4" ]
  ∧ files run.2 = {[ "downloads/clip_fixed.mp4" ]}
  ∧ undeletable run.2 = ∅.
Proof. intros w run. split_and!; vm_compute; reflexivity. Qed.

End PipelineFacts.

(** *** Further facts on the schedule computation *)

Section ScheduleEdgeFacts.
Import Clock BulkSchedule.

Lemma fixed_step_loop_total caps base step n : ∀ i,
  (i + n <= length caps)%nat →
  ∃ posts, fixed_step_loop caps base step i n = Some posts.
Proof.
  induction n as [|n IH]; intros i Hlen; simpl; [by eexists|].
  destruct (lookup_lt_is_Some_2 caps i ltac:(lia)) as [c ->].
  destruct (IH (S i) ltac:(lia)) as [rest ->]. by eexists.
Qed.

Lemma fixed_step_loop_items caps base step n : ∀ i posts,
  fixed_step_loop caps base step i n = Some posts →
  length posts = n
  ∧ ∀ k c, (k < n)%nat → caps !! (i + k)%nat = Some c →
      posts !! k = Some (Post (base + Z.of_nat (i + k) * step) c).
Proof.
  induction n as [|n IH]; intros i posts; simpl.
  { intros [= <-]. split; [done|]. intros; lia. }
  destruct (caps !! i) as [c0|] eqn:Hc0; [|done].
  destruct (fixed_step_loop caps base step (S i) n) as [rest|] eqn:Hrest; [|done].
  intros [= <-]. destruct (IH _ _ Hrest) as [Hlen Hitems].
  split; [simpl; by rewrite Hlen|].
  intros [|k] c Hk Hc; simpl.
  - rewrite Nat.add_0_r in *. congruence.
  - replace (i + S k)%nat with (S i + k)%nat in * by lia.
    apply Hitems; [lia|done].
Qed.

Lemma fixed_step_loop_short caps base step n : ∀ i,
  (length caps < i + n)%nat → (1 <= n)%nat →
  fixed_step_loop caps base step i n = None.
Proof.
  induction n as [|n IH]; intros i Hlen Hn; [lia|]. simpl.
  destruct (caps !! i) as [c|] eqn:Hc; [|done].
  apply lookup_lt_Some in Hc.
  rewrite (IH (S i)); [done|lia|lia].
Qed.

Lemma window_loop_short caps w end_today interval n : ∀ cur i,
  (length caps < i + n)%nat → (1 <= n)%nat →
  window_loop caps w end_today interval cur i n = None.
Proof.
  induction n as [|n IH]; intros cur i Hlen Hn; [lia|]. simpl.
  destruct (caps !! i) as [c|] eqn:Hc; [|done].
  apply lookup_lt_Some in Hc.
  rewrite (IH _ (S i)); [done|lia|lia].
Qed.

(** X1.  The presets [1_hour], [3_hours], [6_hours] and [12_hours]
    place the first post at the current UTC time and post number [k]
    exactly [k] times the preset's hours later, each with its own
    caption: with a caption slot for each of the [n >= 1] items the
    handler gets [n] posts. *)
Theorem hourly_preset_places_posts
    (windows : gmap string window) key h now_utc now_ist n bulk_captions :
  (key, h) ∈ [ ("1_hour", 1); ("3_hours", 3); ("6_hours", 6); ("12_hours", 12) ] →
  (1 <= n)%nat →
  (n <= length (captions_of bulk_captions))%nat →
  ∃ posts,
    compute_schedule windows key now_utc now_ist n bulk_captions = Scheduled posts
    ∧ length posts = n
    ∧ ∀ k c, (k < n)%nat → captions_of bulk_captions !! k = Some c →
        posts !! k = Some (Post (now_utc + Z.of_nat k * hours h) c).
Proof.
  intros Hkey Hn Hcaps.
  destruct (fixed_step_loop_total (captions_of bulk_captions) now_utc (hours h)
              n 0%nat ltac:(lia)) as [posts Hposts].
  destruct (fixed_step_loop_items _ _ _ _ _ _ Hposts) as [Hlen Hitems].
  exists posts. split_and!; [|done|by apply Hitems].
  unfold compute_schedule. destruct (decide (n = 0%nat)); [lia|].
  rewrite !elem_of_cons, elem_of_nil in Hkey.
  destruct Hkey as [[= -> ->]|[[= -> ->]|[[= -> ->]|[[= -> ->]|[]]]]];
    simpl; by rewrite Hposts.
Qed.

Lemma hourly_preset_places_posts_witness :
  (("3_hours", 3) ∈ [ ("1_hour", 1); ("3_hours", 3); ("6_hours", 6); ("12_hours", 12) ])
  ∧ (1 <= 2)%nat
  ∧ (2 <= length (captions_of (Some [Some "a"; None])))%nat
  ∧ ∃ posts,
      compute_schedule ∅ "3_hours" 1000 (to_ist 1000) 2 (Some [Some "a"; None])
      = Scheduled posts
      ∧ length posts = 2%nat
      ∧ ∀ k c, (k < 2)%nat → captions_of (Some [Some "a"; None]) !! k = Some c →
          posts !! k = Some (Post (1000 + Z.of_nat k * hours 3) c).
Proof.
  assert (("3_hours", 3) ∈ [ ("1_hour", 1); ("3_hours", 3); ("6_hours", 6);
                             ("12_hours", 12) ]) as Hkey.
  { apply elem_of_cons. right. apply elem_of_cons. by left. }
  split_and!; [exact Hkey | lia | simpl; lia |].
  apply (hourly_preset_places_posts ∅ "3_hours" 3 1000 (to_ist 1000) 2
           (Some [Some "a"; None]) Hkey); [lia | simpl; lia].
Defined.

(** X2.  The preset [once_daily] places post number [k] at 09:00 local
    time of the [k]-th day after today, today included: when the local
    clock is already past 09:00 the first post lies in the past. *)
Theorem once_daily_places_posts
    (windows : gmap string window) now_utc now_ist n bulk_captions :
  (1 <= n)%nat →
  (n <= length (captions_of bulk_captions))%nat →
  ∃ posts,
    compute_schedule windows "once_daily" now_utc now_ist n bulk_captions
    = Scheduled posts
    ∧ length posts = n
    ∧ (∀ k c, (k < n)%nat → captions_of bulk_captions !! k = Some c →
         ∃ p, posts !! k = Some p ∧ caption p = c
              ∧ to_ist (run_at p) = at_time (date_of now_ist + Z.of_nat k) 9 0 0 0)
    ∧ (replace_hm now_ist 9 0 < now_ist →
       ∃ p, posts !! 0%nat = Some p ∧ to_ist (run_at p) < now_ist).
Proof.
  intros Hn Hcaps.
  destruct (fixed_step_loop_total (captions_of bulk_captions)
              (to_utc_naive (replace_hm now_ist 9 0)) (days 1)
              n 0%nat ltac:(lia)) as [posts Hposts].
  destruct (fixed_step_loop_items _ _ _ _ _ _ Hposts) as [Hlen Hitems].
  exists posts. split_and!; [|done| |].
  - unfold compute_schedule. destruct (decide (n = 0%nat)); [lia|].
    simpl. by rewrite Hposts.
  - intros k c Hk Hc. eexists. split; [by apply Hitems|]. split; [done|].
    simpl. unfold replace_hm. clock_lia.
  - intros Hpast.
    destruct (lookup_lt_is_Some_2 (captions_of bulk_captions) 0 ltac:(lia))
      as [c Hc].
    eexists. split; [apply (Hitems 0%nat c); [lia|done]|].
    simpl. unfold replace_hm in *. clock_lia.
Qed.

Lemma once_daily_places_posts_witness :
  (1 <= 2)%nat
  ∧ (2 <= length (captions_of (Some [None; None])))%nat
  ∧ ∃ posts,
      compute_schedule ∅ "once_daily" 0 (at_time 20000 10 0 0 0) 2
        (Some [None; None]) = Scheduled posts
      ∧ length posts = 2%nat
      ∧ (∀ k c, (k < 2)%nat → captions_of (Some [None; None]) !! k = Some c →
           ∃ p, posts !! k = Some p ∧ caption p = c
                ∧ to_ist (run_at p)
                  = at_time (date_of (at_time 20000 10 0 0 0) + Z.of_nat k) 9 0 0 0)
      ∧ (replace_hm (at_time 20000 10 0 0 0) 9 0 < at_time 20000 10 0 0 0 →
         ∃ p, posts !! 0%nat = Some p
              ∧ to_ist (run_at p) < at_time 20000 10 0 0 0).
Proof.
  split_and!; [lia | simpl; lia |].
  apply (once_daily_places_posts ∅ 0 (at_time 20000 10 0 0 0) 2
           (Some [None; None])); [lia | simpl; lia].
Defined.

(** X3.  When the stored captions are fewer than the media items, every
    preset that places posts fails with [IndexError] on
    [bulk_captions[i]], and nothing is handed to [save_bulk_schedules];
    a state without [bulk_captions] counts as one caption. *)
Theorem too_few_captions_index_error
    (windows : gmap string window) key now_utc now_ist n bulk_captions :
  (length (captions_of bulk_captions) < n)%nat →
  key ∈ [ "1_hour"; "3_hours"; "6_hours"; "12_hours"; "once_daily" ]
  ∨ (∃ w, (key = "morning" ∨ key = "evening")
          ∧ windows !! key = Some w ∧ valid_window w) →
  compute_schedule windows key now_utc now_ist n bulk_captions = IndexError.
Proof.
  intros Hshort Hkey. unfold compute_schedule.
  destruct (decide (n = 0%nat)); [lia|].
  destruct Hkey as [Hkey | (w & Hkey & Hlook & Hs & He & Hlt)].
  - rewrite !elem_of_cons, elem_of_nil in Hkey.
    destruct Hkey as [->|[->|[->|[->|[->|[]]]]]]; simpl;
      by rewrite fixed_step_loop_short by lia.
  - assert (window_schedule w now_ist n (captions_of bulk_captions) = IndexError)
      as Hrun.
    { unfold window_schedule. rewrite Hs, He. simpl.
      destruct (Z.leb_spec
                  (replace_hm now_ist (end_hour w) (end_minute w)
                   - replace_hm now_ist (start_hour w) (start_minute w)) 0)
        as [Hle|_].
      { unfold replace_hm in Hle. rewrite !at_time_hm in *. lia. }
      by rewrite window_loop_short by lia. }
    destruct Hkey as [-> | ->]; simpl; by rewrite Hlook.
Qed.

Lemma too_few_captions_index_error_witness :
  (length (captions_of None) < 2)%nat
  ∧ ("1_hour" ∈ [ "1_hour"; "3_hours"; "6_hours"; "12_hours"; "once_daily" ]
     ∨ (∃ w, ("1_hour" = "morning" ∨ "1_hour" = "evening")
             ∧ (∅ : gmap string window) !! "1_hour" = Some w ∧ valid_window w))
  ∧ compute_schedule ∅ "1_hour" 0 (to_ist 0) 2 None = IndexError.
Proof.
  assert ("1_hour" ∈ [ "1_hour"; "3_hours"; "6_hours"; "12_hours"; "once_daily" ])
    as Hkey by (apply elem_of_cons; by left).
  split_and!; [simpl; lia | by left |].
  apply (too_few_captions_index_error ∅ "1_hour" 0 (to_ist 0) 2 None);
    [simpl; lia | by left].
Defined.

(** X4.  Under a window preset no post is placed before the current
    local time, nor before the start of today's window. *)
Theorem window_posts_not_in_the_past
    (windows : gmap string window) key w now_utc now_ist n bulk_captions posts :
  key = "morning" ∨ key = "evening" →
  windows !! key = Some w →
  compute_schedule windows key now_utc now_ist n bulk_captions = Scheduled posts →
  Forall (λ p, now_ist <= to_ist (run_at p)
               ∧ replace_hm now_ist (start_hour w) (start_minute w)
                 <= to_ist (run_at p)) posts.
Proof.
  intros Hkey Hlook. unfold compute_schedule.
  destruct (decide (n = 0%nat)); [done|].
  assert (window_schedule w now_ist n (captions_of bulk_captions) = Scheduled posts →
          Forall (λ p, now_ist <= to_ist (run_at p)
                       ∧ replace_hm now_ist (start_hour w) (start_minute w)
                         <= to_ist (run_at p)) posts) as Hwin.
  { unfold window_schedule.
    destruct (valid_hm (start_hour w) (start_minute w)) eqn:Hs; [|done].
    destruct (valid_hm (end_hour w) (end_minute w)) eqn:He; [|done]. simpl.
    set (start_today := replace_hm now_ist (start_hour w) (start_minute w)).
    set (end_today := replace_hm now_ist (end_hour w) (end_minute w)).
    destruct (Z.leb_spec (end_today - start_today) 0) as [|Hspan]; [done|].
    assert (valid_window w) as Hw.
    { split_and!; [done|done|]. subst start_today end_today.
      unfold replace_hm in Hspan. rewrite !at_time_hm in *. lia. }
    set (interval := interval_of (end_today - start_today) n).
    assert (0 <= interval) as Hi by (apply round_half_even_div_nonneg; lia).
    set (cur := if start_today <? now_ist then now_ist else start_today).
    destruct (window_loop _ _ _ _ _ _ _) as [ps|] eqn:Hloop; [|done].
    intros [= <-].
    pose proof (window_loop_lower _ w now_ist interval Hw Hi n cur 0%nat ps Hloop)
      as Hlow.
    eapply Forall_impl; [exact Hlow|]. simpl. intros p Hp.
    subst cur. destruct (Z.ltb_spec start_today now_ist); lia. }
  destruct Hkey as [-> | ->]; simpl; rewrite Hlook; exact Hwin.
Qed.

Lemma window_posts_not_in_the_past_witness :
  let windows : gmap string window := {[ "evening" := Window 18 0 21 0 ]} in
  let now_ist := at_time 20000 19 30 0 0 in
  let posts :=
    [ Post (to_utc_naive (at_time 20000 19 30 0 0)) None;
      Post (to_utc_naive (at_time 20000 21 0 0 0)) None ] in
  ("evening" = "morning" ∨ "evening" = "evening")
  ∧ windows !! "evening" = Some (Window 18 0 21 0)
  ∧ compute_schedule windows "evening" 0 now_ist 2 (Some [None; None])
    = Scheduled posts
  ∧ Forall (λ p, now_ist <= to_ist (run_at p)
                 ∧ replace_hm now_ist 18 0 <= to_ist (run_at p)) posts.
Proof.
  intros windows now_ist posts.
  assert (compute_schedule windows "evening" 0 now_ist 2 (Some [None; None])
          = Scheduled posts) as Hrun by (vm_compute; reflexivity).
  split_and!; [by right | reflexivity | exact Hrun |].
  apply (window_posts_not_in_the_past windows "evening" (Window 18 0 21 0) 0
           now_ist 2 (Some [None; None]) posts);
    [by right | reflexivity | exact Hrun].
Defined.

(** X5.  A window whose end is not after its start is refused whatever
    the clock reads: the handler answers that the window is invalid and
    schedules nothing. *)
Theorem window_without_span_refused
    (windows : gmap string window) key w now_utc now_ist n bulk_captions :
  key = "morning" ∨ key = "evening" →
  windows !! key = Some w →
  valid_hm (start_hour w) (start_minute w) = true →
  valid_hm (end_hour w) (end_minute w) = true →
  at_time 0 (end_hour w) (end_minute w) 0 0
    <= at_time 0 (start_hour w) (start_minute w) 0 0 →
  (1 <= n)%nat →
  compute_schedule windows key now_utc now_ist n bulk_captions
  = Answered "The selected time window is invalid or too short.".
Proof.
  intros Hkey Hlook Hs He Hle Hn. unfold compute_schedule.
  destruct (decide (n = 0%nat)); [lia|].
  assert (window_schedule w now_ist n (captions_of bulk_captions)
          = Answered "The selected time window is invalid or too short.") as Hrun.
  { unfold window_schedule. rewrite Hs, He. simpl.
    destruct (Z.leb_spec
                (replace_hm now_ist (end_hour w) (end_minute w)
                 - replace_hm now_ist (start_hour w) (start_minute w)) 0)
      as [_|Hpos]; [done|].
    unfold replace_hm in Hpos. rewrite !at_time_hm in *. lia. }
  destruct Hkey as [-> | ->]; simpl; by rewrite Hlook.
Qed.

Lemma window_without_span_refused_witness :
  let windows : gmap string window := {[ "morning" := Window 9 0 6 0 ]} in
  ("morning" = "morning" ∨ "morning" = "evening")
  ∧ windows !! "morning" = Some (Window 9 0 6 0)
  ∧ valid_hm 9 0 = true ∧ valid_hm 6 0 = true
  ∧ at_time 0 6 0 0 0 <= at_time 0 9 0 0 0
  ∧ (1 <= 3)%nat
  ∧ compute_schedule windows "morning" 0 (to_ist 0) 3 (Some [None; None; None])
    = Answered "The selected time window is invalid or too short.".
Proof.
  intros windows.
  assert (at_time 0 6 0 0 0 <= at_time 0 9 0 0 0) as Hle by (vm_compute; discriminate).
  split_and!; [by left | reflexivity | reflexivity | reflexivity | exact Hle | lia |].
  apply (window_without_span_refused windows "morning" (Window 9 0 6 0) 0
           (to_ist 0) 3 (Some [None; None; None]));
    [by left | reflexivity | reflexivity | reflexivity | exact Hle | lia].
Defined.

End ScheduleEdgeFacts.

(** *** Further facts on the task tracker *)

Section TrackerEdgeFacts.
Import Tasks.

Lemma cancel_all_lookup_other (l : list nat) objs t :
  t ∉ l → foldr (λ t objs, cancel objs t) objs l !! t = objs !! t.
Proof.
  induction l as [|t0 l IH]; intros Hnot; simpl; [done|].
  apply not_elem_of_cons in Hnot as [Hne Hnot].
  rewrite cancel_lookup_ne by done. by apply IH.
Qed.

Lemma done_cancel_user_task st u n t o' :
  objects (cancel_user_task st u n) !! t = Some o' →
  ∃ o, objects st !! t = Some o ∧ done o' = done o.
Proof.
  unfold cancel_user_task.
  destruct (user_specific_tasks st !! u) as [inner|]; [|by eexists].
  destruct (inner !! n) as [t0|]; [|by eexists]. simpl.
  destruct (is_done st t0); [by eexists|].
  intros (o & Ho & Hd & _)%cancel_done. by exists o.
Qed.

(** Every task object that is not done is in [_tasks]: the done
    callback is the only thing that removes a task from the set. *)
Lemma reachable_tracked st :
  reachable st →
  ∀ t o, objects st !! t = Some o → done o = false → t ∈ tasks st.
Proof.
  induction 1 as [|st e Hst IH]; [intros t o Ho; simpl in Ho; by rewrite lookup_nil in Ho|].
  destruct e as [c uo no r|u n|u| |t0|]; simpl.
  - unfold create_task. destruct (negb (loop st) && negb r); [exact IH|]. simpl.
    set (st1 := match keyed uo no with Some (u, n) => cancel_user_task st u n
                                  | None => st end).
    assert (tasks st1 = tasks st) as Htasks.
    { subst st1. destruct (keyed uo no) as [[u n]|]; [|done].
      unfold cancel_user_task. destruct (user_specific_tasks st !! u); [|done].
      by destruct (_ !! n). }
    assert (∀ t o', objects st1 !! t = Some o' →
              ∃ o, objects st !! t = Some o ∧ done o' = done o) as Hdone.
    { subst st1. destruct (keyed uo no) as [[u n]|]; [|by eauto].
      intros t o'. apply done_cancel_user_task. }
    intros t o Ho Hd. apply elem_of_union. rewrite Htasks.
    apply lookup_app_Some in Ho as [Ho|[Hlen Ho]].
    + right. destruct (Hdone _ _ Ho) as (o0 & Ho0 & Heq).
      apply (IH t o0); congruence.
    + left. apply elem_of_singleton.
      destruct (t - length (objects st1))%nat eqn:Hsub; [lia|done].
  - intros t o Ho Hd.
    assert (tasks (cancel_user_task st u n) = tasks st) as ->.
    { unfold cancel_user_task. destruct (user_specific_tasks st !! u); [|done].
      by destruct (_ !! n). }
    destruct (done_cancel_user_task _ _ _ _ _ Ho) as (o0 & Ho0 & Heq).
    apply (IH t o0); congruence.
  - unfold cancel_all_user_tasks.
    destruct (user_specific_tasks st !! u) as [inner|]; [|exact IH]. simpl.
    intros t o (o0 & Ho0 & Heq & _)%cancel_all_lookup Hd.
    apply (IH t o0); congruence.
  - intros t o (o0 & Ho0 & Heq & _)%cancel_all_lookup Hd.
    apply (IH t o0); congruence.
  - unfold finish. destruct (objects st !! t0) as [o0|] eqn:Ho0; [|exact IH].
    simpl. intros t o Ho Hd. destruct (decide (t = t0)) as [->|Hne].
    + rewrite list_lookup_insert_eq in Ho by (by eapply lookup_lt_Some).
      by injection Ho as <-.
    + rewrite list_lookup_insert_ne in Ho by done.
      apply elem_of_difference. split; [by eapply IH|].
      by intros ?%elem_of_singleton.
  - exact IH.
Qed.

(** X6.  [cancel_all_user_tasks] removes every registration of the
    user; each task that was registered for the user is then done or has
    been asked to stop; the registrations and the task objects of other
    users are as before. *)
Theorem cancel_all_user_tasks_settles st u :
  reachable st →
  let st' := cancel_all_user_tasks st u in
  (∀ n, registered st' u n = None)
  ∧ (∀ n t, registered st u n = Some t →
       settled st' t ∧ is_done st' t = is_done st t)
  ∧ (∀ u' n', u' ≠ u → registered st' u' n' = registered st u' n')
  ∧ (∀ t, (∀ n, registered st u n ≠ Some t) → objects st' !! t = objects st !! t).
Proof.
  intros Hreach st'. pose proof (reachable_well_formed st Hreach) as Hwf.
  split_and!.
  - intros n. subst st'. rewrite registered_cancel_all_user_tasks.
    by rewrite decide_True.
  - intros n t Hreg. pose proof (wf_bound st Hwf u n t Hreg) as Hlt.
    subst st'. unfold cancel_all_user_tasks.
    unfold registered, lookup2 in Hreg.
    destruct (user_specific_tasks st !! u) as [inner|] eqn:Hu; [|done].
    simpl in Hreg. unfold settled, is_done, is_cancelling. simpl.
    assert (t ∈ (map_to_list inner).*2) as Hin.
    { apply list_elem_of_fmap. exists (n, t). split; [done|].
      by apply elem_of_map_to_list. }
    destruct (lookup_lt_is_Some_2
                (foldr (λ t objs, cancel objs t) (objects st) (map_to_list inner).*2)
                t) as [o' Ho'].
    { by rewrite length_cancel_all. }
    rewrite Ho'. split.
    + exact (cancel_all_requested _ _ _ _ Hin Ho').
    + apply cancel_all_lookup in Ho' as (o & -> & Hd & _). done.
  - intros u' n' Hne. subst st'. rewrite registered_cancel_all_user_tasks.
    by rewrite decide_False.
  - intros t Hnot. subst st'. unfold cancel_all_user_tasks.
    destruct (user_specific_tasks st !! u) as [inner|] eqn:Hu; [|done]. simpl.
    apply cancel_all_lookup_other.
    intros ([n t'] & Heq & Hin%elem_of_map_to_list)%list_elem_of_fmap.
    simpl in Heq. subst t'. apply (Hnot n).
    unfold registered, lookup2. by rewrite Hu.
Qed.

Lemma cancel_all_user_tasks_settles_witness :
  let st := foldl step init
              [ SetLoop; Spawn (timeout_task 7 1) (Some 7) (Some "timeout") true;
                Spawn (process_and_upload 7 false None) (Some 7) (Some "upload") true;
                Spawn (timeout_task 8 2) (Some 8) (Some "timeout") true ] in
  let st' := cancel_all_user_tasks st 7 in
  reachable st
  ∧ (∀ n, registered st' 7 n = None)
  ∧ (∀ n t, registered st 7 n = Some t →
       settled st' t ∧ is_done st' t = is_done st t)
  ∧ (∀ u' n', u' ≠ 7 → registered st' u' n' = registered st u' n')
  ∧ (∀ t, (∀ n, registered st 7 n ≠ Some t) → objects st' !! t = objects st !! t).
Proof.
  intros st st'.
  assert (reachable st) as Hreach by (repeat apply reachable_step; apply reachable_init).
  split; [exact Hreach|].
  exact (cancel_all_user_tasks_settles st 7 Hreach).
Defined.

(** X7.  [cancel_and_wait_all], run at shutdown, leaves no task behind:
    every task the tracker ever created is then done or has been asked
    to stop, and no task changes from done to not done. *)
Theorem shutdown_settles_every_task st t :
  reachable st → (t < length (objects st))%nat →
  settled (cancel_and_wait_all st) t
  ∧ is_done (cancel_and_wait_all st) t = is_done st t.
Proof.
  intros Hreach Hlt. unfold settled, is_done, is_cancelling, cancel_and_wait_all.
  simpl.
  destruct (lookup_lt_is_Some_2 (objects st) t Hlt) as [o Ho].
  destruct (lookup_lt_is_Some_2
              (foldr (λ t objs, cancel objs t) (objects st) (elements (tasks st)))
              t) as [o' Ho'].
  { by rewrite length_cancel_all. }
  rewrite Ho', Ho.
  pose proof Ho' as (o0 & Ho0 & Hd & _)%cancel_all_lookup.
  assert (o0 = o) as -> by congruence. split; [|done].
  destruct (done o) eqn:Hdone; [left; congruence|].
  apply (cancel_all_requested (elements (tasks st)) (objects st) t o'); [|done].
  apply elem_of_elements. by eapply reachable_tracked.
Qed.

Lemma shutdown_settles_every_task_witness :
  let st := foldl step init
              [ SetLoop; Spawn schedule_bulk_upload_task None (Some "bulk_scheduler") true;
                Spawn (timeout_task 7 1) (Some 7) (Some "timeout") true;
                Finish 1 ] in
  reachable st ∧ (0 < length (objects st))%nat
  ∧ settled (cancel_and_wait_all st) 0
  ∧ is_done (cancel_and_wait_all st) 0 = is_done st 0.
Proof.
  intros st.
  assert (reachable st) as Hreach by (repeat apply reachable_step; apply reachable_init).
  assert (0 < length (objects st))%nat as Hlt by (vm_compute; lia).
  split_and!; [exact Hreach | exact Hlt | |];
    apply (shutdown_settles_every_task st 0 Hreach Hlt).
Defined.

(** X8.  The registry of a tracker stays sound under every sequence of
    spawns, cancellations, shutdowns and task endings: a registered
    handle names a task object that exists, no task is registered under
    two keys, and only truthy keys (a non-zero user id and a non-empty
    name) are ever registered. *)
Theorem registry_stays_sound evs u n t :
  let st := foldl step init evs in
  registered st u n = Some t →
  (t < length (objects st))%nat
  ∧ u ≠ 0 ∧ n ≠ EmptyString
  ∧ ∀ u' n', registered st u' n' = Some t → u' = u ∧ n' = n.
Proof.
  intros st Hreg.
  assert (reachable st) as Hreach.
  { subst st. clear Hreg.
    induction evs as [|e evs IH] using rev_ind; [apply reachable_init|].
    rewrite foldl_snoc. by apply reachable_step. }
  pose proof (reachable_well_formed st Hreach) as Hwf.
  split_and!.
  - by eapply wf_bound.
  - by eapply wf_key.
  - by eapply wf_key.
  - intros u' n' Hreg'. by eapply (wf_inj st Hwf u' n' u n t).
Qed.

Lemma registry_stays_sound_witness :
  let evs := [ SetLoop; Spawn (timeout_task 7 1) (Some 7) (Some "timeout") true;
               Spawn (timeout_task 7 2) (Some 7) (Some "timeout") true ] in
  let st := foldl step init evs in
  registered st 7 "timeout" = Some 1%nat
  ∧ (1 < length (objects st))%nat
  ∧ 7 ≠ 0 ∧ "timeout" ≠ EmptyString
  ∧ ∀ u' n', registered st u' n' = Some 1%nat → u' = 7 ∧ n' = "timeout".
Proof.
  intros evs st. split; [reflexivity|].
  apply (registry_stays_sound evs 7 "timeout" 1). reflexivity.
Defined.

End TrackerEdgeFacts.

(** *** Further facts on the polling loop *)

(** Takes a computation apart down to its suspension points and its
    updates of the store, the transport and the tracker. *)
Ltac quiet_steps :=
  repeat first
    [ apply quiet_ret | apply quiet_raise | apply quiet_get
    | apply quiet_await | apply quiet_await_safe | apply quiet_the_db
    | (apply quiet_modify; intros ?; by repeat split)
    | (apply quiet_try_except; [|intros ?])
    | (apply quiet_bind; [|intros ?])
    | match goal with
      | |- Pipeline.quiet (match ?x with _ => _ end) => destruct x
      end ].

Section PollFacts.
Import World Daemon Pipeline.

Implicit Types (w : world) (d : database) (id : Z) (s : schedule).

Lemma quiet_claim_and_dispatch id s : quiet (claim_and_dispatch id s).
Proof.
  unfold claim_and_dispatch, modify_db.
  apply quiet_bind; [apply quiet_the_db|]. intros _.
  apply quiet_bind; [apply quiet_await|]. intros _.
  apply quiet_bind; [apply quiet_modify; intros ?; by repeat split|]. intros _.
  apply quiet_bind; [apply quiet_get|]. intros w.
  destruct (Tasks.create_task _ _ _ _ _) as [tr handle].
  apply quiet_bind; [apply quiet_modify; intros ?; by repeat split|]. intros _.
  apply quiet_ret.
Qed.

Lemma quiet_dispatch_all due : quiet (dispatch_all due).
Proof.
  induction due as [|[id s] due IH]; simpl; [apply quiet_ret|].
  apply quiet_bind; [apply quiet_claim_and_dispatch|]. by intros _.
Qed.

Lemma quiet_fetch_due : quiet fetch_due.
Proof. unfold fetch_due. quiet_steps. Qed.

Lemma quiet_poll_cycle : quiet poll_cycle.
Proof.
  unfold poll_cycle. apply quiet_bind; [apply quiet_get|]. intros w.
  destruct (schedules_paused (globals w)); [apply quiet_ret|].
  apply quiet_try_except.
  - apply quiet_bind; [apply quiet_fetch_due|]. intros due.
    apply quiet_dispatch_all.
  - intros e. destruct (is_exception e); [apply quiet_ret|apply quiet_raise].
Qed.

(** X9.  One turn of the polling loop never fails on a fault of the
    store or of the tracker: it ends normally or by cancellation, never
    waits for a permit, and leaves the disk, the semaphores and the
    settings alone. *)
Theorem poll_cycle_contains_faults w :
  ((poll_cycle w).1 = Ok tt ∨ (poll_cycle w).1 = Raise CancelledError)
  ∧ files (poll_cycle w).2 = files w
  ∧ semaphores (poll_cycle w).2 = semaphores w
  ∧ globals (poll_cycle w).2 = globals w.
Proof.
  destruct (quiet_poll_cycle w) as [Hnb (_ & _ & Hg & Hs & _ & Hf & _)].
  split; [|done].
  revert Hnb. unfold poll_cycle. rewrite get_bind.
  destruct (schedules_paused (globals w)); [by left|].
  unfold try_except.
  destruct (bind fetch_due _ w) as [[[]|e|] w1]; simpl; [by left| |done].
  destruct e; simpl; auto.
Qed.

(** What a run over a snapshot does to one entry: nothing, or one claim. *)
Lemma dispatch_all_effect (due : list (Z * schedule)) : ∀ w id,
  NoDup due.*1 →
  (status_of (dispatch_all due w).2 id = status_of w id
   ∧ dispatches (dispatch_all due w).2 id = dispatches w id)
  ∨ (id ∈ due.*1
     ∧ status_of (dispatch_all due w).2 id = (λ _, processing) <$> status_of w id
     ∧ dispatches (dispatch_all due w).2 id = S (dispatches w id)).
Proof.
  induction due as [|[id0 s] due IH]; intros w id Hnd; [by left|].
  simpl in Hnd. apply NoDup_cons in Hnd as [Hnotin Hnd].
  simpl. unfold bind.
  destruct (claim_and_dispatch_cases id0 s w)
    as [[Hsame Hno]|(d & t & Hdb & Hdb' & Hco & Hok)].
  - destruct (claim_and_dispatch id0 s w) as [[h|e|] w'] eqn:Hc; simpl in *.
    + by destruct (Hno h).
    + left. destruct Hsame as [Hd Htr]. unfold status_of, dispatches.
      by rewrite Hd, Htr.
    + left. destruct Hsame as [Hd Htr]. unfold status_of, dispatches.
      by rewrite Hd, Htr.
  - destruct (claim_and_dispatch id0 s w) as [r w'] eqn:Hc; simpl in *. subst r.
    assert (dispatches w' id
            = (dispatches w id + if bool_decide (id0 = id) then 1 else 0)%nat) as Hd.
    { unfold dispatches. rewrite Hco, dispatches_snoc.
      by rewrite runs_entry_dispatch. }
    pose proof (status_of_update w w' d id0 processing id Hdb Hdb') as Hst.
    destruct (IH w' id Hnd) as [[Hs1 Hd1]|(Hin & Hs1 & Hd1)].
    + rewrite Hs1, Hd1, Hst, Hd. case_decide as Hid.
      * subst id0. right. rewrite bool_decide_true by done.
        split_and!; [simpl; apply elem_of_cons; by left|done|lia].
      * left. rewrite bool_decide_false by done. split; [done|lia].
    + assert (id0 ≠ id) as Hne by (intros ->; done).
      right. rewrite Hs1, Hd1, Hst, Hd, decide_False, bool_decide_false by done.
      split_and!; [simpl; apply elem_of_cons; by right|done|lia].
Qed.

(** X10.  Whatever the collaborators answer, one turn of the polling loop
    leaves an entry as it was, or the entry was pending and due and the
    turn set it to [processing] and created exactly one pipeline task
    for it.  Entries that are not due, not pending, or of a paused
    scheduler are never touched. *)
Theorem poll_claims_only_due_pending w id :
  (status_of (poll_cycle w).2 id = status_of w id
   ∧ dispatches (poll_cycle w).2 id = dispatches w id)
  ∨ (∃ d e,
       db w = Some d ∧ schedules d !! id = Some e
       ∧ is_due (utcnow (env w)) e = true
       ∧ sch_status e = pending
       ∧ schedules_paused (globals w) = false
       ∧ status_of (poll_cycle w).2 id = Some processing
       ∧ dispatches (poll_cycle w).2 id = S (dispatches w id)).
Proof.
  unfold poll_cycle. rewrite get_bind.
  destruct (schedules_paused (globals w)) eqn:Hpaused; [by left|].
  unfold try_except, bind.
  destruct (fetch_due_cases w) as [[Hsd Hstr] Hdue].
  destruct (fetch_due w) as [[due|e|] w1] eqn:Hf; simpl in *.
  - destruct (Hdue due eq_refl) as (d & Hdb & ->).
    assert (status_of w1 id = status_of w id ∧ dispatches w1 id = dispatches w id)
      as [Hs1 Hd1].
    { unfold status_of, dispatches. by rewrite Hsd, Hstr. }
    pose proof (dispatch_all_effect (find_due (utcnow (env w)) d) w1 id
                  (find_due_NoDup _ _)) as Heff.
    assert ((status_of (dispatch_all (find_due (utcnow (env w)) d) w1).2 id
             = status_of w id
             ∧ dispatches (dispatch_all (find_due (utcnow (env w)) d) w1).2 id
               = dispatches w id)
            ∨ (∃ d0 e,
                 db w = Some d0 ∧ schedules d0 !! id = Some e
                 ∧ is_due (utcnow (env w)) e = true
                 ∧ sch_status e = pending
                 ∧ false = false
                 ∧ status_of (dispatch_all (find_due (utcnow (env w)) d) w1).2 id
                   = Some processing
                 ∧ dispatches (dispatch_all (find_due (utcnow (env w)) d) w1).2 id
                   = S (dispatches w id))) as Hgoal.
    { destruct Heff as [[Hs2 Hd2]|(Hin & Hs2 & Hd2)].
      - left. by rewrite Hs2, Hd2.
      - right. pose proof Hin as ([id' e] & Heq & Hin')%list_elem_of_fmap.
        simpl in Heq. subst id'.
        apply list_elem_of_filter in Hin' as [Hdue' Hin']. simpl in Hdue'.
        apply elem_of_map_to_list in Hin'.
        exists d, e. split_and!; try done.
        + unfold is_due in Hdue'. apply andb_true_iff in Hdue' as [_ Hp].
          by apply bool_decide_eq_true in Hp.
        + rewrite Hs2, Hs1. unfold status_of. rewrite Hdb. simpl.
          by rewrite Hin'.
        + by rewrite Hd2, Hd1. }
    destruct (dispatch_all _ w1) as [[[]|e|] w2]; simpl in *; try done.
    unfold ret, raise. by destruct (is_exception e).
  - left. unfold ret, raise, status_of, dispatches.
    destruct (is_exception e); simpl; by rewrite Hsd, Hstr.
  - left. unfold status_of, dispatches. by rewrite Hsd, Hstr.
Qed.

(** When nothing fails, every claim of a snapshot goes through. *)
Lemma dispatch_all_complete (due : list (Z * schedule)) : ∀ w d,
  no_faults w → db w = Some d → NoDup due.*1 →
  (dispatch_all due w).1 = Ok tt
  ∧ ∀ id, id ∈ due.*1 →
      status_of (dispatch_all due w).2 id = (λ _, processing) <$> status_of w id
      ∧ dispatches (dispatch_all due w).2 id = S (dispatches w id).
Proof.
  induction due as [|[id0 s] due IH]; intros w d Hnf Hdb Hnd.
  { split; [done|]. by intros id ?%elem_of_nil. }
  simpl in Hnd. apply NoDup_cons in Hnd as [Hnotin Hnd].
  simpl. unfold bind.
  destruct (quiet_claim_and_dispatch id0 s w) as [_ (Henv & _)].
  destruct (claim_and_dispatch_cases id0 s w)
    as [[Hsame Hno]|(d0 & t & Hdb0 & Hdb' & Hco & Hok)].
  { exfalso. revert Hno. unfold claim_and_dispatch. run_m. rewrite Hdb. simpl.
    rewrite (Hnf (ticks w)). simpl.
    destruct (Tasks.create_task _ _ _ _ _) as [tr handle]. simpl.
    intros Hno. by apply (Hno handle). }
  destruct (claim_and_dispatch id0 s w) as [r w'] eqn:Hc; simpl in *. subst r.
  assert (no_faults w') as Hnf' by (intros k; rewrite Henv; apply Hnf).
  destruct (IH w' _ Hnf' Hdb' Hnd) as [Hok' Hall].
  split; [exact Hok'|].
  intros id Hin.
  assert (dispatches w' id
          = (dispatches w id + if bool_decide (id0 = id) then 1 else 0)%nat) as Hd.
  { unfold dispatches. rewrite Hco, dispatches_snoc.
    by rewrite runs_entry_dispatch. }
  pose proof (status_of_update w w' d0 id0 processing id Hdb0 Hdb') as Hst.
  apply elem_of_cons in Hin as [->|Hin].
  - destruct (dispatch_all_effect due w' id0 Hnd) as [[Hs1 Hd1]|(Hin & _)]; [|done].
    rewrite Hs1, Hd1, Hst, Hd, decide_True, bool_decide_true by done.
    split; [done|lia].
  - assert (id0 ≠ id) as Hne by (intros ->; done).
    destruct (Hall id Hin) as [Hs1 Hd1].
    rewrite Hs1, Hd1, Hst, Hd, decide_False, bool_decide_false by done.
    split; [done|lia].
Qed.

(** X11.  When the store answers and scheduling is not paused, one turn
    of the polling loop claims every entry that is pending and due: each
    is set to [processing] and gets exactly one new pipeline task. *)
Theorem poll_claims_every_due_entry w d id e :
  no_faults w → db w = Some d →
  schedules_paused (globals w) = false →
  schedules d !! id = Some e →
  is_due (utcnow (env w)) e = true →
  (poll_cycle w).1 = Ok tt
  ∧ status_of (poll_cycle w).2 id = Some processing
  ∧ dispatches (poll_cycle w).2 id = S (dispatches w id).
Proof.
  intros Hnf Hdb Hpaused He Hdue.
  unfold poll_cycle. rewrite get_bind, Hpaused.
  unfold try_except, bind.
  assert (fetch_due w
          = (Ok (find_due (utcnow (env w)) d),
             set_ticks (S (S (ticks w))) w)) as ->.
  { unfold fetch_due. run_m. rewrite Hdb. simpl.
    rewrite (Hnf (ticks w)). simpl. rewrite (Hnf (S (ticks w))). simpl.
    by rewrite Hdb. }
  set (w1 := set_ticks _ w).
  assert (id ∈ (find_due (utcnow (env w)) d).*1) as Hin.
  { apply list_elem_of_fmap. exists (id, e). split; [done|].
    apply list_elem_of_filter. split; [done|]. by apply elem_of_map_to_list. }
  destruct (dispatch_all_complete (find_due (utcnow (env w)) d) w1 d)
    as [Hok Hall]; [done|done|apply find_due_NoDup|].
  destruct (Hall id Hin) as [Hs Hd].
  destruct (dispatch_all _ w1) as [r w2]; simpl in *. subst r.
  split_and!; [done| |done].
  simpl. rewrite Hs. unfold status_of. simpl. rewrite Hdb. simpl. by rewrite He.
Qed.

Lemma poll_claims_every_due_entry_witness :
  let w := Daemon.sample_world pending in
  let d := set_schedules {[ 1 := sample_entry pending ]} empty_database in
  no_faults w ∧ db w = Some d
  ∧ schedules_paused (globals w) = false
  ∧ schedules d !! 1 = Some (sample_entry pending)
  ∧ is_due (utcnow (env w)) (sample_entry pending) = true
  ∧ (poll_cycle w).1 = Ok tt
  ∧ status_of (poll_cycle w).2 1 = Some processing
  ∧ dispatches (poll_cycle w).2 1 = S (dispatches w 1).
Proof.
  intros w d.
  assert (no_faults w) as Hnf by (intros k; reflexivity).
  split_and!; [exact Hnf | reflexivity | reflexivity | reflexivity | reflexivity
               | | |];
    apply (poll_claims_every_due_entry w d 1 (sample_entry pending) Hnf);
    reflexivity.
Defined.

End PollFacts.

(** *** Further facts on the persistence helpers and the user lock *)

Section StoreEdgeFacts.
Import World Conversation.

Implicit Types (w : world) (d : database) (u : Z).

(** X12.  With the store answering, a conversation state that is saved
    is the state read back, the states of other users are not touched,
    and after [_clear_user_state] the user reads the empty state. *)
Theorem saved_state_is_read_back w d u sd :
  no_faults w → db w = Some d →
  ∃ w1 w2 w3 w4,
    _save_user_state u sd w = (Ok tt, w1)
    ∧ _get_user_state u w1 = (Ok sd, w2)
    ∧ (∀ u', u' ≠ u → stored_state w1 u' = stored_state w u')
    ∧ _clear_user_state u w1 = (Ok tt, w3)
    ∧ _get_user_state u w3 = (Ok no_state, w4)
    ∧ (∀ u', u' ≠ u → stored_state w3 u' = stored_state w u').
Proof.
  intros Hnf Hdb.
  set (d1 := set_user_states (<[u := sd]> (user_states d)) d).
  set (w1 := set_db (Some d1) (set_ticks (S (ticks w)) w)).
  set (d3 := set_user_states (delete u (user_states d1)) d1).
  set (w3 := set_db (Some d3) (set_ticks (S (ticks w1)) w1)).
  assert (no_faults w1) as Hnf1 by done.
  assert (db w1 = Some d1) as Hdb1 by done.
  assert (no_faults w3) as Hnf3 by done.
  assert (db w3 = Some d3) as Hdb3 by done.
  exists w1, (set_ticks (S (ticks w1)) w1), w3, (set_ticks (S (ticks w3)) w3).
  split_and!.
  - apply (save_user_state_ok w u sd d Hnf Hdb).
  - rewrite (get_user_state_ok w1 u d1 Hnf1 Hdb1). f_equal. f_equal.
    unfold stored_state. rewrite Hdb1. simpl. by rewrite lookup_insert_eq.
  - intros u' Hne. unfold stored_state. rewrite Hdb1, Hdb. simpl.
    by rewrite lookup_insert_ne.
  - apply (clear_user_state_ok w1 u d1 Hnf1 Hdb1).
  - rewrite (get_user_state_ok w3 u d3 Hnf3 Hdb3). f_equal. f_equal.
    unfold stored_state. rewrite Hdb3. simpl. by rewrite lookup_delete_eq.
  - intros u' Hne. unfold stored_state. rewrite Hdb3, Hdb. simpl.
    rewrite lookup_delete_ne by done. by rewrite lookup_insert_ne.
Qed.

Lemma saved_state_is_read_back_witness :
  let w := sample_world album_state in
  no_faults w
  ∧ db w = Some (Database {[ 7 := lapsed_user ]} {[ 7 := album_state ]} ∅ ∅ ∅ [])
  ∧ ∃ w1 w2 w3 w4,
      _save_user_state 8 bulk_caption_state w = (Ok tt, w1)
      ∧ _get_user_state 8 w1 = (Ok bulk_caption_state, w2)
      ∧ (∀ u', u' ≠ 8 → stored_state w1 u' = stored_state w u')
      ∧ _clear_user_state 8 w1 = (Ok tt, w3)
      ∧ _get_user_state 8 w3 = (Ok no_state, w4)
      ∧ (∀ u', u' ≠ 8 → stored_state w3 u' = stored_state w u').
Proof.
  intros w.
  assert (no_faults w) as Hnf by (intros k; reflexivity).
  split_and!; [exact Hnf | reflexivity |].
  apply (saved_state_is_read_back w _ 8 bulk_caption_state Hnf eq_refl).
Defined.

(** X13.  Whatever the collaborators answer, a premium check that returns
    a value returns the verdict the stored plan gives at the current
    time (admin, lifetime, or an unexpired plan that is not marked
    expired); it changes no conversation state, no file and no task,
    and nobody's verdict: the only thing it may write is the mark
    [expired] on a plan that has lapsed. *)
Theorem premium_check_follows_stored_plan w u p :
  let r := is_premium_for_platform u p w in
  (∀ b, r.1 = Ok b → b = premium_view w u p)
  ∧ (user_states <$> db r.2) = (user_states <$> db w)
  ∧ files r.2 = files w
  ∧ task_tracker r.2 = task_tracker w
  ∧ ∀ u' p', premium_view r.2 u' p' = premium_view w u' p'.
Proof.
  intros r. subst r.
  destruct (is_premium_steady w u p w (steady_refl w))
    as [(Hst & Hf & Htr & _ & _ & _ & Hpv) Hval].
  by split_and!.
Qed.

(** What [cleanup_temp_files] leaves on disk. *)
Lemma cleanup_temp_files_files l : ∀ w p,
  p ∈ files (cleanup_temp_files l w)
  ↔ p ∈ files w ∧ (Some p ∈ l → p = EmptyString ∨ p ∈ undeletable w).
Proof.
  induction l as [|x l IH]; intros w p.
  { simpl. split; [intros H; split; [done|by intros ?%elem_of_nil]|by intros [? _]]. }
  cbn [cleanup_temp_files].
  set (w1 := match x with Some _ => _ | None => _ end).
  assert (undeletable w1 = undeletable w
          ∧ (p ∈ files w1
             ↔ p ∈ files w ∧ (Some p = x → p = EmptyString ∨ p ∈ undeletable w)))
    as [Hund Hw1].
  { subst w1. destruct x as [q|]; [|split; [done|]; split; [by split|by intros [? _]]].
    destruct (decide (q = EmptyString)) as [->|Hq].
    { simpl. split; [done|]. split; [intros H; split; [done|]; intros [= ->]; by left
                                    |by intros [? _]]. }
    rewrite (truthy_Some q Hq). simpl.
    destruct (bool_decide_reflect (q ∈ files w)) as [Hin|Hout].
    - destruct (bool_decide_reflect (q ∈ undeletable w)) as [Hu|Hd].
      + split; [done|]. split; [|by intros [? _]].
        intros H; split; [done|]. intros [= ->]. by right.
      + simpl. split; [done|]. rewrite elem_of_difference, elem_of_singleton.
        split.
        * intros [H Hne]. split; [done|]. intros [= ->]. done.
        * intros [H Himp]. split; [done|]. intros ->.
          destruct (Himp eq_refl); done.
    - split; [done|]. split; [|by intros [? _]].
      intros H. split; [done|]. intros [= ->]. done. }
  rewrite IH, Hw1, Hund, elem_of_cons. split.
  - intros [[Hin Hx] Hl]. split; [done|]. intros [Heq|Hin']; auto.
  - intros [Hin Himp]. split_and!; auto.
Qed.

(** X14.  [cleanup_temp_files] removes from the disk exactly the files
    it is given that exist, have a non-empty name and can be removed;
    every other file stays, a path listed twice or missing is not an
    error, and nothing but the disk changes. *)
Theorem cleanup_removes_exactly_the_listed_files l w :
  let w' := cleanup_temp_files l w in
  (∀ p, p ∈ files w'
        ↔ p ∈ files w ∧ (Some p ∈ l → p = EmptyString ∨ p ∈ undeletable w))
  ∧ db w' = db w
  ∧ semaphores w' = semaphores w
  ∧ undeletable w' = undeletable w
  ∧ cleanup_temp_files l w' = w'.
Proof.
  intros w'. subst w'.
  destruct (cleanup_temp_files_spec l w)
    as (Hs & _ & Hund & _ & Hdb & _).
  split_and!; try done.
  - intros p. apply cleanup_temp_files_files.
  - assert (∀ l' w0, (∀ p, Some p ∈ l' → p ∈ files w0 →
                         p = EmptyString ∨ p ∈ undeletable w0) →
                     cleanup_temp_files l' w0 = w0) as Hid.
    { induction l' as [|x l' IH]; intros w0 Hnone; [done|].
      cbn [cleanup_temp_files].
      assert (match x with
              | Some p =>
                  if truthy x && bool_decide (p ∈ files w0)
                  then if bool_decide (p ∈ undeletable w0) then w0
                       else set_disk (files w0 ∖ {[p]}) (written w0) w0
                  else w0
              | None => w0
              end = w0) as ->.
      { destruct x as [q|]; [|done].
        destruct (decide (q = EmptyString)) as [->|Hq]; [done|].
        rewrite (truthy_Some q Hq). simpl.
        destruct (bool_decide_reflect (q ∈ files w0)) as [Hin|]; [|done].
        destruct (Hnone q) as [?|Hu]; [by left|done|done|].
        by rewrite bool_decide_true. }
      apply IH. intros p Hp. apply Hnone. by right. }
    apply Hid. intros p Hp Hin.
    apply cleanup_temp_files_files in Hin as [_ Himp]. rewrite Hund. auto.
Qed.

(** X15.  While a user's lock is held, a second handler call for that
    user does not run the handler at all: whatever the handler is, the
    store, the disk, the tasks and the locks are as before, and the user
    is told that another operation is in progress. *)
Theorem busy_user_is_turned_away (handler : message → M unit) msg w :
  from_user msg ∈ user_upload_locks w →
  let r := with_user_lock handler msg w in
  db r.2 = db w
  ∧ files r.2 = files w
  ∧ task_tracker r.2 = task_tracker w
  ∧ user_upload_locks r.2 = user_upload_locks w
  ∧ (r.1 = Ok tt →
     outbox r.2
     = Reply (msg_id msg) "Another Operation Is Already In Progress." :: outbox w).
Proof.
  intros Hbusy r. subst r. unfold with_user_lock. rewrite get_bind.
  rewrite bool_decide_true by done. unfold reply. run_m.
  destruct (faults (env w) (ticks w)); simpl; by split_and!.
Qed.

Lemma busy_user_is_turned_away_witness :
  let w := set_user_upload_locks {[ 7 ]} (sample_world album_state) in
  let r := with_user_lock (handle_media_upload no_other_flows) oversize_message w in
  from_user oversize_message ∈ user_upload_locks w
  ∧ db r.2 = db w
  ∧ files r.2 = files w
  ∧ task_tracker r.2 = task_tracker w
  ∧ user_upload_locks r.2 = user_upload_locks w
  ∧ (r.1 = Ok tt →
     outbox r.2
     = Reply (msg_id oversize_message) "Another Operation Is Already In Progress."
         :: outbox w).
Proof.
  intros w r.
  assert (from_user oversize_message ∈ user_upload_locks w) as Hbusy.
  { subst w. cbn [user_upload_locks set_user_upload_locks].
    by apply elem_of_singleton_2. }
  split; [exact Hbusy|].
  exact (busy_user_is_turned_away (handle_media_upload no_other_flows)
           oversize_message w Hbusy).
Defined.

(** X16.  [with_user_lock] gives the lock back however the handler ends:
    for a handler that does not touch the locks itself and does not
    wait for a permit, the set of locked users after the call is the set
    before it, whether the handler returned or raised. *)
Theorem user_lock_is_given_back (handler : message → M unit) msg w :
  (∀ w0, (handler msg w0).1 ≠ Blocked
         ∧ user_upload_locks (handler msg w0).2 = user_upload_locks w0) →
  (with_user_lock handler msg w).1 ≠ Blocked
  ∧ user_upload_locks (with_user_lock handler msg w).2 = user_upload_locks w.
Proof.
  intros Hh. unfold with_user_lock. rewrite get_bind.
  destruct (bool_decide_reflect (from_user msg ∈ user_upload_locks w)) as [Hin|Hout].
  { unfold reply. run_m. by destruct (faults (env w) (ticks w)). }
  rewrite modify_bind. unfold try_finally.
  set (w1 := set_user_upload_locks _ w).
  destruct (Hh w1) as [Hnb Hlocks].
  assert (({[from_user msg]} ∪ user_upload_locks w) ∖ {[from_user msg]}
          = user_upload_locks w) as Hback.
  { apply set_eq. intros x.
    rewrite elem_of_difference, elem_of_union, elem_of_singleton. split.
    - intros [[->|Hx] Hne]; done.
    - intros Hx. split; [by right|]. by intros ->. }
  destruct (handler msg w1) as [[[]|e|] w2]; simpl in *; [| |done];
    (split; [done|]); by rewrite Hlocks.
Qed.

Lemma user_lock_is_given_back_witness :
  let w := sample_world album_state in
  let handler := λ msg : message, _clear_user_state (from_user msg) in
  (∀ w0, (handler oversize_message w0).1 ≠ Blocked
         ∧ user_upload_locks (handler oversize_message w0).2 = user_upload_locks w0)
  ∧ (with_user_lock handler oversize_message w).1 ≠ Blocked
  ∧ user_upload_locks (with_user_lock handler oversize_message w).2
    = user_upload_locks w.
Proof.
  intros w handler.
  assert (∀ w0, (handler oversize_message w0).1 ≠ Blocked
                ∧ user_upload_locks (handler oversize_message w0).2
                  = user_upload_locks w0) as Hh.
  { intros w0. subst handler. simpl. unfold _clear_user_state. run_m.
    destruct (db w0); simpl; [|done].
    by destruct (faults (env w0) (ticks w0)). }
  split; [exact Hh|].
  exact (user_lock_is_given_back handler oversize_message w Hh).
Defined.

End StoreEdgeFacts.

(** *** Further facts on the upload pipeline *)

Section PipelineEdgeFacts.
Import World Pipeline.

Implicit Types (w : world).

(** **** No step of the [try] block waits *)

Lemma nw_quiet {A} (m : M A) :
  quiet m → ends (λ _, True) m (λ _ _, True) (λ _, True).
Proof. intros Hm. by apply (ends_quiet (λ _, True) (λ _, True) m Hm). Qed.

Lemma nw_ret {A} (a : A) : ends (λ _, True) (ret a) (λ _ _, True) (λ _, True).
Proof. by apply ends_ret. Qed.

Lemma nw_raise {A} e :
  ends (λ _, True) (raise (A := A) e) (λ _ _, True) (λ _, True).
Proof. by apply ends_raise. Qed.

Lemma nw_modify f : ends (λ _, True) (modify f) (λ _ _, True) (λ _, True).
Proof. by intros w _. Qed.

Lemma nw_bind {A B} (m : M A) (f : A → M B) :
  ends (λ _, True) m (λ _ _, True) (λ _, True) →
  (∀ a, ends (λ _, True) (f a) (λ _ _, True) (λ _, True)) →
  ends (λ _, True) (bind m f) (λ _ _, True) (λ _, True).
Proof. intros Hm Hf. by apply ends_bind with (R := λ _ _, True). Qed.

Lemma nw_get_bind {B} (k : world → M B) :
  (∀ v, ends (λ _, True) (k v) (λ _ _, True) (λ _, True)) →
  ends (λ _, True) (bind get k) (λ _ _, True) (λ _, True).
Proof. intros Hk w _. by apply (Hk w w). Qed.

Lemma nw_write_file p :
  ends (λ _, True) (write_file p) (λ _ _, True) (λ _, True).
Proof. apply nw_modify. Qed.

Lemma nw_record_file p :
  ends (λ _, True) (record_file p) (λ _ _, True) (λ _, True).
Proof. apply nw_modify. Qed.

Lemma nw_fetch : ends (λ _, True) fetch (λ _ _, True) (λ _, True).
Proof.
  unfold fetch. apply nw_get_bind. intros v.
  apply nw_bind; [apply nw_quiet, quiet_await|]. intros _.
  apply nw_bind; [|intros _; apply nw_ret].
  destruct (download_media (env v) (ticks v)); [apply nw_write_file|apply nw_ret].
Qed.

Lemma nw_download_all ids :
  ends (λ _, True) (download_all ids) (λ _ _, True) (λ _, True).
Proof.
  induction ids as [|file_id ids IH]; simpl; [apply nw_ret|].
  destruct (negb (truthy file_id)); [exact IH|].
  apply nw_bind; [apply nw_fetch|]. intros path.
  apply nw_bind; [apply nw_record_file|]. intros _.
  apply nw_bind; [exact IH|]. intros paths. apply nw_ret.
Qed.

Lemma nw_leave_behind paths :
  ends (λ _, True) (leave_behind paths) (λ _ _, True) (λ _, True).
Proof.
  induction paths as [|p paths IH]; simpl; [apply nw_ret|].
  apply nw_get_bind. intros v. apply nw_bind; [|by intros _].
  destruct (bool_decide (p ∈ partial_outputs v)); [apply nw_write_file|apply nw_ret].
Qed.

Lemma nw_to_thread {A} paths (tool : M A) :
  ends (λ _, True) tool (λ _ _, True) (λ _, True) →
  ends (λ _, True) (to_thread paths tool) (λ _ _, True) (λ _, True).
Proof.
  intros Htool. unfold to_thread. apply nw_bind; [|by intros _].
  apply ends_try_except with (E' := λ _, True); [apply nw_quiet, quiet_await|].
  intros e. apply nw_bind; [apply nw_leave_behind|]. intros _. apply nw_raise.
Qed.

Lemma nw_render up : ends (λ _, True) (render up) (λ _ _, True) (λ _, True).
Proof.
  destruct up as [p|]; simpl; [|apply nw_raise].
  apply nw_get_bind. intros v.
  destruct (render_ok (env v) p);
    (apply nw_bind; [|intros _; apply nw_ret]);
    [apply nw_write_file|apply nw_leave_behind].
Qed.

Lemma nw_apply_watermark up s :
  ends (λ _, True) (apply_watermark up s) (λ _ _, True) (λ _, True).
Proof.
  unfold apply_watermark. apply nw_get_bind. intros v.
  destruct (negb (wm_enabled (watermark s)) || force_disable_watermark (globals v));
    [apply nw_ret|].
  destruct (bool_decide (wm_type (watermark s) = "text")).
  { unfold apply_text_watermark.
    destruct (bool_decide (wm_text (watermark s) = EmptyString));
      [apply nw_ret|apply nw_render]. }
  destruct (bool_decide (wm_type (watermark s) = "image")); [|apply nw_ret].
  unfold apply_image_watermark.
  destruct (wm_image_id (watermark s)) as [image_id|]; [|apply nw_ret].
  destruct (bool_decide (image_id = EmptyString)); [apply nw_ret|].
  apply nw_get_bind. intros v'. apply nw_bind.
  { destruct (bool_decide (watermark_cache image_id ∈ files v')); [apply nw_ret|].
    destruct (fetch_watermark_ok (env v'));
      (apply nw_bind; [|intros _; apply nw_ret]);
      [apply nw_write_file|apply nw_leave_behind]. }
  intros [|]; [apply nw_render|apply nw_ret].
Qed.

Lemma nw_transform m upload_type s path :
  ends (λ _, True) (transform m upload_type s path) (λ _ _, True) (λ _, True).
Proof.
  unfold transform. apply nw_bind.
  { destruct (bool_decide (upload_type ∈ ["reel"; "story"; "album"]));
      [|apply nw_ret].
    destruct path as [p|]; [|apply nw_raise].
    destruct (Text.has_extension video_extensions p); [|apply nw_ret].
    apply nw_get_bind. intros v.
    apply nw_bind; [apply nw_quiet, quiet_await|]. intros _.
    destruct (needs_conversion (env v) p); [|apply nw_ret].
    apply nw_bind; [apply nw_quiet, quiet_safe_edit_message|]. intros _.
    apply nw_bind.
    { apply nw_to_thread. apply nw_bind; [apply nw_write_file|].
      intros _. apply nw_ret. }
    intros q. apply nw_bind; [apply nw_record_file|]. intros _. apply nw_ret. }
  intros up. apply nw_get_bind. intros v.
  destruct (wm_enabled (watermark s) && negb (force_disable_watermark (globals v)));
    [|apply nw_ret].
  apply nw_bind; [apply nw_quiet, quiet_safe_edit_message|]. intros _.
  apply nw_bind; [apply nw_to_thread, nw_apply_watermark|]. intros q.
  destruct (bool_decide (q = up)); [apply nw_ret|].
  apply nw_bind; [apply nw_record_file|]. intros _. apply nw_ret.
Qed.

Lemma nw_transform_all m upload_type s paths :
  ends (λ _, True) (transform_all m upload_type s paths) (λ _ _, True) (λ _, True).
Proof.
  induction paths as [|path paths IH]; simpl; [apply nw_ret|].
  apply nw_bind; [apply nw_transform|]. intros up.
  apply nw_bind; [exact IH|]. intros ups. apply nw_ret.
Qed.

Lemma nw_upload_body m fi u sch sid :
  ends (λ _, True) (upload_body m fi u sch sid) (λ _ _, True) (λ _, True).
Proof.
  unfold upload_body.
  apply nw_bind; [apply nw_quiet, quiet_get_user_settings|]. intros s.
  apply nw_bind; [apply nw_quiet, quiet_is_premium_for_platform|]. intros b.
  apply nw_get_bind. intros v.
  apply nw_bind; [apply nw_quiet, quiet_safe_edit_message|]. intros _.
  apply nw_bind.
  { destruct (bool_decide (fi_platform fi = "instagram")); [|apply nw_ret].
    unfold instagram_upload.
    apply nw_bind; [apply nw_quiet, quiet_open_session|]. intros _.
    apply nw_bind.
    { destruct b; [apply nw_quiet, quiet_find_usertags|apply nw_ret]. }
    intros _. apply nw_bind; [apply nw_download_all|]. intros paths.
    apply nw_bind; [apply nw_transform_all|]. intros finals.
    apply nw_bind; [apply nw_quiet, quiet_safe_edit_message|]. intros _.
    apply nw_bind; [apply nw_quiet, quiet_publish|]. intros result.
    destruct (result && negb (bool_decide (_ = EmptyString)));
      [apply nw_quiet, quiet_await|apply nw_ret]. }
  intros _. apply nw_bind; [apply nw_quiet, quiet_record_outcome|]. intros _.
  apply nw_bind; [apply nw_quiet, quiet_safe_edit_message|]. intros _.
  unfold send_log_to_channel.
  apply nw_bind; [apply nw_quiet, quiet_await_safe|]. intros _. apply nw_ret.
Qed.

Lemma safe_edit_message_outcomes m text w :
  (safe_edit_message m text w).1 = Ok tt
  ∨ (safe_edit_message m text w).1 = Raise CancelledError.
Proof.
  destruct m as [id|]; simpl; [|by left]. unfold push_sent. run_m.
  destruct (faults (env w) (ticks w)) as [[]|]; simpl; auto.
Qed.

(** The [try] block with its [except] clauses lets nothing out but a
    cancellation. *)
Lemma attempt_outcomes m fi u sch sid w :
  (try_except (upload_body m fi u sch sid) (on_failure m) w).1 = Ok tt
  ∨ (try_except (upload_body m fi u sch sid) (on_failure m) w).1
    = Raise CancelledError.
Proof.
  unfold try_except.
  pose proof (nw_upload_body m fi u sch sid w I) as Hnw.
  destruct (upload_body m fi u sch sid w) as [[[]|e|] w1]; simpl in *;
    [by left| |done].
  apply safe_edit_message_outcomes.
Qed.

(** X17.  A scheduled run whose progress message went out lets no fault
    escape: every exception of the store, of the platform client and of
    the transforms is caught by the [except] clauses, so the run returns
    normally or is cancelled (or is still waiting for a permit). *)
Theorem scheduled_run_contains_faults fi u sid w :
  faults (env w) (ticks w) = None →
  let r := process_and_upload None fi u true sid w in
  r.1 = Ok tt ∨ r.1 = Raise CancelledError ∨ r.1 = Blocked.
Proof.
  intros Hsend r. subst r. unfold process_and_upload, announce.
  unfold bind at 1. unfold try_except, send_message. run_m.
  rewrite Hsend. simpl.
  unfold with_upload_semaphore. run_m. unfold acquire.
  match goal with |- context [0 <? ?v] => destruct (0 <? v) end; simpl.
  2:{ match goal with |- context [faults ?e ?k] =>
        destruct (faults e k) as [[]|] end; simpl; auto. }
  unfold try_finally, guarded, reset_files_to_clean. run_m.
  unfold try_finally.
  match goal with |- context [try_except ?b ?h ?w0] =>
    pose proof (attempt_outcomes (next_message_id w) fi u true sid w0) as Hatt;
    destruct (try_except b h w0) as [r1 w1] end.
  simpl in Hatt. unfold finally_clause, release. run_m.
  destruct Hatt as [-> | ->]; simpl; auto.
Qed.

Lemma scheduled_run_contains_faults_witness :
  let w := scheduled_world in
  let r := process_and_upload None (file_info_of (Daemon.sample_entry processing))
             7 true (Some 1) w in
  faults (env w) (ticks w) = None
  ∧ (r.1 = Ok tt ∨ r.1 = Raise CancelledError ∨ r.1 = Blocked).
Proof.
  intros w r. split; [reflexivity|].
  exact (scheduled_run_contains_faults
           (file_info_of (Daemon.sample_entry processing)) 7 (Some 1) w eq_refl).
Defined.

Lemma clear_user_state_result u w w' :
  _clear_user_state u w = (Ok tt, w') → stored_state w' u = no_state.
Proof.
  unfold _clear_user_state, stored_state. run_m.
  destruct (db w) as [d|] eqn:Hdb; simpl.
  - destruct (faults (env w) (ticks w)); simpl; [done|].
    unfold modify. intros [= <-]. simpl. rewrite Hdb. simpl.
    by rewrite lookup_delete_eq.
  - intros [= <-]. by rewrite Hdb.
Qed.

Lemma guarded_interactive_result m fi u sid w w' :
  guarded m fi u false sid w = (Ok tt, w') → stored_state w' u = no_state.
Proof.
  unfold guarded, reset_files_to_clean. rewrite modify_bind. unfold try_finally.
  destruct (try_except _ _ _) as [[[]|e|] w1]; [| |done];
    unfold finally_clause; rewrite get_bind, modify_bind;
    destruct (_clear_user_state u _) as [[[]|e'|] w2] eqn:Hclear; try done.
  intros [= <-]. by eapply clear_user_state_result.
Qed.

(** X18.  Whenever an interactive run of the pipeline returns normally,
    whether it published or one of its [except] clauses handled a
    fault, the user's conversation state has been deleted. *)
Theorem interactive_run_clears_state m fi u sid w :
  let r := process_and_upload (Some m) fi u false sid w in
  r.1 = Ok tt → stored_state r.2 u = no_state.
Proof.
  intros r. subst r.
  destruct (process_and_upload (Some m) fi u false sid w) as [r w'] eqn:Hrun.
  simpl. intros ->. revert Hrun. unfold process_and_upload, announce.
  rewrite ret_bind, modify_bind. unfold with_upload_semaphore. rewrite get_bind.
  unfold bind.
  destruct (acquire _ _) as [[[]|e|] w2]; [|done|done].
  unfold try_finally.
  destruct (guarded m fi u false sid w2) as [[[]|e|] w3] eqn:Hg; [|done|done].
  unfold release, modify. intros [= <-].
  apply guarded_interactive_result in Hg. exact Hg.
Qed.

Lemma interactive_run_clears_state_witness :
  let r := process_and_upload (Some 50) sample_file_info 7 false None sample_world in
  r.1 = Ok tt ∧ stored_state r.2 7 = no_state.
Proof.
  intros r.
  assert (r.1 = Ok tt) as Hok by (vm_compute; reflexivity).
  split; [exact Hok|].
  exact (interactive_run_clears_state 50 sample_file_info 7 None sample_world Hok).
Defined.

(** X19.  When the progress message of a scheduled run cannot be sent,
    the run marks its entry [failed] and returns at once: no permit is
    taken, the user's [timeout] task is not cancelled, nothing is
    downloaded and nothing is sent. *)
Theorem unsent_progress_message_marks_failed fi u id w d e :
  faults (env w) (ticks w) = Some e → is_exception e = true →
  faults (env w) (S (ticks w)) = None →
  db w = Some d →
  process_and_upload None fi u true (Some id) w
  = (Ok tt, set_db (Some (Daemon.update_status id failed d))
              (set_ticks (S (S (ticks w))) w)).
Proof.
  intros Hfault Hexn Hnext Hdb.
  unfold process_and_upload, announce, try_except, send_message,
    set_schedule_status.
  run_m. rewrite Hfault. simpl. rewrite Hexn. simpl.
  rewrite Hdb. simpl. rewrite Hnext. simpl. by rewrite Hdb.
Qed.

Lemma unsent_progress_message_marks_failed_witness :
  let w := set_env (Oracle (λ k, if decide (k = 0%nat) then Some Exception else None)
                      1000 (λ _, None) (λ _, false) (λ _, true) true)
             scheduled_world in
  let d := Database ∅ ∅
             {[ 7 := UserSettings "" "" (Some "acct")
                       (WatermarkSettings false "text" "" None) None ]}
             {[ (7, "instagram", "acct") ]}
             {[ 1 := Daemon.sample_entry processing ]} [] in
  faults (env w) (ticks w) = Some Exception ∧ is_exception Exception = true
  ∧ faults (env w) (S (ticks w)) = None
  ∧ db w = Some d
  ∧ process_and_upload None (file_info_of (Daemon.sample_entry processing)) 7 true
      (Some 1) w
    = (Ok tt, set_db (Some (Daemon.update_status 1 failed d))
                (set_ticks (S (S (ticks w))) w)).
Proof.
  intros w d. split_and!; [reflexivity | reflexivity | reflexivity | reflexivity |].
  apply (unsent_progress_message_marks_failed
           (file_info_of (Daemon.sample_entry processing)) 7 1 w d Exception);
    reflexivity.
Defined.

End PipelineEdgeFacts.

(** *** The album and bulk flows *)

Section FlowFacts.
Import World Conversation Flows.

Implicit Types (w : world) (d : database) (sd : state_data).

(** **** Storing the posts of a schedule *)

Lemma window_loop_length caps win end_today interval n : ∀ cur i posts,
  BulkSchedule.window_loop caps win end_today interval cur i n = Some posts →
  length posts = n.
Proof.
  induction n as [|n IH]; intros cur i posts; simpl; [by intros [= <-]|].
  destruct (caps !! i) as [c|]; [|done].
  destruct (BulkSchedule.window_loop _ _ _ _ _ _ n) as [rest|] eqn:Hrest; [|done].
  intros [= <-]. simpl. f_equal. by eapply IH.
Qed.

Lemma fixed_step_loop_length caps base step n : ∀ i posts,
  BulkSchedule.fixed_step_loop caps base step i n = Some posts →
  length posts = n.
Proof.
  induction n as [|n IH]; intros i posts; simpl; [by intros [= <-]|].
  destruct (caps !! i) as [c|]; [|done].
  destruct (BulkSchedule.fixed_step_loop _ _ _ _ n) as [rest|] eqn:Hrest; [|done].
  intros [= <-]. simpl. f_equal. by eapply IH.
Qed.

Lemma of_loop_length r n posts :
  (∀ l, r = Some l → length l = n) →
  BulkSchedule.of_loop r = BulkSchedule.Scheduled posts → (length posts <= n)%nat.
Proof. destruct r as [l|]; [|done]. intros Hl [= <-]. by rewrite (Hl l). Qed.

(** The handler never gets more posts than there are media items. *)
Lemma compute_schedule_length windows key now_utc now_ist n caps posts :
  BulkSchedule.compute_schedule windows key now_utc now_ist n caps
  = BulkSchedule.Scheduled posts →
  (length posts <= n)%nat.
Proof.
  unfold BulkSchedule.compute_schedule.
  destruct (decide (n = O)); [done|].
  repeat (match goal with
          | |- context [decide (key = ?s)] => destruct (decide (key = s))
          end;
          [apply of_loop_length; intros l; apply fixed_step_loop_length|]).
  destruct (decide _); [|intros [= <-]; simpl; lia].
  destruct (windows !! key) as [win|]; [|done].
  unfold BulkSchedule.window_schedule.
  repeat (match goal with
          | |- context [if ?b then _ else _] => destruct b; try done
          end).
  all: apply of_loop_length; intros l; apply window_loop_length.
Qed.

Lemma insert_one_ok w d doc :
  no_faults w → db w = Some d →
  insert_one doc w
  = (Ok tt,
     set_db (Some (set_schedules
                     (<[fresh (dom (schedules d)) := doc]> (schedules d)) d))
       (set_ticks (S (ticks w)) w)).
Proof.
  intros Hnf Hdb. unfold insert_one.
  rewrite (run_bind _ _ _ _ _ (await_ok w Hnf)).
  unfold modify_db, modify. simpl. by rewrite Hdb.
Qed.

(** The loop of [save_bulk_schedules]: when every post has its document,
    each one is stored under a key of its own that was not in use, and
    nothing else changes in the store. *)
Lemma save_posts_ok u sd posts : ∀ i w d,
  no_faults w → db w = Some d →
  (∀ k post, posts !! k = Some post →
     is_Some (schedule_document u sd (i + k) post)) →
  ∃ keys scs n,
    save_posts u sd i posts w
    = (Ok tt, set_db (Some (set_schedules scs d)) (set_ticks n w))
    ∧ length keys = length posts ∧ NoDup keys
    ∧ (∀ id, id ∈ keys → schedules d !! id = None)
    ∧ (∀ k id post, keys !! k = Some id → posts !! k = Some post →
         scs !! id = schedule_document u sd (i + k) post)
    ∧ (∀ id, id ∉ keys → scs !! id = schedules d !! id).
Proof.
  induction posts as [|post rest IH]; intros i w d Hnf Hdb Hdocs.
  { exists [], (schedules d), (ticks w). split_and!; try done.
    - simpl. unfold ret. f_equal.
      destruct w; simpl in *; subst; by destruct d.
    - constructor.
    - by intros id ?%elem_of_nil. }
  simpl.
  destruct (Hdocs 0%nat post eq_refl) as [doc Hdoc].
  rewrite Nat.add_0_r in Hdoc. rewrite Hdoc.
  rewrite (run_bind _ _ _ _ _ (insert_one_ok w d doc Hnf Hdb)).
  set (id0 := fresh (dom (schedules d))).
  set (d1 := set_schedules _ d). set (w1 := set_db _ _).
  assert (schedules d !! id0 = None) as Hfresh.
  { apply not_elem_of_dom. apply is_fresh. }
  destruct (IH (S i) w1 d1) as (keys & scs & n & Hrun & Hlen & Hnd & Hnew & Hat & Hold).
  { by eapply no_faults_env. }
  { done. }
  { intros k p Hk. replace (S i + k)%nat with (i + S k)%nat by lia.
    by apply Hdocs. }
  assert (id0 ∉ keys) as Hid0.
  { intros Hin. specialize (Hnew _ Hin). subst d1. simpl in Hnew.
    by rewrite lookup_insert_eq in Hnew. }
  exists (id0 :: keys), scs, n. split_and!.
  - rewrite Hrun. by destruct d.
  - simpl. by rewrite Hlen.
  - by constructor.
  - intros id [-> | Hin]%elem_of_cons; [done|].
    specialize (Hnew _ Hin). subst d1. simpl in Hnew.
    rewrite lookup_insert_ne in Hnew; [done|]. by intros <-.
  - intros [|k] id p; simpl.
    + intros [= <-] [= <-]. rewrite Nat.add_0_r, Hdoc.
      rewrite (Hold _ Hid0). subst d1. simpl. by rewrite lookup_insert_eq.
    + intros Hk Hp. rewrite (Hat _ _ _ Hk Hp). f_equal. lia.
  - intros id [Hne Hnin]%not_elem_of_cons.
    rewrite (Hold _ Hnin). subst d1. simpl. by rewrite lookup_insert_ne.
Qed.

Lemma stored_state_lookup w d u sd :
  db w = Some d → user_states d !! u = Some sd → stored_state w u = sd.
Proof. intros Hdb Hsd. unfold stored_state. rewrite Hdb. simpl. by rewrite Hsd. Qed.

Lemma schedule_document_Some u sd i post ids msgs platform upload_type file_id m :
  media_file_ids sd = Some ids → media_msgs sd = Some msgs →
  sd_platform sd = Some platform → sd_upload_type sd = Some upload_type →
  ids !! i = Some file_id → msgs !! i = Some m →
  schedule_document u sd i post
  = Some (Schedule u platform upload_type (Some file_id) (Some m.2)
            (BulkSchedule.caption post) (BulkSchedule.run_at post) pending).
Proof.
  intros Hids Hmsgs Hp Hu Hi Hm. unfold schedule_document.
  rewrite Hids, Hmsgs, Hp, Hu. simpl. by rewrite Hi, Hm.
Qed.

(** X20.  When a preset is chosen for a complete bulk collection and
    nothing fails, every post of the computed schedule is stored as one
    new [pending] entry under a key that was not in use, carrying the
    user, the platform and upload type of the state, the file and the
    message of the media item at the same position, and the caption and
    time of the post; the entries that were there are untouched and the
    user's conversation state is deleted. *)
Theorem scheduling_stores_one_entry_per_post
    q w d sd ids msgs platform upload_type posts :
  no_faults w → db w = Some d →
  user_states d !! query_from_user q = Some sd →
  media_file_ids sd = Some ids → ids ≠ [] →
  media_msgs sd = Some msgs → length msgs = length ids →
  sd_platform sd = Some platform → sd_upload_type sd = Some upload_type →
  BulkSchedule.compute_schedule (scheduling_windows (globals w)) (preset_key q)
    (utcnow (env w)) (Clock.to_ist (utcnow (env w))) (length ids)
    (bulk_captions sd)
  = BulkSchedule.Scheduled posts →
  ∃ w' d' keys,
    schedule_preset_cb q w = (Ok tt, w') ∧ db w' = Some d'
    ∧ length keys = length posts ∧ NoDup keys
    ∧ (∀ id, id ∈ keys → schedules d !! id = None)
    ∧ (∀ k id post, keys !! k = Some id → posts !! k = Some post →
         ∃ file_id m,
           ids !! k = Some file_id ∧ msgs !! k = Some m
           ∧ schedules d' !! id
             = Some (Schedule (query_from_user q) platform upload_type
                       (Some file_id) (Some m.2) (BulkSchedule.caption post)
                       (BulkSchedule.run_at post) pending))
    ∧ (∀ id, id ∉ keys → schedules d' !! id = schedules d !! id)
    ∧ user_states d' !! query_from_user q = None.
Proof.
  intros Hnf Hdb Hsd Hids Hne Hmsgs Hlen Hplat Hut Hsched.
  set (u := query_from_user q) in *.
  pose proof (compute_schedule_length _ _ _ _ _ _ _ Hsched) as Hle.
  assert (∀ k post, posts !! k = Some post →
            ∃ file_id m, ids !! k = Some file_id ∧ msgs !! k = Some m
              ∧ schedule_document u sd k post
                = Some (Schedule u platform upload_type (Some file_id) (Some m.2)
                          (BulkSchedule.caption post) (BulkSchedule.run_at post)
                          pending)) as Hdocs.
  { intros k post Hk. apply lookup_lt_Some in Hk.
    destruct (lookup_lt_is_Some_2 ids k ltac:(lia)) as [file_id Hf].
    destruct (lookup_lt_is_Some_2 msgs k ltac:(lia)) as [m Hm].
    exists file_id, m. split_and!; [done|done|].
    by eapply schedule_document_Some. }
  unfold schedule_preset_cb. fold u.
  rewrite (run_bind _ _ _ _ _ (get_user_state_ok w u d Hnf Hdb)).
  rewrite (stored_state_lookup w d u sd Hdb Hsd). rewrite Hids.
  change (default [] (Some ids)) with ids.
  destruct (decide (length ids = 0%nat)) as [Hz|_].
  { by destruct ids. }
  set (w1 := set_ticks _ w).
  assert (no_faults w1) as Hnf1 by (by eapply no_faults_env).
  unfold answer at 1. rewrite (run_bind _ _ _ _ _ (await_ok w1 Hnf1)).
  set (w2 := set_ticks _ w1). rewrite get_bind.
  change (globals w2) with (globals w). change (env w2) with (env w).
  rewrite Hsched. unfold save_bulk_schedules. rewrite bind_assoc, get_bind.
  change (db w2) with (db w). rewrite Hdb.
  destruct (save_posts_ok u sd posts 0 w2 d) as
    (keys & scs & n & Hrun & Hklen & Hnd & Hnew & Hat & Hold).
  { by eapply no_faults_env. }
  { done. }
  { intros k post Hk. change (0 + k)%nat with k.
    destruct (Hdocs k post Hk) as (? & ? & _ & _ & ->).
    by eexists. }
  rewrite (run_bind _ _ _ _ _ Hrun).
  set (d3 := set_schedules scs d). set (w3 := set_db _ _).
  assert (no_faults w3) as Hnf3 by (by eapply no_faults_env).
  rewrite (run_bind _ _ _ _ _ (safe_edit_message_ok w3 _ _ Hnf3)).
  set (w4 := set_transport _ _ _).
  assert (no_faults w4) as Hnf4 by (by eapply no_faults_env).
  rewrite (clear_user_state_ok w4 u d3 Hnf4 eq_refl).
  eexists _, _, keys. split; [reflexivity|]. split; [reflexivity|].
  split_and!; try done.
  - intros k id post Hk Hp. destruct (Hdocs k post Hp) as (f & m & Hf & Hm & Hdoc).
    exists f, m. split_and!; [done|done|]. simpl.
    rewrite (Hat _ _ _ Hk Hp). exact Hdoc.
  - simpl. by rewrite lookup_delete_eq.
Qed.

Lemma scheduling_stores_one_entry_per_post_witness :
  let w := Conversation.sample_world preset_state in
  let d := Database {[ 7 := lapsed_user ]} {[ 7 := preset_state ]} ∅ ∅ ∅ [] in
  let posts := [BulkSchedule.Post 1000 (Some "one"%string);
                BulkSchedule.Post (1000 + Clock.hours 1) (Some "two"%string)] in
  no_faults w ∧ db w = Some d
  ∧ ∃ w' d' keys,
      schedule_preset_cb hourly_query w = (Ok tt, w') ∧ db w' = Some d'
      ∧ length keys = length posts ∧ NoDup keys
      ∧ (∀ id, id ∈ keys → schedules d !! id = None)
      ∧ (∀ k id post, keys !! k = Some id → posts !! k = Some post →
           ∃ file_id m,
             ["file-1"; "file-2"] !! k = Some file_id
             ∧ [(7, 31); (7, 32)] !! k = Some m
             ∧ schedules d' !! id
               = Some (Schedule 7 "instagram" "bulk_reel" (Some file_id) (Some m.2)
                         (BulkSchedule.caption post) (BulkSchedule.run_at post)
                         pending))
      ∧ (∀ id, id ∉ keys → schedules d' !! id = schedules d !! id)
      ∧ user_states d' !! 7 = None.
Proof.
  intros w d posts.
  assert (no_faults w) as Hnf by (intros k; reflexivity).
  split; [exact Hnf|]. split; [reflexivity|].
  apply (scheduling_stores_one_entry_per_post hourly_query w d preset_state
           ["file-1"; "file-2"] [(7, 31); (7, 32)] "instagram" "bulk_reel" posts
           Hnf eq_refl);
    [reflexivity | reflexivity | done | reflexivity | reflexivity | reflexivity
    | reflexivity | vm_compute; reflexivity].
Defined.

(** **** [/skip] in the bulk flow *)

Lemma fixed_presets_total windows key now_utc now_ist n caps :
  key ∈ ["1_hour"; "3_hours"; "6_hours"; "12_hours"; "once_daily"] →
  n ≠ 0%nat → (n <= length (BulkSchedule.captions_of caps))%nat →
  ∃ post rest,
    BulkSchedule.compute_schedule windows key now_utc now_ist n caps
    = BulkSchedule.Scheduled (post :: rest).
Proof.
  intros Hkey Hn Hlen. unfold BulkSchedule.compute_schedule.
  rewrite decide_False by done.
  assert (∀ base step, ∃ post rest,
            BulkSchedule.of_loop
              (BulkSchedule.fixed_step_loop (BulkSchedule.captions_of caps)
                 base step 0 n)
            = BulkSchedule.Scheduled (post :: rest)) as Hloop.
  { intros base step.
    destruct (fixed_step_loop_total (BulkSchedule.captions_of caps) base step n 0
                ltac:(lia)) as [posts Hp].
    rewrite Hp. pose proof (fixed_step_loop_length _ _ _ _ _ _ Hp) as Hl.
    destruct posts; [simpl in Hl; lia|]. by eexists _, _. }
  repeat case_decide; try apply Hloop.
  all: exfalso; repeat (apply elem_of_cons in Hkey as [-> | Hkey]; [done|]).
  all: by apply elem_of_nil in Hkey.
Qed.

Lemma is_empty_action sd a : action sd = Some a → is_empty sd = false.
Proof.
  intros Ha. unfold is_empty. apply bool_decide_eq_false. by intros ->.
Qed.

(** X21.  [/skip] in the caption step of a bulk upload writes a state
    without platform and upload type.  When nothing fails and the user
    then opens the schedule menu and picks one of the five fixed
    presets, the handler raises after its [Scheduling...] alert: no
    entry is stored and the state stays as the menu left it. *)
Theorem skipped_captions_cannot_be_scheduled other msg q1 q2 w d sd ids :
  no_faults w → db w = Some d →
  query_from_user q1 = from_user msg → query_from_user q2 = from_user msg →
  user_states d !! from_user msg = Some sd →
  action sd = Some "waiting_for_bulk_captions" →
  media_file_ids sd = Some ids → ids ≠ [] →
  preset_key q2 ∈ ["1_hour"; "3_hours"; "6_hours"; "12_hours"; "once_daily"] →
  ∃ w1 w2 w3 d3,
    handle_skip_command other msg w = (Ok tt, w1)
    ∧ bulk_schedule_posts_cb q1 w1 = (Ok tt, w2)
    ∧ schedule_preset_cb q2 w2 = (Raise Exception, w3)
    ∧ db w3 = Some d3
    ∧ schedules d3 = schedules d
    ∧ user_states d3 !! from_user msg
      = Some (with_action "waiting_for_schedule_preset" (skipped_captions_state sd)).
Proof.
  intros Hnf Hdb Hq1 Hq2 Hsd Hact Hids Hne Hkey.
  set (u := from_user msg) in *.
  (* /skip *)
  unfold handle_skip_command. fold u.
  rewrite (run_bind _ _ _ _ _ (get_user_state_ok w u d Hnf Hdb)).
  rewrite (stored_state_lookup w d u sd Hdb Hsd).
  rewrite (is_empty_action sd _ Hact). unfold action_in. rewrite Hact.
  rewrite bool_decide_true by (apply elem_of_cons; right; apply elem_of_cons; by left).
  cbn [orb negb].
  rewrite bool_decide_false by done.
  set (wa := set_ticks _ w).
  assert (no_faults wa) as Hnfa by (by eapply no_faults_env).
  rewrite (run_bind _ _ _ _ _ (save_user_state_ok wa u _ d Hnfa Hdb)).
  set (sd1 := skipped_captions_state sd).
  set (d1 := set_user_states _ d). set (wb := set_db _ _).
  assert (no_faults wb) as Hnfb by (by eapply no_faults_env).
  rewrite (run_bind _ _ _ _ _ (reply_ok wb _ _ Hnfb)).
  set (w1 := set_transport _ _ _).
  exists w1. unfold ret at 1.
  (* the schedule menu *)
  assert (no_faults w1) as Hnf1 by (by eapply no_faults_env).
  assert (db w1 = Some d1) as Hdb1 by done.
  assert (user_states d1 !! u = Some sd1) as Hsd1.
  { subst d1. simpl. by rewrite lookup_insert_eq. }
  unfold bulk_schedule_posts_cb. rewrite Hq1.
  rewrite (run_bind _ _ _ _ _ (get_user_state_ok w1 u d1 Hnf1 Hdb1)).
  rewrite (stored_state_lookup w1 d1 u sd1 Hdb1 Hsd1).
  rewrite (is_empty_action sd1 "waiting_for_schedule_options") by done.
  rewrite bool_decide_true by done. cbn [orb negb].
  set (wc := set_ticks _ w1).
  assert (no_faults wc) as Hnfc by (by eapply no_faults_env).
  rewrite (run_bind _ _ _ _ _ (safe_edit_message_ok wc _ _ Hnfc)).
  set (wd := set_transport _ _ _).
  assert (no_faults wd) as Hnfd by (by eapply no_faults_env).
  rewrite (save_user_state_ok wd u _ d1 Hnfd Hdb1).
  set (sd2 := with_action _ sd1).
  set (d2 := set_user_states _ d1). set (w2 := set_db _ _).
  exists w2.
  (* the preset *)
  assert (no_faults w2) as Hnf2 by (by eapply no_faults_env).
  assert (db w2 = Some d2) as Hdb2 by done.
  assert (user_states d2 !! u = Some sd2) as Hsd2.
  { subst d2. simpl. by rewrite lookup_insert_eq. }
  unfold schedule_preset_cb. rewrite Hq2.
  rewrite (run_bind _ _ _ _ _ (get_user_state_ok w2 u d2 Hnf2 Hdb2)).
  rewrite (stored_state_lookup w2 d2 u sd2 Hdb2 Hsd2).
  assert (media_file_ids sd2 = Some ids) as Hids2.
  { subst sd2 sd1. unfold skipped_captions_state. simpl. by rewrite Hids. }
  rewrite Hids2. change (default [] (Some ids)) with ids.
  destruct (decide (length ids = 0%nat)) as [Hz|Hnz]; [by destruct ids|].
  set (we := set_ticks _ w2).
  assert (no_faults we) as Hnfe by (by eapply no_faults_env).
  unfold answer at 1. rewrite (run_bind _ _ _ _ _ (await_ok we Hnfe)).
  set (wf := set_ticks _ we). rewrite get_bind.
  destruct (fixed_presets_total (scheduling_windows (globals wf)) (preset_key q2)
              (utcnow (env wf)) (Clock.to_ist (utcnow (env wf))) (length ids)
              (bulk_captions sd2) Hkey Hnz) as (post & rest & ->).
  { subst sd2 sd1. unfold skipped_captions_state. simpl. rewrite Hids. simpl.
    by rewrite length_replicate. }
  unfold save_bulk_schedules. rewrite bind_assoc, get_bind.
  change (db wf) with (Some d2). cbn [save_posts].
  assert (schedule_document u sd2 0 post = None) as ->.
  { unfold schedule_document. subst sd2 sd1. simpl.
    by destruct (default [] (media_msgs sd) !! 0%nat). }
  exists wf, d2. split_and!; try done.
Qed.

Lemma skipped_captions_cannot_be_scheduled_witness :
  let w := Conversation.sample_world captions_state in
  let d := Database {[ 7 := lapsed_user ]} {[ 7 := captions_state ]} ∅ ∅ ∅ [] in
  let msg := sample_message "/skip" in
  let q1 := CallbackQuery 7 60 "bulk_schedule_posts" in
  no_faults w ∧ preset_key hourly_query = "1_hour"
  ∧ ∃ w1 w2 w3 d3,
      handle_skip_command no_other_flows msg w = (Ok tt, w1)
      ∧ bulk_schedule_posts_cb q1 w1 = (Ok tt, w2)
      ∧ schedule_preset_cb hourly_query w2 = (Raise Exception, w3)
      ∧ db w3 = Some d3
      ∧ schedules d3 = schedules d
      ∧ user_states d3 !! from_user msg
        = Some (with_action "waiting_for_schedule_preset"
                  (skipped_captions_state captions_state)).
Proof.
  intros w d msg q1.
  assert (no_faults w) as Hnf by (intros k; reflexivity).
  split; [exact Hnf|]. split; [vm_compute; reflexivity|].
  apply (skipped_captions_cannot_be_scheduled no_other_flows msg q1 hourly_query
           w d captions_state ["file-1"; "file-2"] Hnf eq_refl eq_refl eq_refl);
    [reflexivity | reflexivity | reflexivity | done | vm_compute; constructor].
Defined.

(** **** Albums *)




(** **** The cancel button *)

Lemma cleanup_temp_files_frame l : ∀ w,
  task_tracker (cleanup_temp_files l w) = task_tracker w
  ∧ ticks (cleanup_temp_files l w) = ticks w
  ∧ outbox (cleanup_temp_files l w) = outbox w.
Proof.
  induction l as [|x l IH]; intros w; [done|]. cbn [cleanup_temp_files].
  set (w1 := match x with Some _ => _ | None => _ end).
  assert (task_tracker w1 = task_tracker w ∧ ticks w1 = ticks w
          ∧ outbox w1 = outbox w) as (Ht & Hk & Ho).
  { subst w1. destruct x as [p|]; [|done].
    destruct (truthy (Some p) && bool_decide (p ∈ files w)); [|done].
    by destruct (bool_decide (p ∈ undeletable w)). }
  destruct (IH w1) as (-> & -> & ->). done.
Qed.

(** X23.  When nothing fails, by the time the cancel button starts to
    wait for the tasks it cancelled, it has deleted the user's state and
    nothing else in the store, removed from the disk the fetched file
    the state names (unless the file cannot be deleted) and no other
    file, and dropped every task registered for the user from the
    registry after asking it to stop.  The handler then ends as that
    wait ends; what the cancelled tasks do while they end is theirs. *)
Theorem cancel_upload_cleans_up wind_down q w d :
  no_faults w → db w = Some d →
  ∃ w1,
    cancel_upload_cb wind_down q w
    = wait_for wind_down (awaited (task_tracker w) (query_from_user q)) w1
    ∧ db w1 = Some (set_user_states (delete (query_from_user q) (user_states d)) d)
    ∧ stored_state w1 (query_from_user q) = no_state
    ∧ (∀ p, p ∈ files w1 ↔
         p ∈ files w
         ∧ (sd_file_info (stored_state w (query_from_user q)) ≫= fi_downloaded_path
            = Some p → p = EmptyString ∨ p ∈ undeletable w))
    ∧ task_tracker w1
      = Tasks.cancel_all_user_tasks (task_tracker w) (query_from_user q)
    ∧ ∀ n, Tasks.registered (task_tracker w1) (query_from_user q) n = None.
Proof.
  intros Hnf Hdb. set (u := query_from_user q).
  unfold cancel_upload_cb. fold u.
  unfold answer. rewrite (run_bind _ _ _ _ _ (await_ok w Hnf)).
  set (w1 := set_ticks _ w).
  assert (no_faults w1) as Hnf1 by (by eapply no_faults_env).
  rewrite (run_bind _ _ _ _ _ (safe_edit_message_ok w1 _ _ Hnf1)).
  set (w2 := set_transport _ _ _).
  assert (no_faults w2) as Hnf2 by (by eapply no_faults_env).
  assert (db w2 = Some d) as Hdb2 by done.
  rewrite (run_bind _ _ _ _ _ (get_user_state_ok w2 u d Hnf2 Hdb2)).
  change (stored_state w2 u) with (stored_state w u).
  set (sd := stored_state w u).
  set (l := match sd_file_info sd with Some fi => [fi_downloaded_path fi] | None => [] end).
  rewrite modify_bind. set (w3 := cleanup_temp_files l _).
  destruct (cleanup_temp_files_spec l (set_ticks (S (ticks w2)) w2))
    as (_ & _ & _ & Henv3 & Hdb3 & _).
  destruct (cleanup_temp_files_frame l (set_ticks (S (ticks w2)) w2))
    as (Htr3 & _ & _).
  fold w3 in Henv3, Hdb3, Htr3.
  assert (no_faults w3) as Hnf3 by (by eapply no_faults_env).
  assert (db w3 = Some d) as Hdb3' by (by rewrite Hdb3).
  rewrite (run_bind _ _ _ _ _ (clear_user_state_ok w3 u d Hnf3 Hdb3')).
  set (w4 := set_db _ _).
  assert (task_tracker w4 = task_tracker w) as Htr4.
  { transitivity (task_tracker w3); [done|]. by rewrite Htr3. }
  assert (∀ p, p ∈ files w4 ↔
            p ∈ files w
            ∧ (sd_file_info sd ≫= fi_downloaded_path = Some p →
               p = EmptyString ∨ p ∈ undeletable w)) as Hfiles.
  { intros p. subst w4. cbn [files set_db set_ticks]. subst w3.
    rewrite cleanup_temp_files_files. cbn [files undeletable set_ticks set_transport].
    subst l. destruct (sd_file_info sd) as [fi|]; simpl.
    - rewrite list_elem_of_singleton. split; intros [Hin Himp]; (split; [done|]).
      + intros Hp. apply Himp. by f_equal.
      + intros [= Hp]. by apply Himp.
    - split; intros [Hin _]; (split; [done|]); [done|].
      by intros ?%elem_of_nil. }
  assert (stored_state w4 u = no_state) as Hgone.
  { unfold stored_state. simpl. by rewrite lookup_delete_eq. }
  unfold cancel_all_user_tasks. rewrite get_bind, Htr4.
  assert (∀ n, Tasks.registered
                 (Tasks.cancel_all_user_tasks (task_tracker w) u) u n = None) as Hreg.
  { intros n. rewrite registered_cancel_all_user_tasks. by rewrite decide_True. }
  destruct (Tasks.user_specific_tasks (task_tracker w) !! u) as [inner|] eqn:Hu.
  - rewrite modify_bind, Htr4. eexists. split; [reflexivity|].
    split_and!; done.
  - exists w4.
    assert (awaited (task_tracker w) u = []) as ->.
    { unfold awaited. by rewrite Hu. }
    assert (Tasks.cancel_all_user_tasks (task_tracker w) u = task_tracker w) as Hsame.
    { unfold Tasks.cancel_all_user_tasks. by rewrite Hu. }
    split; [reflexivity|]. rewrite Htr4.
    split_and!; try done. intros n. by rewrite <- Hsame.
Qed.

Lemma cancel_upload_cleans_up_witness :
  let w := options_world in
  let d := Database {[ 7 := lapsed_user ]} {[ 7 := options_state ]} ∅ ∅ ∅ [] in
  let q := CallbackQuery 7 60 "cancel_upload" in
  let wind_down : nat → M unit := λ _, ret tt in
  no_faults w ∧ db w = Some d
  ∧ awaited (task_tracker w) 7 = [1%nat]
  ∧ ∃ w1,
      cancel_upload_cb wind_down q w
      = wait_for wind_down (awaited (task_tracker w) (query_from_user q)) w1
      ∧ db w1 = Some (set_user_states (delete (query_from_user q) (user_states d)) d)
      ∧ stored_state w1 (query_from_user q) = no_state
      ∧ (∀ p, p ∈ files w1 ↔
           p ∈ files w
           ∧ (sd_file_info (stored_state w (query_from_user q)) ≫= fi_downloaded_path
              = Some p → p = EmptyString ∨ p ∈ undeletable w))
      ∧ task_tracker w1
        = Tasks.cancel_all_user_tasks (task_tracker w) (query_from_user q)
      ∧ ∀ n, Tasks.registered (task_tracker w1) (query_from_user q) n = None.
Proof.
  intros w d q wind_down.
  assert (no_faults w) as Hnf by (intros k; reflexivity).
  split; [exact Hnf|]. split; [reflexivity|].
  split; [vm_compute; reflexivity|].
  exact (cancel_upload_cleans_up wind_down q w d Hnf eq_refl).
Defined.

(** **** Collecting bulk media *)

Lemma steady_bind {A B} w0 (m : M A) (f : A → M B) (Q : result B → world → Prop) :
  maintains (steady w0) m →
  (∀ a, triple (steady w0) (f a) Q) →
  (∀ r w, steady w0 w → Q r w) →
  triple (steady w0) (bind m f) Q.
Proof.
  intros Hm Hf HQ w Hw. specialize (Hm w Hw). unfold bind.
  destruct (m w) as [[a|e|] w']; simpl in *; [by apply Hf|by apply HQ|by apply HQ].
Qed.

Lemma steady_bind_val {A B} w0 (m : M A) (f : A → M B) (V : A → Prop)
    (Q : result B → world → Prop) :
  triple (steady w0) m (λ r w, steady w0 w ∧ ∀ a, r = Ok a → V a) →
  (∀ a, V a → triple (steady w0) (f a) Q) →
  (∀ r w, steady w0 w → Q r w) →
  triple (steady w0) (bind m f) Q.
Proof.
  intros Hm Hf HQ w Hw. specialize (Hm w Hw). unfold bind.
  destruct (m w) as [[a|e|] w']; simpl in *;
    [|apply HQ; tauto|apply HQ; tauto].
  destruct Hm as [Hw' Hv]. by apply Hf; [apply Hv|].
Qed.

Lemma steady_done {A} w0 (m : M A) (Q : result A → world → Prop) :
  maintains (steady w0) m → (∀ r w, steady w0 w → Q r w) → triple (steady w0) m Q.
Proof. intros Hm HQ w Hw. apply HQ. by apply Hm. Qed.

Lemma maintains_the_db w0 : maintains (steady w0) the_db.
Proof. intros w Hw. unfold the_db. by destruct (db w). Qed.

Lemma maintains_get_user_premium_type w0 u :
  maintains (steady w0) (get_user_premium_type u).
Proof.
  unfold get_user_premium_type.
  apply maintains_bind; [apply maintains_get|]. intros w1.
  destruct (is_admin w1 u); [apply maintains_ret|].
  apply maintains_bind.
  { unfold _get_user_data. apply maintains_bind; [apply maintains_get|]. intros w2.
    destruct (db w2) as [d2|]; [|apply maintains_ret].
    apply maintains_bind; [apply maintains_await|]. intros _.
    apply maintains_bind; [apply maintains_the_db|]. intros d3. apply maintains_ret. }
  intros [doc|]; [|apply maintains_ret].
  apply maintains_bind.
  { intros w Hw. by destruct (is_premium_steady w0 u "instagram" w Hw). }
  intros b. destruct b; apply maintains_ret.
Qed.

(** A write of the user's state followed by a reply leaves the user
    with the old state or with the new one. *)
Lemma save_then_reply w0 u sd1 to_message body :
  triple (steady w0)
    (bind (_save_user_state u sd1)
       (λ _, bind (reply to_message body) (λ _, ret tt)))
    (λ _ w, stored_state w u = stored_state w0 u ∨ stored_state w u = sd1).
Proof.
  intros w Hw. pose proof (stored_state_steady _ _ u Hw) as Hss.
  unfold stored_state in *. unfold _save_user_state, reply. run_m.
  destruct (db w) as [d|] eqn:Hdb; simpl in *.
  - destruct (faults (env w) (ticks w)); simpl; [rewrite Hdb; by left|].
    rewrite Hdb. simpl.
    destruct (faults (env w) (S (ticks w))); simpl;
      right; by rewrite lookup_insert_eq.
  - destruct (faults (env w) (ticks w)); simpl; rewrite Hdb; by left.
Qed.

Lemma clear_then_reply w0 u to_message body :
  triple (steady w0)
    (bind (_clear_user_state u)
       (λ _, bind (reply to_message body) (λ _, ret tt)))
    (λ _ w, stored_state w u = stored_state w0 u ∨ stored_state w u = no_state).
Proof.
  intros w Hw. pose proof (stored_state_steady _ _ u Hw) as Hss.
  unfold stored_state in *. unfold _clear_user_state, reply. run_m.
  destruct (db w) as [d|] eqn:Hdb; simpl in *.
  - destruct (faults (env w) (ticks w)); simpl; [rewrite Hdb; by left|].
    rewrite Hdb. simpl.
    destruct (faults (env w) (S (ticks w))); simpl;
      right; by rewrite lookup_delete_eq.
  - destruct (faults (env w) (ticks w)); simpl; rewrite Hdb; by left.
Qed.

(** X24.  While bulk media are collected, whatever the collaborators
    answer, a media message leaves the user either without a state or
    with a bulk collection that is still consistent: the list of files
    and the list of messages have the same length, which the counter
    shows, and that length does not exceed the limit the collection
    started with. *)
Theorem bulk_collection_stays_consistent admin_flows msg w :
  action (stored_state w (from_user msg)) = Some "waiting_for_bulk_media" →
  bulk_consistent (stored_state w (from_user msg)) →
  let sd' := stored_state (handle_media_upload admin_flows msg w).2 (from_user msg) in
  sd' = no_state
  ∨ (action sd' = Some "waiting_for_bulk_media"
     ∧ bulk_consistent sd'
     ∧ media_limit sd' = media_limit (stored_state w (from_user msg))).
Proof.
  intros Hact Hcons. set (u := from_user msg) in *.
  set (sd := stored_state w u) in *.
  set (good := λ sd' : state_data,
         sd' = no_state
         ∨ (action sd' = Some "waiting_for_bulk_media"
            ∧ bulk_consistent sd' ∧ media_limit sd' = media_limit sd)).
  assert (good sd) as Hgood by (right; done).
  assert (∀ (r : result unit) w', steady w w' → good (stored_state w' u)) as Hsteady.
  { intros _ w' Hw'. by rewrite (stored_state_steady _ _ u Hw'). }
  enough (triple (steady w) (handle_media_upload admin_flows msg)
            (λ _ w', good (stored_state w' u))) as Htriple.
  { exact (Htriple w (steady_refl w)). }
  unfold handle_media_upload. fold u.
  apply steady_bind; [apply maintains_touch_last_active| |done]. intros _.
  eapply steady_bind_val; [apply get_user_state_steady| |done]. simpl.
  intros sd0 ->. fold sd.
  apply steady_bind; [apply maintains_get| |done]. intros w1.
  rewrite Hact.
  rewrite (bool_decide_false (Some "waiting_for_bulk_media"
                              = Some "waiting_for_google_play_qr")) by done.
  rewrite (bool_decide_false (Some "waiting_for_bulk_media"
                              = Some "waiting_for_watermark_image")) by done.
  rewrite orb_false_r, andb_false_r. cbn [andb from_option id].
  rewrite bool_decide_true by (unfold valid_actions; set_solver).
  cbn [negb].
  destruct (media_of msg) as [media|].
  2:{ apply steady_done; [|done].
      apply maintains_bind; [apply maintains_reply|]. intros _. apply maintains_ret. }
  apply steady_bind; [apply maintains_get_user_premium_type| |done]. intros user_type.
  destruct ((max_file_size_bytes w1 <? file_size media)
            && negb (bool_decide (user_type = "admin"))).
  { eapply triple_weaken; [apply clear_then_reply|done|].
    intros _ w' [-> | ->]; [done|by left]. }
  destruct (sd_platform sd) as [platform|]; [|by apply steady_done; [apply maintains_raise|]].
  destruct (sd_upload_type sd) as [upload_type|];
    [|by apply steady_done; [apply maintains_raise|]].
  rewrite decide_True by done.
  destruct Hcons as (ids & msgs & limit & Hids & Hmsgs & Hlim & Hcount & Hlen & Hle).
  rewrite Hids, Hlim, Hmsgs, Hcount. cbn [from_option id].
  destruct (Z.leb_spec limit (Z.of_nat (length ids))) as [_|Hroom].
  { apply steady_done; [|done].
    apply maintains_bind; [apply maintains_reply|]. intros _. apply maintains_ret. }
  destruct (negb (bool_decide (is_Some (video msg)))).
  { apply steady_done; [|done].
    apply maintains_bind; [apply maintains_reply|]. intros _. apply maintains_ret. }
  eapply triple_weaken; [apply save_then_reply|done|].
  intros _ w' [-> | ->]; [done|]. right. split; [exact Hact|]. split; [|done].
  exists (ids ++ [file_id media]), (msgs ++ [(chat_id msg, msg_id msg)]), limit.
  simpl. rewrite !length_app. simpl.
  split_and!; try done; try (f_equal; lia); lia.
Qed.

Lemma bulk_collection_stays_consistent_witness :
  let w := Conversation.sample_world collecting_state in
  let sd' := stored_state (handle_media_upload no_other_flows sample_video w).2 7 in
  action (stored_state w 7) = Some "waiting_for_bulk_media"
  ∧ bulk_consistent (stored_state w 7)
  ∧ (sd' = no_state
     ∨ (action sd' = Some "waiting_for_bulk_media"
        ∧ bulk_consistent sd'
        ∧ media_limit sd' = media_limit (stored_state w 7))).
Proof.
  intros w sd'.
  assert (bulk_consistent (stored_state w 7)) as Hcons.
  { exists ["file-1"%string], [(7, 31)], 5.
    split_and!; [reflexivity | reflexivity | reflexivity | reflexivity
                | reflexivity | simpl; lia]. }
  split; [reflexivity|]. split; [exact Hcons|].
  exact (bulk_collection_stays_consistent no_other_flows sample_video w eq_refl Hcons).
Defined.

(** X25.  In the caption steps of a bulk upload, whatever the
    collaborators answer, a text message leaves the state as it was or
    moves it to the schedule options with exactly one caption per
    collected item and the collected items, platform and upload type
    unchanged. *)
Theorem bulk_captions_match_the_items other msg w :
  action (stored_state w (from_user msg)) = Some "waiting_for_bulk_single_caption"
  ∨ action (stored_state w (from_user msg))
    = Some "waiting_for_bulk_individual_captions" →
  let sd := stored_state w (from_user msg) in
  let sd' := stored_state (handle_text_input other msg w).2 (from_user msg) in
  sd' = sd
  ∨ (action sd' = Some "waiting_for_schedule_options"
     ∧ media_file_ids sd' = media_file_ids sd
     ∧ media_msgs sd' = media_msgs sd
     ∧ sd_platform sd' = sd_platform sd
     ∧ sd_upload_type sd' = sd_upload_type sd
     ∧ ∃ caps, bulk_captions sd' = Some caps
               ∧ length caps = length (default [] (media_file_ids sd))).
Proof.
  intros Hact sd. set (u := from_user msg) in *. fold sd in Hact. cbv zeta.
  set (good := λ sd' : state_data,
         sd' = sd
         ∨ (action sd' = Some "waiting_for_schedule_options"
            ∧ media_file_ids sd' = media_file_ids sd
            ∧ media_msgs sd' = media_msgs sd
            ∧ sd_platform sd' = sd_platform sd
            ∧ sd_upload_type sd' = sd_upload_type sd
            ∧ ∃ caps, bulk_captions sd' = Some caps
                      ∧ length caps = length (default [] (media_file_ids sd)))).
  assert (∀ (r : result unit) w', steady w w' → good (stored_state w' u)) as Hsteady.
  { intros _ w' Hw'. left. by rewrite (stored_state_steady _ _ u Hw'). }
  enough (triple (steady w) (handle_text_input other msg)
            (λ _ w', good (stored_state w' u))) as Htriple.
  { exact (Htriple w (steady_refl w)). }
  unfold handle_text_input. fold u.
  eapply steady_bind_val; [apply get_user_state_steady| |done]. simpl.
  intros sd0 ->. fold sd.
  apply steady_bind; [apply maintains_touch_last_active| |done]. intros _.
  assert (is_empty sd = false) as ->.
  { destruct Hact as [Ha|Ha]; by eapply is_empty_action. }
  destruct Hact as [Ha|Ha].
  - rewrite decide_False by (by rewrite Ha). rewrite decide_True by done.
    eapply triple_weaken; [apply save_then_reply|done|].
    intros _ w' [-> | ->]; [by left|]. right. simpl.
    split_and!; try done. eexists. split; [done|]. by rewrite length_replicate.
  - rewrite decide_False by (by rewrite Ha).
    rewrite decide_False by (by rewrite Ha). rewrite decide_True by done.
    destruct (Nat.eqb_spec (length (Text.strip <$> Text.split "----" (text msg)))
                (length (default [] (media_file_ids sd)))) as [Heq|Hne]; cbn [negb].
    + eapply triple_weaken; [apply save_then_reply|done|].
      intros _ w' [-> | ->]; [by left|]. right. simpl.
      split_and!; try done. eexists. split; [done|].
      by rewrite length_fmap.
    + apply steady_done; [|done].
      apply maintains_bind; [apply maintains_reply|]. intros _. apply maintains_ret.
Qed.

Lemma bulk_captions_match_the_items_witness :
  let w := Conversation.sample_world bulk_caption_state in
  let msg := sample_message "Both" in
  let sd := stored_state w (from_user msg) in
  let sd' := stored_state (handle_text_input no_other_flows msg w).2 (from_user msg) in
  action sd = Some "waiting_for_bulk_single_caption"
  ∧ (sd' = sd
     ∨ (action sd' = Some "waiting_for_schedule_options"
        ∧ media_file_ids sd' = media_file_ids sd
        ∧ media_msgs sd' = media_msgs sd
        ∧ sd_platform sd' = sd_platform sd
        ∧ sd_upload_type sd' = sd_upload_type sd
        ∧ ∃ caps, bulk_captions sd' = Some caps
                  ∧ length caps = length (default [] (media_file_ids sd)))).
Proof.
  intros w msg sd sd'. split; [reflexivity|].
  exact (bulk_captions_match_the_items no_other_flows msg w (or_introl eq_refl)).
Defined.

(** X26.  [/done] from a user who has collected nothing, in whatever
    state and whatever the collaborators answer, changes no stored
    state, no file and no task. *)
Theorem done_without_media_changes_nothing msg w :
  default [] (media_file_ids (stored_state w (from_user msg))) = [] →
  steady w (handle_done_command msg w).2.
Proof.
  intros Hnone.
  enough (maintains (steady w) (handle_done_command msg)) as Hm.
  { exact (Hm w (steady_refl w)). }
  unfold handle_done_command.
  eapply maintains_bind_val; [apply get_user_state_steady|]. simpl. intros sd ->.
  destruct (is_empty _ || _).
  { apply maintains_bind; [apply maintains_reply|]. intros _. apply maintains_ret. }
  rewrite Hnone. rewrite bool_decide_true by done.
  apply maintains_bind; [apply maintains_reply|]. intros _. apply maintains_ret.
Qed.

Lemma done_without_media_changes_nothing_witness :
  let w := Conversation.sample_world
             (StateData (Some "waiting_for_album_media") (Some "instagram")
                (Some "album") None (Some []) (Some []) None None None) in
  let msg := sample_message "/done" in
  default [] (media_file_ids (stored_state w (from_user msg))) = []
  ∧ steady w (handle_done_command msg w).2.
Proof.
  intros w msg. split; [reflexivity|].
  exact (done_without_media_changes_nothing msg w eq_refl).
Defined.

(** X27.  An inactivity timer that goes off for a user without a
    conversation state is silent, whatever the collaborators answer:
    no stored state, file or task changes and nothing is sent. *)
Theorem timer_without_state_is_silent u m w :
  stored_state w u = no_state →
  steady w (timeout_task u m w).2 ∧ outbox (timeout_task u m w).2 = outbox w.
Proof.
  unfold stored_state, timeout_task, sleep, _get_user_state. run_m.
  intros Hnone.
  destruct (faults (env w) (ticks w)); simpl; [done|].
  destruct (db w) as [d|] eqn:Hdb; simpl in *.
  - destruct (faults (env w) (S (ticks w))); simpl; [done|].
    rewrite Hdb. simpl. rewrite Hnone. simpl. done.
  - done.
Qed.

Lemma timer_without_state_is_silent_witness :
  let w := Pipeline.sample_world in
  stored_state w 7 = no_state
  ∧ steady w (timeout_task 7 50 w).2 ∧ outbox (timeout_task 7 50 w).2 = outbox w.
Proof.
  intros w. split; [reflexivity|].
  exact (timer_without_state_is_silent 7 50 w eq_refl).
Defined.

End FlowFacts.

(** *** The caption path of the bulk flow and the upload button *)

Section FlowPathFacts.
Import World Conversation Flows.

Implicit Types (w : world) (d : database) (sd : state_data).

(** X28.  The caption path of a bulk upload keeps the job together.
    When nothing fails, [/done] on a bulk collection, the button for a
    single caption, the caption text and the schedule button leave the
    user at the preset step with the state the collection had, its
    platform, upload type, files and messages included, and the caption
    once for every file. *)
Theorem single_caption_path_keeps_the_job
    other msg_done q_caption msg_text q_schedule w d sd ids :
  no_faults w → db w = Some d →
  query_from_user q_caption = from_user msg_done →
  from_user msg_text = from_user msg_done →
  query_from_user q_schedule = from_user msg_done →
  user_states d !! from_user msg_done = Some sd →
  action sd = Some "waiting_for_bulk_media" →
  sd_upload_type sd = Some "bulk_reel" →
  media_file_ids sd = Some ids → ids ≠ [] →
  ∃ w1 w2 w3 w4,
    handle_done_command msg_done w = (Ok tt, w1)
    ∧ bulk_add_single_caption_cb q_caption w1 = (Ok tt, w2)
    ∧ handle_text_input other msg_text w2 = (Ok tt, w3)
    ∧ bulk_schedule_posts_cb q_schedule w3 = (Ok tt, w4)
    ∧ stored_state w4 (from_user msg_done)
      = with_action "waiting_for_schedule_preset"
          (with_bulk_captions (replicate (length ids) (Some (text msg_text))) sd)
    ∧ files w4 = files w
    ∧ (schedules <$> db w4) = Some (schedules d).
Proof.
  intros Hnf Hdb Hq1 Hm Hq2 Hsd Hact Hut Hids Hne.
  set (u := from_user msg_done) in *.
  (* /done *)
  unfold handle_done_command. fold u.
  rewrite (run_bind _ _ _ _ _ (get_user_state_ok w u d Hnf Hdb)).
  rewrite (stored_state_lookup w d u sd Hdb Hsd).
  rewrite (is_empty_action sd _ Hact). unfold action_in. rewrite Hact.
  rewrite bool_decide_true by (apply elem_of_cons; right; apply elem_of_cons; by left).
  cbn [orb negb].
  rewrite Hids. change (default [] (Some ids)) with ids.
  rewrite (bool_decide_false (ids = [])) by done.
  rewrite Hut. rewrite bool_decide_true by done.
  set (wa := set_ticks _ w).
  assert (no_faults wa) as Hnfa by (by eapply no_faults_env).
  rewrite (run_bind _ _ _ _ _ (save_user_state_ok wa u _ d Hnfa Hdb)).
  set (sd1 := with_action "waiting_for_bulk_captions" sd).
  set (d1 := set_user_states _ d). set (wb := set_db _ _).
  assert (no_faults wb) as Hnfb by (by eapply no_faults_env).
  rewrite (run_bind _ _ _ _ _ (reply_ok wb _ _ Hnfb)).
  set (w1 := set_transport _ _ _). unfold ret at 1. exists w1.
  assert (no_faults w1) as Hnf1 by (by eapply no_faults_env).
  assert (db w1 = Some d1) as Hdb1 by done.
  assert (user_states d1 !! u = Some sd1) as Hsd1.
  { subst d1. simpl. by rewrite lookup_insert_eq. }
  (* the button for one caption *)
  unfold bulk_add_single_caption_cb, bulk_add_captions_cb. rewrite Hq1.
  rewrite (run_bind _ _ _ _ _ (get_user_state_ok w1 u d1 Hnf1 Hdb1)).
  rewrite (stored_state_lookup w1 d1 u sd1 Hdb1 Hsd1).
  rewrite (is_empty_action sd1 "waiting_for_bulk_captions") by done.
  rewrite bool_decide_true by done. cbn [orb negb].
  set (wc := set_ticks _ w1).
  assert (no_faults wc) as Hnfc by (by eapply no_faults_env).
  rewrite (run_bind _ _ _ _ _ (save_user_state_ok wc u _ d1 Hnfc Hdb1)).
  set (sd2 := with_action "waiting_for_bulk_single_caption" sd1).
  set (d2 := set_user_states _ d1). set (wd := set_db _ _).
  assert (no_faults wd) as Hnfd by (by eapply no_faults_env).
  rewrite (safe_edit_message_ok wd _ _ Hnfd).
  set (w2 := set_transport _ _ _). exists w2.
  assert (no_faults w2) as Hnf2 by (by eapply no_faults_env).
  assert (db w2 = Some d2) as Hdb2 by done.
  assert (user_states d2 !! u = Some sd2) as Hsd2.
  { subst d2. simpl. by rewrite lookup_insert_eq. }
  (* the caption *)
  unfold handle_text_input. rewrite Hm.
  rewrite (run_bind _ _ _ _ _ (get_user_state_ok w2 u d2 Hnf2 Hdb2)).
  rewrite (stored_state_lookup w2 d2 u sd2 Hdb2 Hsd2).
  set (we := set_ticks _ w2).
  assert (no_faults we) as Hnfe by (by eapply no_faults_env).
  rewrite (run_bind _ _ _ _ _ (touch_last_active_ok we u d2 Hnfe Hdb2)).
  set (d3 := set_users _ d2). set (wf := set_db _ _).
  assert (no_faults wf) as Hnff by (by eapply no_faults_env).
  rewrite (is_empty_action sd2 "waiting_for_bulk_single_caption") by done.
  rewrite decide_False by done. rewrite decide_True by done.
  assert (media_file_ids sd2 = Some ids) as Hids2 by (by rewrite <- Hids).
  rewrite Hids2. change (default [] (Some ids)) with ids.
  rewrite (run_bind _ _ _ _ _ (save_user_state_ok wf u _ d3 Hnff eq_refl)).
  set (sd3 := with_action "waiting_for_schedule_options" _).
  set (d4 := set_user_states _ d3). set (wg := set_db _ _).
  assert (no_faults wg) as Hnfg by (by eapply no_faults_env).
  rewrite (run_bind _ _ _ _ _ (reply_ok wg _ _ Hnfg)).
  set (w3 := set_transport _ _ _). unfold ret at 1. exists w3.
  assert (no_faults w3) as Hnf3 by (by eapply no_faults_env).
  assert (db w3 = Some d4) as Hdb3 by done.
  assert (user_states d4 !! u = Some sd3) as Hsd3.
  { subst d4. simpl. by rewrite lookup_insert_eq. }
  (* the schedule button *)
  unfold bulk_schedule_posts_cb. rewrite Hq2.
  rewrite (run_bind _ _ _ _ _ (get_user_state_ok w3 u d4 Hnf3 Hdb3)).
  rewrite (stored_state_lookup w3 d4 u sd3 Hdb3 Hsd3).
  rewrite (is_empty_action sd3 "waiting_for_schedule_options") by done.
  rewrite bool_decide_true by done. cbn [orb negb].
  set (wh := set_ticks _ w3).
  assert (no_faults wh) as Hnfh by (by eapply no_faults_env).
  rewrite (run_bind _ _ _ _ _ (safe_edit_message_ok wh _ _ Hnfh)).
  set (wi := set_transport _ _ _).
  assert (no_faults wi) as Hnfi by (by eapply no_faults_env).
  rewrite (save_user_state_ok wi u _ d4 Hnfi Hdb3).
  eexists. split_and!; try done.
  unfold stored_state. simpl. by rewrite lookup_insert_eq.
Qed.

Lemma single_caption_path_keeps_the_job_witness :
  let w := Conversation.sample_world collecting_state in
  let d := Database {[ 7 := lapsed_user ]} {[ 7 := collecting_state ]} ∅ ∅ ∅ [] in
  let msg_done := sample_message "/done" in
  let msg_text := sample_message "Hello" in
  let q_caption := CallbackQuery 7 60 "bulk_add_single_caption" in
  let q_schedule := CallbackQuery 7 61 "bulk_schedule_posts" in
  no_faults w
  ∧ ∃ w1 w2 w3 w4,
      handle_done_command msg_done w = (Ok tt, w1)
      ∧ bulk_add_single_caption_cb q_caption w1 = (Ok tt, w2)
      ∧ handle_text_input no_other_flows msg_text w2 = (Ok tt, w3)
      ∧ bulk_schedule_posts_cb q_schedule w3 = (Ok tt, w4)
      ∧ stored_state w4 (from_user msg_done)
        = with_action "waiting_for_schedule_preset"
            (with_bulk_captions (replicate (length ["file-1"%string]) (Some (text msg_text)))
               collecting_state)
      ∧ files w4 = files w
      ∧ (schedules <$> db w4) = Some (schedules d).
Proof.
  intros w d msg_done msg_text q_caption q_schedule.
  assert (no_faults w) as Hnf by (intros k; reflexivity).
  split; [exact Hnf|].
  apply (single_caption_path_keeps_the_job no_other_flows msg_done q_caption msg_text
           q_schedule w d collecting_state ["file-1"%string] Hnf eq_refl eq_refl eq_refl
           eq_refl);
    [reflexivity | reflexivity | reflexivity | reflexivity | done].
Defined.

(** X29.  The upload button hands the job over before anything is
    uploaded.  When nothing fails and the state holds a job, the state
    is deleted at once and a pipeline run for the user is created and
    registered as the user's task [upload]; the inactivity timer stays
    registered, the registrations of other users and the files on disk
    are as before. *)
Theorem upload_now_starts_the_pipeline q w d sd fi :
  no_faults w → db w = Some d →
  query_from_user q ≠ 0 →
  user_states d !! query_from_user q = Some sd →
  sd_file_info sd = Some fi →
  ∃ w' t,
    upload_now_cb q w = (Ok tt, w')
    ∧ stored_state w' (query_from_user q) = no_state
    ∧ Tasks.registered (task_tracker w') (query_from_user q) "upload" = Some t
    ∧ Tasks.objects (task_tracker w') !! t
      = Some (Tasks.Task (Tasks.process_and_upload (query_from_user q) false None)
                false false)
    ∧ (∀ u' n', (u', n') ≠ (query_from_user q, "upload"%string) →
         Tasks.registered (task_tracker w') u' n'
         = Tasks.registered (task_tracker w) u' n')
    ∧ files w' = files w.
Proof.
  intros Hnf Hdb Hu Hsd Hfi. set (u := query_from_user q) in *.
  unfold upload_now_cb. fold u.
  rewrite (run_bind _ _ _ _ _ (get_user_state_ok w u d Hnf Hdb)).
  rewrite (stored_state_lookup w d u sd Hdb Hsd). rewrite Hfi.
  set (w1 := set_ticks _ w).
  assert (no_faults w1) as Hnf1 by (by eapply no_faults_env).
  rewrite (run_bind _ _ _ _ _ (safe_edit_message_ok w1 _ _ Hnf1)).
  set (w2 := set_transport _ _ _).
  assert (no_faults w2) as Hnf2 by (by eapply no_faults_env).
  rewrite (run_bind _ _ _ _ _ (clear_user_state_ok w2 u d Hnf2 Hdb)).
  set (w3 := set_db _ _). unfold start_upload_task, modify.
  change (task_tracker w3) with (task_tracker w).
  pose proof (create_task_keyed (task_tracker w)
                (Tasks.process_and_upload u false None) u "upload" true
                Hu ltac:(done) (or_intror eq_refl)) as Hct.
  cbv zeta in Hct.
  eexists _, (length (Tasks.objects (task_tracker w))).
  split; [reflexivity|]. cbn [task_tracker set_task_tracker files stored_state].
  split_and!.
  - unfold stored_state. simpl. by rewrite lookup_delete_eq.
  - rewrite registered_create_task_keyed by (done || by right).
    by rewrite decide_True.
  - rewrite Hct. simpl.
    rewrite lookup_app_r by (by rewrite length_objects_cancel_user_task).
    by rewrite length_objects_cancel_user_task, Nat.sub_diag.
  - intros u' n' Hne.
    rewrite registered_create_task_keyed by (done || by right).
    rewrite decide_False; [done|]. intros [<- <-]. done.
  - done.
Qed.

Lemma upload_now_starts_the_pipeline_witness :
  let w := Conversation.sample_world options_state in
  let d := Database {[ 7 := lapsed_user ]} {[ 7 := options_state ]} ∅ ∅ ∅ [] in
  let q := CallbackQuery 7 60 "upload_now" in
  no_faults w
  ∧ ∃ w' t,
      upload_now_cb q w = (Ok tt, w')
      ∧ stored_state w' (query_from_user q) = no_state
      ∧ Tasks.registered (task_tracker w') (query_from_user q) "upload" = Some t
      ∧ Tasks.objects (task_tracker w') !! t
        = Some (Tasks.Task (Tasks.process_and_upload (query_from_user q) false None)
                  false false)
      ∧ (∀ u' n', (u', n') ≠ (query_from_user q, "upload"%string) →
           Tasks.registered (task_tracker w') u' n'
           = Tasks.registered (task_tracker w) u' n')
      ∧ files w' = files w.
Proof.
  intros w d q.
  assert (no_faults w) as Hnf by (intros k; reflexivity).
  split; [exact Hnf|].
  apply (upload_now_starts_the_pipeline q w d options_state
           (with_downloaded_path (Some "downloads/clip.mp4")
              Conversation.sample_file_info) Hnf eq_refl);
    [done | reflexivity | reflexivity].
Defined.

End FlowPathFacts.
